(** * PostgreSQL tool server: role gate and checkpoint session

    A shallow embedding of the PostgreSQL MCP server found in
    [src/filesystem/src/roots-utils.ts] (the module that declares
    [databaseRoles], [checkPermissions] and [createServer]), and the
    properties of its permission gate, of its checkpoint state machine and
    of its query executor.

    Modelling conventions.
    - SQL text is a [string] read as 7-bit ASCII text.  On such text
      [String.prototype.trim], [toUpperCase] and the regular-expression
      class [\s] act exactly as [trim], [toUpperCase] and [isWhiteSpace]
      below; code units above 127 are outside the model.
    - JavaScript numbers that carry checkpoint ids are integers ([Z]); the
      optional [checkpointId] argument is an [option Z].
    - The connection pool, the database, the clock and [JSON.stringify]
      are external: they are the fields of an environment [Env], each a
      function of the calls made so far, so that a fixed environment
      describes one arbitrary behaviour of the outside world.
    - A tool handler is a computation in the monad [M]: it reads and
      writes the server variables and the call log and either returns or
      throws.  What was mutated before a [throw] stays mutated, as in
      JavaScript.  Handlers run one after the other (a handler is not
      interleaved with another one at its [await] points). *)

From Stdlib Require Import QArith Qround.
From Stdlib Require Import ZArith Bool List String Ascii Lia DecimalString Sorted.
Import ListNotations.

Local Open Scope string_scope.
Local Open Scope Z_scope.

(** ** JavaScript string primitives, on ASCII text *)

Module JsString.

(** The ASCII members of [WhiteSpace] and [LineTerminator]: TAB, LF, VT,
    FF, CR and SPACE.  They are what [trim] removes and what [\s]
    matches. *)
Definition isWhiteSpace (c : ascii) : bool :=
  let n := nat_of_ascii c in
  ((9 <=? n) && (n <=? 13))%nat || (n =? 32)%nat.

(** The character class [[\s;]] of the splitting regular expression. *)
Definition isSeparator (c : ascii) : bool :=
  isWhiteSpace c || Ascii.eqb c ";".

Definition upperChar (c : ascii) : ascii :=
  let n := nat_of_ascii c in
  if ((97 <=? n) && (n <=? 122))%nat then ascii_of_nat (n - 32) else c.

Fixpoint toUpperCase (s : string) : string :=
  match s with
  | EmptyString => EmptyString
  | String c r => String (upperChar c) (toUpperCase r)
  end.

Fixpoint trimStart (s : string) : string :=
  match s with
  | EmptyString => EmptyString
  | String c r => if isWhiteSpace c then trimStart r else s
  end.

Fixpoint trimEnd (s : string) : string :=
  match s with
  | EmptyString => EmptyString
  | String c r =>
      match trimEnd r with
      | EmptyString => if isWhiteSpace c then EmptyString
                       else String c EmptyString
      | r' => String c r'
      end
  end.

Definition trim (s : string) : string := trimEnd (trimStart s).

(** [s.split(/[\s;]/)]: every separator character ends a piece, so two
    separators in a row, or a separator at either end, give an empty
    piece; the result is never the empty array. *)
Fixpoint split (s : string) : list string :=
  match s with
  | EmptyString => [EmptyString]
  | String c r =>
      if isSeparator c then EmptyString :: split r
      else match split r with
           | [] => [String c EmptyString]
           | piece :: pieces => String c piece :: pieces
           end
  end.

(** [xs.includes(x)] on an array of strings. *)
Definition includes (xs : list string) (x : string) : bool :=
  existsb (String.eqb x) xs.

(** [xs.join(sep)]. *)
Definition join (sep : string) (xs : list string) : string :=
  String.concat sep xs.

(** Template-literal rendering of an integer number. *)
Definition ofNumber (n : Z) : string :=
  NilZero.string_of_int (Z.to_int n).

Definition newline : string := String (ascii_of_nat 10) EmptyString.

End JsString.

Import JsString.

(** ** Roles and the permission gate *)

Inductive Role := read | insert | write | admin.

Definition databaseRoles (r : Role) : list string :=
  match r with
  | read => ["SELECT"]
  | insert => ["SELECT"; "INSERT"]
  | write => ["SELECT"; "INSERT"; "UPDATE"; "DELETE"]
  | admin => ["SELECT"; "INSERT"; "UPDATE"; "DELETE";
              "TRUNCATE"; "CREATE"; "ALTER"; "DROP"]
  end.

Record Config := {
  postgresConnectionString : string;
  role : Role
}.

(** What a handler throws: an [Error] object it builds itself, or the
    error that the pool or the driver raised.  The two never coincide: an
    object made by [new Error] in a handler is not one the driver made. *)
Inductive Exn :=
| JsError (message : string)
| DriverError (detail : string).

Inductive Outcome (A : Type) :=
| Return (a : A)
| Throw (e : Exn).
Arguments Return {A} a.
Arguments Throw {A} e.

(** [sql.trim().toUpperCase().split(/[\s;]/)[0]] *)
Definition commandOf (sql : string) : string :=
  nth 0 (split (toUpperCase (trim sql))) EmptyString.

Definition readCommands : list string := ["SELECT"; "WITH"; "SHOW"; "EXPLAIN"].

(** The value of [requiredPrivilege] when [checkPermissions] reaches its
    test. *)
Definition requiredPrivilege (sql : string) : string :=
  let command := commandOf sql in
  if includes readCommands command then "SELECT"
  else if String.eqb command "RENAME" then "ALTER"
  else command.

Definition checkPermissions (sql : string) (grantedPrivileges : list string)
  : Outcome unit :=
  let command := commandOf sql in
  let requiredPrivilege := requiredPrivilege sql in
  if negb (includes grantedPrivileges requiredPrivilege) then
    Throw (JsError ("Permission denied: " ++ command ++ " requires "
                    ++ requiredPrivilege ++ " privilege. Granted privileges: "
                    ++ join ", " grantedPrivileges))
  else Return tt.

(** ** The outside world *)

(** A pooled connection, as handed out by [pool.connect()]. *)
Definition Client := nat.

(** A result row is opaque; only [JSON.stringify] looks inside. *)
Definition Row := string.

Record QueryResult := {
  rows : list Row;
  rowCount : option Z
}.

(** Every call made on the pool or on one of its clients, oldest first. *)
Inductive PoolCall :=
| PoolConnect
| ClientQuery (c : Client) (sql : string)
| ClientRelease (c : Client).

Inductive LogEntry :=
| LoggerInfo (msg : string) (sql : string)
| LoggerError (error : Exn) (sql : string)
| ConsoleWarn (msg : string) (error : Exn).

(** What the pool or a client answers: a value, or a failure whose detail
    becomes the [DriverError] that the awaiting handler sees thrown. *)
Inductive Reply (A : Type) :=
| Ok (a : A)
| Failed (detail : string).
Arguments Ok {A} a.
Arguments Failed {A} detail.

Definition await {A} (r : Reply A) : Outcome A :=
  match r with
  | Ok a => Return a
  | Failed detail => Throw (DriverError detail)
  end.

(** The collaborators.  Each answer may depend on all the calls made
    before it. *)
Record Env := {
  pool_connect : list PoolCall -> Reply Client;
  client_query : list PoolCall -> Client -> string -> Reply QueryResult;
  date_toISOString : list PoolCall -> string;
  JSON_stringify : list Row -> string
}.

(** ** Server state *)

Record Checkpoint := {
  cp_id : Z;
  cp_query : string;
  cp_timestamp : string
}.

(** The four [let]-bound variables of [createServer]. *)
Record Session := {
  sessionClient : option Client;
  checkpointMode : bool;
  checkpointHistory : list Checkpoint;
  checkpointCounter : Z
}.

Record Machine := {
  session : Session;
  calls : list PoolCall;
  logs : list LogEntry
}.

Definition initialSession : Session :=
  {| sessionClient := None; checkpointMode := false;
     checkpointHistory := []; checkpointCounter := 0 |}.

Definition initialMachine : Machine :=
  {| session := initialSession; calls := []; logs := [] |}.

(** ** The handler monad *)

Definition M (A : Type) : Type := Machine -> Outcome A * Machine.

Definition ret {A} (a : A) : M A := fun m => (Return a, m).

Definition throw {A} (e : Exn) : M A := fun m => (Throw e, m).

Definition bind {A B} (c : M A) (k : A -> M B) : M B :=
  fun m =>
    match c m with
    | (Return a, m') => k a m'
    | (Throw e, m') => (Throw e, m')
    end.

Notation "x <- c ;; k" := (bind c (fun x => k))
  (at level 61, c at next level, right associativity).
Notation "c ;; k" := (bind c (fun _ => k))
  (at level 61, right associativity).

(** [try { body } catch (e) { handler }] *)
Definition tryCatch {A} (body : M A) (handler : Exn -> M A) : M A :=
  fun m =>
    match body m with
    | (Return a, m') => (Return a, m')
    | (Throw e, m') => handler e m'
    end.

(** [try { body } finally { cleanup }]: the cleanup runs on both exits and
    the body's outcome stands unless the cleanup itself throws. *)
Definition tryFinally {A} (body : M A) (cleanup : M unit) : M A :=
  fun m =>
    match body m with
    | (r, m') =>
        match cleanup m' with
        | (Return _, m'') => (r, m'')
        | (Throw e, m'') => (Throw e, m'')
        end
    end.

Definition liftOutcome {A} (r : Outcome A) : M A := fun m => (r, m).

Definition getSession : M Session := fun m => (Return (session m), m).

Definition modifySession (f : Session -> Session) : M unit :=
  fun m => (Return tt, {| session := f (session m);
                          calls := calls m; logs := logs m |}).

Definition set_sessionClient (v : option Client) (s : Session) : Session :=
  {| sessionClient := v; checkpointMode := checkpointMode s;
     checkpointHistory := checkpointHistory s;
     checkpointCounter := checkpointCounter s |}.

Definition set_checkpointMode (v : bool) (s : Session) : Session :=
  {| sessionClient := sessionClient s; checkpointMode := v;
     checkpointHistory := checkpointHistory s;
     checkpointCounter := checkpointCounter s |}.

Definition set_checkpointHistory (v : list Checkpoint) (s : Session) : Session :=
  {| sessionClient := sessionClient s; checkpointMode := checkpointMode s;
     checkpointHistory := v;
     checkpointCounter := checkpointCounter s |}.

Definition set_checkpointCounter (v : Z) (s : Session) : Session :=
  {| sessionClient := sessionClient s; checkpointMode := checkpointMode s;
     checkpointHistory := checkpointHistory s;
     checkpointCounter := v |}.

Definition record (c : PoolCall) (m : Machine) : Machine :=
  {| session := session m; calls := calls m ++ [c]; logs := logs m |}.

Definition log (l : LogEntry) : M unit :=
  fun m => (Return tt, {| session := session m; calls := calls m;
                          logs := logs m ++ [l] |}).

(** The [action] argument of the [checkpoint] tool; its schema admits
    these five values only. *)
Inductive Action := Start | List | Rollback | Commit | Discard.

Section Server.

Variable E : Env.
Variable config : Config.

(** [await pool.connect()] *)
Definition connect : M Client :=
  fun m => (await (pool_connect E (calls m)), record PoolConnect m).

(** [await client.query(sql)] *)
Definition clientQuery (c : Client) (sql : string) : M QueryResult :=
  fun m => (await (client_query E (calls m) c sql),
            record (ClientQuery c sql) m).

(** [client.release()] *)
Definition release (c : Client) : M unit :=
  fun m => (Return tt, record (ClientRelease c) m).

(** [new Date().toISOString()] *)
Definition now : M string :=
  fun m => (Return (date_toISOString E (calls m)), m).

Definition grantedPrivileges : list string := databaseRoles (role config).

(** *** The [checkpoint] tool *)

(** [cp => `${cp.id}. ${cp.query} (${cp.timestamp})`] *)
Definition renderCheckpoint (cp : Checkpoint) : string :=
  ofNumber (cp_id cp) ++ ". " ++ cp_query cp ++ " (" ++ cp_timestamp cp ++ ")".

(** [!checkpointId]: the argument is missing or is the number 0. *)
Definition missingId (checkpointId : option Z) : bool :=
  match checkpointId with
  | None => true
  | Some k => k =? 0
  end.

Definition noActiveSession : Exn := JsError "No active checkpoint session".

Definition checkpointTool (action : Action) (checkpointId : option Z)
  : M string :=
  match action with
  | Start =>
      s <- getSession ;;
      if checkpointMode s then ret "Checkpoint mode already active"
      else
        c <- connect ;;
        modifySession (set_sessionClient (Some c)) ;;
        clientQuery c "BEGIN" ;;
        modifySession (set_checkpointMode true) ;;
        modifySession (set_checkpointHistory []) ;;
        modifySession (set_checkpointCounter 0) ;;
        ret "Checkpoint mode started. All write queries will be automatically checkpointed. Use checkpoint({ action: 'commit' }) to save or checkpoint({ action: 'discard' }) to rollback."
  | List =>
      s <- getSession ;;
      if negb (checkpointMode s) then
        ret "No active checkpoint session. Use checkpoint({ action: 'start' }) to begin."
      else if (Z.of_nat (List.length (checkpointHistory s)) =? 0) then
        ret "No checkpoints yet. Execute some write queries to create checkpoints."
      else
        let list := join newline (map renderCheckpoint (checkpointHistory s)) in
        ret ("Checkpoints:" ++ newline ++ list)
  | Rollback =>
      s <- getSession ;;
      match checkpointMode s, sessionClient s with
      | true, Some c =>
          match checkpointId with
          | Some k =>
              if missingId checkpointId then
                throw (JsError "checkpointId required for rollback action")
              else
                match find (fun cp => cp_id cp =? k) (checkpointHistory s) with
                | None =>
                    throw (JsError ("Checkpoint " ++ ofNumber k ++ " not found"))
                | Some checkpoint =>
                    clientQuery c ("ROLLBACK TO SAVEPOINT checkpoint_" ++ ofNumber k) ;;
                    modifySession (fun s' =>
                      set_checkpointHistory
                        (filter (fun cp => cp_id cp <=? k) (checkpointHistory s')) s') ;;
                    ret ("Rolled back to checkpoint " ++ ofNumber k ++ ": "
                         ++ cp_query checkpoint)
                end
          | None => throw (JsError "checkpointId required for rollback action")
          end
      | _, _ => throw noActiveSession
      end
  | Commit =>
      s <- getSession ;;
      match checkpointMode s, sessionClient s with
      | true, Some c =>
          clientQuery c "COMMIT" ;;
          release c ;;
          modifySession (set_sessionClient None) ;;
          modifySession (set_checkpointMode false) ;;
          s' <- getSession ;;
          let count := Z.of_nat (List.length (checkpointHistory s')) in
          modifySession (set_checkpointHistory []) ;;
          modifySession (set_checkpointCounter 0) ;;
          ret ("Changes committed successfully. " ++ ofNumber count
               ++ " checkpoints finalized.")
      | _, _ => throw noActiveSession
      end
  | Discard =>
      s <- getSession ;;
      match checkpointMode s, sessionClient s with
      | true, Some c =>
          clientQuery c "ROLLBACK" ;;
          release c ;;
          modifySession (set_sessionClient None) ;;
          modifySession (set_checkpointMode false) ;;
          s' <- getSession ;;
          let count := Z.of_nat (List.length (checkpointHistory s')) in
          modifySession (set_checkpointHistory []) ;;
          modifySession (set_checkpointCounter 0) ;;
          ret ("All changes discarded. " ++ ofNumber count
               ++ " checkpoints rolled back.")
      | _, _ => throw noActiveSession
      end
  end.

(** *** The [query] tool *)

Definition isReadOnly : bool :=
  match role config with
  | read => true
  | _ => false
  end.

Definition writeCommands : list string :=
  ["INSERT"; "UPDATE"; "DELETE"; "TRUNCATE"; "CREATE"; "ALTER"; "DROP";
   "RENAME"].

(** [result.rows.length > 0 ? JSON.stringify(result.rows, null, 2)
     : `${command} successful. ${result.rowCount || 0} row(s) affected.`] *)
Definition responseText (command : string) (result : QueryResult) : string :=
  if (0 <? Z.of_nat (List.length (rows result))) then JSON_stringify E (rows result)
  else command ++ " successful. "
       ++ ofNumber (match rowCount result with Some n => n | None => 0 end)
       ++ " row(s) affected.".

(** The body of [if (isWrite) { ... }] in checkpoint mode. *)
Definition createCheckpoint (c : Client) (sql : string) : M unit :=
  modifySession (fun s => set_checkpointCounter (checkpointCounter s + 1) s) ;;
  s <- getSession ;;
  let checkpointId := checkpointCounter s in
  clientQuery c ("SAVEPOINT checkpoint_" ++ ofNumber checkpointId) ;;
  stamp <- now ;;
  modifySession (fun s' =>
    set_checkpointHistory
      (checkpointHistory s' ++ [ {| cp_id := checkpointId; cp_query := sql;
                                    cp_timestamp := stamp |} ])%list s').

(** Normal mode, after [pool.connect()]: the [try]/[catch]/[finally]
    statement. *)
Definition autoCommit (client : Client) (sql command : string) : M string :=
  tryFinally
    (tryCatch
       ((if isReadOnly then clientQuery client "BEGIN TRANSACTION READ ONLY"
         else clientQuery client "BEGIN") ;;
        result <- clientQuery client sql ;;
        clientQuery client "COMMIT" ;;
        let text := responseText command result in
        log (LoggerInfo "Query completed successfully" sql) ;;
        ret text)
       (fun error =>
          tryCatch (clientQuery client "ROLLBACK" ;; ret tt)
                   (fun rollbackError =>
                      log (ConsoleWarn "Could not roll back transaction:"
                                       rollbackError)) ;;
          log (LoggerError error sql) ;;
          throw error))
    (release client).

Definition queryTool (sql : string) : M string :=
  log (LoggerInfo "Executing SQL query" sql) ;;
  liftOutcome (checkPermissions sql grantedPrivileges) ;;
  let command := commandOf sql in
  let isWrite := includes writeCommands command in
  s <- getSession ;;
  match checkpointMode s, sessionClient s with
  | true, Some c =>
      result <- clientQuery c sql ;;
      (if isWrite then createCheckpoint c sql else ret tt) ;;
      ret (responseText command result)
  | _, _ =>
      client <- connect ;;
      autoCommit client sql command
  end.

(** *** Runs of the server *)

Inductive Call :=
| CallCheckpoint (action : Action) (checkpointId : option Z)
| CallQuery (sql : string).

(** One tool invocation: the response or the error goes back to the
    caller, the machine goes on. *)
Definition invoke (call : Call) (m : Machine) : Outcome string * Machine :=
  match call with
  | CallCheckpoint action checkpointId => checkpointTool action checkpointId m
  | CallQuery sql => queryTool sql m
  end.

Fixpoint run (cs : list Call) (m : Machine) : Machine :=
  match cs with
  | [] => m
  | call :: rest => run rest (snd (invoke call m))
  end.

Definition reachable (m : Machine) : Prop :=
  exists cs, run cs initialMachine = m.

End Server.

(** The session is in checkpoint mode and holds its connection. *)
Definition Active (s : Session) : Prop :=
  checkpointMode s = true /\ exists c, sessionClient s = Some c.

Definition Idle (s : Session) : Prop := checkpointMode s = false.

(** ** Two concrete worlds, for running the handlers *)

Definition okResult : QueryResult := {| rows := []; rowCount := Some 1 |}.

(** Every connection attempt and every statement succeeds. *)
Definition calmEnv : Env :=
  {| pool_connect := fun cs => Ok (List.length cs);
     client_query := fun _ _ _ => Ok okResult;
     date_toISOString := fun _ => "2024-01-01T00:00:00.000Z";
     JSON_stringify := fun _ => "[]" |}.

(** Connections are granted, the statement [bad] is refused by the
    database, and so is every ROLLBACK when [rollbackFails] is set. *)
Definition refusingEnv (bad : string) (rollbackFails : bool) : Env :=
  {| pool_connect := fun cs => Ok (List.length cs);
     client_query := fun _ _ sql =>
       if String.eqb sql bad then Failed "statement refused"
       else if rollbackFails && String.eqb sql "ROLLBACK"
       then Failed "connection lost"
       else Ok okResult;
     date_toISOString := fun _ => "2024-01-01T00:00:00.000Z";
     JSON_stringify := fun _ => "[]" |}.

Definition adminConfig : Config :=
  {| postgresConnectionString := "postgresql://u:p@h:5432/db"; role := admin |}.

Definition insertConfig : Config :=
  {| postgresConnectionString := "postgresql://u:p@h:5432/db"; role := insert |}.

(** ** The classifier, in the specification's words

    The required privilege is the first whitespace- or semicolon-delimited
    token of the trimmed, upper-cased text, remapped through two special
    cases. *)

(** The text before the first separator (all of it when there is none). *)
Fixpoint spec_firstToken (s : string) : string :=
  match s with
  | EmptyString => EmptyString
  | String c r => if isSeparator c then EmptyString
                  else String c (spec_firstToken r)
  end.

Definition spec_remap (token : string) : string :=
  if String.eqb token "SELECT" || String.eqb token "WITH"
     || String.eqb token "SHOW" || String.eqb token "EXPLAIN" then "SELECT"
  else if String.eqb token "RENAME" then "ALTER"
  else token.

Definition spec_classify (sql : string) : string :=
  spec_remap (spec_firstToken (toUpperCase (trim sql))).

(** ** Shapes used by the statements below *)

(** The statement that ends a session: COMMIT for [commit], ROLLBACK for
    [discard]. *)
Definition closingStatement (action : Action) : string :=
  match action with
  | Commit => "COMMIT"
  | _ => "ROLLBACK"
  end.

Definition historyIds (s : Session) : list Z :=
  map cp_id (checkpointHistory s).

(** The history invariant that every run of the server keeps. *)
Definition historyInvariant (s : Session) : Prop :=
  0 <= checkpointCounter s
  /\ StronglySorted Z.lt (historyIds s)
  /\ Forall (fun i => 1 <= i <= checkpointCounter s) (historyIds s).

(** The statement that opens the per-call transaction. *)
Definition beginStatement (config : Config) : string :=
  if isReadOnly config then "BEGIN TRANSACTION READ ONLY" else "BEGIN".

(** The trace of one run of [autoCommit] on [client] that started with
    the calls [before] and ended with [out] and the machine [m']: the
    statements sent, then the release. *)
Definition autoCommitContract
  (E : Env) (config : Config) (sql : string) (client : Client)
  (before : list PoolCall) (out : Outcome string) (m' : Machine) : Prop :=
  exists stmts,
    calls m' = (before ++ map (ClientQuery client) stmts
                ++ [ClientRelease client])%list
    /\ (forall r, out = Return r ->
          stmts = [beginStatement config; sql; "COMMIT"])
    /\ (forall e, out = Throw e ->
          exists done failed detail,
            stmts = (done ++ [failed; "ROLLBACK"])%list
            /\ client_query E (before ++ map (ClientQuery client) done)%list
                 client failed = Failed detail
            /\ e = DriverError detail
            /\ In (LoggerError e sql) (logs m')
            /\ forall detail2,
                 client_query E (before ++ map (ClientQuery client)
                                                (done ++ [failed]))%list
                   client "ROLLBACK" = Failed detail2 ->
                 In (ConsoleWarn "Could not roll back transaction:"
                                 (DriverError detail2)) (logs m')).

(** The claim that C8 makes, for one action: in an Idle session the call
    throws. *)
Definition failsWhenIdle (action : Action) : Prop :=
  forall (E : Env) (checkpointId : option Z) (m : Machine),
    Idle (session m) ->
    exists e m', checkpointTool E action checkpointId m = (Throw e, m').

(** ** Machines reached in the calm world *)

(** Right after [start]. *)
Definition startedMachine : Machine :=
  run calmEnv adminConfig [CallCheckpoint Start None] initialMachine.

(** After [start] and one write. *)
Definition oneCheckpointMachine : Machine :=
  run calmEnv adminConfig
    [CallCheckpoint Start None; CallQuery "insert into t values (1)"]
    initialMachine.

(** After [start] and five writes. *)
Definition fiveCheckpointsMachine : Machine :=
  run calmEnv adminConfig
    [CallCheckpoint Start None;
     CallQuery "insert into t values (1)";
     CallQuery "insert into t values (2)";
     CallQuery "update t set a = 3";
     CallQuery "delete from t where a = 1";
     CallQuery "create table u (b int)"]
    initialMachine.

(** The machine after [start], two writes and a rollback to the first
    checkpoint, in a world where every statement succeeds. *)
Definition rolledBackMachine : Machine :=
  run calmEnv adminConfig
    [CallCheckpoint Start None;
     CallQuery "insert into t values (1)";
     CallQuery "update t set a = 2";
     CallCheckpoint Rollback (Some 1)]
    initialMachine.

(** ** Further shapes: roles, keywords, write runs *)

(** The order in which the role table is laid out. *)
Definition roleRank (r : Role) : nat :=
  match r with
  | read => 0
  | insert => 1
  | write => 2
  | admin => 3
  end.

(** Every character of [s] satisfies [p]. *)
Fixpoint everyChar (p : ascii -> bool) (s : string) : bool :=
  match s with
  | EmptyString => true
  | String c r => p c && everyChar p r
  end.

(** The gate lets [sql] through for the configured role. *)
Definition permitted (config : Config) (sql : string) : bool :=
  includes (databaseRoles (role config)) (requiredPrivilege sql).

(** The value of [isWrite] in the [query] handler. *)
Definition isWrite (sql : string) : bool :=
  includes writeCommands (commandOf sql).

Definition savepointStatement (checkpointId : Z) : string :=
  "SAVEPOINT checkpoint_" ++ ofNumber checkpointId.

(** A world in which the database accepts every statement. *)
Definition acceptsAll (E : Env) : Prop :=
  forall cs c sql, exists result, client_query E cs c sql = Ok result.

(** Every checkpoint of the history has had its savepoint created on the
    connection that the session holds. *)
Definition savepointsCreated (m : Machine) : Prop :=
  forall c cp,
    sessionClient (session m) = Some c ->
    In cp (checkpointHistory (session m)) ->
    In (ClientQuery c (savepointStatement (cp_id cp))) (calls m).

(** What a tool call can do to the session variables. *)
Definition sessionShape (m : Machine) : Prop :=
  (checkpointMode (session m) = true ->
   exists c, sessionClient (session m) = Some c)
  /\ (checkpointMode (session m) = false ->
      checkpointHistory (session m) = []
      /\ checkpointCounter (session m) = 0).

Definition readConfig : Config :=
  {| postgresConnectionString := "postgresql://u:p@h:5432/db"; role := read |}.

(** A session opened under the role [read], then a read and a refused
    write. *)
Definition readOnlyMachine : Machine :=
  run calmEnv readConfig
    [CallCheckpoint Start None; CallQuery "select 1";
     CallQuery "delete from t"]
    initialMachine.

(** The pool has no connection to give. *)
Definition exhaustedEnv : Env :=
  {| pool_connect := fun _ => Failed "pool exhausted";
     client_query := fun _ _ _ => Ok okResult;
     date_toISOString := fun _ => "2024-01-01T00:00:00.000Z";
     JSON_stringify := fun _ => "[]" |}.

(** ** The [tables] resource *)

(** A text column of a result row: SQL NULL or a string. *)
Inductive SqlText :=
| SqlNull
| SqlString (value : string).

(** [Array.prototype.join] writes [null] as the empty string. *)
Definition joinElement (v : SqlText) : string :=
  match v with
  | SqlNull => EmptyString
  | SqlString value => value
  end.

Record ResourceContents := {
  rc_uri : string;
  rc_mimeType : string;
  rc_text : string
}.

Definition tablesQuery : string :=
  "SELECT table_name FROM information_schema.tables WHERE table_schema = 'public' ORDER BY table_name".

Section Resources.

Variable E : Env.

(** [row.table_name], read off an opaque row. *)
Variable table_name : Row -> SqlText.

(** The handler of the static resource [postgres://tables]. *)
Definition tablesResource (href : string) : M ResourceContents :=
  client <- connect E ;;
  tryFinally
    (result <- clientQuery E client tablesQuery ;;
     let tableList :=
       join newline (map (fun row => joinElement (table_name row))
                         (rows result)) in
     ret {| rc_uri := href; rc_mimeType := "text/plain";
            rc_text := tableList |})
    (release client).

End Resources.

(** A world whose database lists two tables. *)
Definition catalogEnv : Env :=
  {| pool_connect := fun cs => Ok (List.length cs);
     client_query := fun _ _ _ =>
       Ok {| rows := ["checkpoints"; "users"]; rowCount := Some 2 |};
     date_toISOString := fun _ => "2024-01-01T00:00:00.000Z";
     JSON_stringify := fun _ => "[]" |}.

(** * The Slack OAuth provider

    [SlackServerAuthProvider]: the two in-memory stores of the provider
    and the methods that read and write them.  Slack's token endpoint,
    the random generator, PASETO and the form encoding of the redirect
    are external and are fields of [Slack.Env]. *)

Module Slack.

(** ** [Map<string, V>] *)

Section JsMap.

Variable V : Type.

(** Entries in insertion order. *)
Definition JsMap := list (string * V).

Fixpoint get (k : string) (m : JsMap) : option V :=
  match m with
  | [] => None
  | (k', v) :: rest => if String.eqb k k' then Some v else get k rest
  end.

(** [map.set(k, v)]: the value of an existing key is replaced where it
    stands, a new key goes last. *)
Fixpoint set (k : string) (v : V) (m : JsMap) : JsMap :=
  match m with
  | [] => [(k, v)]
  | (k', v') :: rest =>
      if String.eqb k k' then (k, v) :: rest else (k', v') :: set k v rest
  end.

Definition delete (k : string) (m : JsMap) : JsMap :=
  filter (fun entry => negb (String.eqb k (fst entry))) m.

End JsMap.

Arguments get {V} k m.
Arguments set {V} k v m.
Arguments delete {V} k m.

(** ** Data *)

Record PendingAuthCode := {
  mcpAccessToken : string;
  pendingChallenge : option string
}.

Record SessionData := {
  sessionState : option string;
  sessionChallenge : option string;
  sessionRedirectUri : string;
  sessionClientId : string;
  sessionScopes : list string
}.

(** The payload sealed into an MCP access token. *)
Record TokenPayload := {
  slackToken : string;
  payloadClientId : string;
  payloadScopes : list string
}.

Record AuthorizationParams := {
  paramState : option string;
  paramChallenge : option string;
  paramRedirectUri : string;
  paramScopes : option (list string)
}.

Record OAuthTokens := {
  access_token : string;
  token_type : string
}.

Record AuthInfo := {
  infoToken : string;
  infoClientId : string;
  infoScopes : list string;
  infoSlackToken : string
}.

(** The JSON body of Slack's answer, as far as the provider reads it. *)
Record AccessData := {
  data_ok : bool;
  data_access_token : string
}.

(** A form body: the appended fields in order. *)
Definition Form := list (string * string).

(** The Express response object handed to [authorize]. *)
Record Response := {
  req_host : option string;
  redirect : string -> Reply unit
}.

Inductive AuthError :=
| PlainError (message : string)
| ServerError (message : string)
| InvalidTokenError (message : string)
| Foreign (detail : string).

Inductive Result (A : Type) :=
| Done (a : A)
| Raised (e : AuthError).
Arguments Done {A} a.
Arguments Raised {A} e.

Record Env := {
  randomHex : nat -> string;
  oauth_access : list Form -> Form -> Reply AccessData;
  pasetoEncrypt : string -> TokenPayload -> Reply string;
  pasetoDecrypt : string -> string -> Reply TokenPayload;
  urlSearchParams : list (string * string) -> string;
  SLACK_CLIENT_ID : string;
  SLACK_CLIENT_SECRET : string;
  GLOBAL_SECRET : string
}.

(** The provider's two stores, and what it has done to the outside: the
    forms posted to Slack, the redirects asked of a response (also the
    ones that failed), the random codes drawn and the errors written to
    the console. *)
Record State := {
  pendingAuthCodes : JsMap PendingAuthCode;
  sessionStore : JsMap SessionData;
  posted : list Form;
  redirected : list string;
  draws : nat;
  consoleErrors : list string
}.

Definition initial : State :=
  {| pendingAuthCodes := []; sessionStore := []; posted := [];
     redirected := []; draws := 0; consoleErrors := [] |}.

(** [s || fallback] for an optional string. *)
Definition orElse (s : option string) (fallback : string) : string :=
  match s with
  | Some (String c r) => String c r
  | _ => fallback
  end.

Definition startsWith (s prefix : string) : bool := String.prefix prefix s.

(** [`${protocol}://${host}/oauth/callback`] *)
Definition callbackUri (host : string) : string :=
  let protocol := if startsWith host "localhost" then "http" else "https" in
  (protocol ++ "://" ++ host ++ "/oauth/callback")%string.

Definition slackScope : string :=
  "app_mentions:read,channels:read,channels:history,groups:read,groups:history,im:read,im:history,mpim:read,mpim:history,chat:write,chat:write.public,reactions:write,users:read,users.profile:read".

Section Provider.

Variable E : Env.

Definition localKey : string := GLOBAL_SECRET E.

Definition authorize (client_id : string) (params : AuthorizationParams)
  (res : Response) (s : State) : Result unit * State :=
  let drawn := match paramState params with
               | Some (String _ _) => false
               | _ => true
               end in
  let state := orElse (paramState params) (randomHex E (draws s)) in
  let draws' := if drawn then S (draws s) else draws s in
  let stored :=
    set state
        {| sessionState := Some state;
           sessionChallenge := paramChallenge params;
           sessionRedirectUri := paramRedirectUri params;
           sessionClientId := client_id;
           sessionScopes := match paramScopes params with
                            | Some scopes => scopes
                            | None => []
                            end |}
        (sessionStore s) in
  let host := orElse (req_host res) "localhost:8081" in
  let redirectUri := callbackUri host in
  let authParams :=
    urlSearchParams E [("client_id", SLACK_CLIENT_ID E);
                       ("scope", slackScope);
                       ("redirect_uri", redirectUri);
                       ("state", state)] in
  let url := ("https://slack.com/oauth/v2/authorize" ++ "?" ++ authParams)%string in
  match redirect res url with
  | Ok _ =>
      (Done tt,
       {| pendingAuthCodes := pendingAuthCodes s; sessionStore := stored;
          posted := posted s; redirected := redirected s ++ [url];
          draws := draws'; consoleErrors := consoleErrors s |})
  | Failed detail =>
      (Raised (ServerError "Failed to authorize"),
       {| pendingAuthCodes := pendingAuthCodes s;
          sessionStore := delete state stored;
          posted := posted s; redirected := redirected s ++ [url];
          draws := draws'; consoleErrors := consoleErrors s ++ [detail] |})
  end.

Definition challengeForAuthorizationCode (authorizationCode : string)
  (s : State) : Result string * State :=
  match get authorizationCode (pendingAuthCodes s) with
  | None => (Raised (PlainError "Invalid authorization code"), s)
  | Some pending =>
      (Done (match pendingChallenge pending with
             | Some challenge => challenge
             | None => EmptyString
             end), s)
  end.

Definition exchangeAuthorizationCode (authorizationCode : string)
  (s : State) : Result OAuthTokens * State :=
  match option_map mcpAccessToken
                   (get authorizationCode (pendingAuthCodes s)) with
  | Some (String c r) =>
      (Done {| access_token := String c r; token_type := "Bearer" |},
       {| pendingAuthCodes := delete authorizationCode (pendingAuthCodes s);
          sessionStore := sessionStore s; posted := posted s;
          redirected := redirected s; draws := draws s;
          consoleErrors := consoleErrors s |})
  | _ => (Raised (PlainError "Invalid authorization code"), s)
  end.

Definition verifyAccessToken (token : string) (s : State)
  : Result AuthInfo * State :=
  match pasetoDecrypt E localKey token with
  | Ok payload =>
      (Done {| infoToken := token; infoClientId := payloadClientId payload;
               infoScopes := payloadScopes payload;
               infoSlackToken := slackToken payload |}, s)
  | Failed _ => (Raised (InvalidTokenError "Invalid token"), s)
  end.

Definition exchangeRefreshToken (s : State) : Result OAuthTokens * State :=
  (Raised (ServerError "Refresh token exchange not implemented"), s).

Definition handleOAuthCallback (code state : string) (host : option string)
  (s : State) : Result (string * string) * State :=
  match get state (sessionStore s) with
  | None => (Raised (PlainError "Invalid state parameter"), s)
  | Some sessionData =>
      let redirectHost := orElse host "localhost:8081" in
      let redirectUri := callbackUri redirectHost in
      let formData := [("code", code);
                       ("client_id", SLACK_CLIENT_ID E);
                       ("client_secret", SLACK_CLIENT_SECRET E);
                       ("redirect_uri", redirectUri)] in
      let asked :=
        {| pendingAuthCodes := pendingAuthCodes s;
           sessionStore := sessionStore s;
           posted := posted s ++ [formData];
           redirected := redirected s; draws := draws s;
           consoleErrors := consoleErrors s |} in
      match oauth_access E (posted s) formData with
      | Failed detail => (Raised (Foreign detail), asked)
      | Ok data =>
          if negb (data_ok data) then
            (Raised (PlainError "Failed to exchange code"), asked)
          else
            let mcpAuthCode := randomHex E (draws s) in
            let payload :=
              {| slackToken := data_access_token data;
                 payloadClientId := sessionClientId sessionData;
                 payloadScopes := sessionScopes sessionData |} in
            match pasetoEncrypt E localKey payload with
            | Failed detail =>
                (Raised (Foreign detail),
                 {| pendingAuthCodes := pendingAuthCodes s;
                    sessionStore := sessionStore s;
                    posted := posted s ++ [formData];
                    redirected := redirected s; draws := S (draws s);
                    consoleErrors := consoleErrors s |})
            | Ok token =>
                (Done (mcpAuthCode, sessionRedirectUri sessionData),
                 {| pendingAuthCodes :=
                      set mcpAuthCode
                          {| mcpAccessToken := token;
                             pendingChallenge := sessionChallenge sessionData |}
                          (pendingAuthCodes s);
                    sessionStore := delete state (sessionStore s);
                    posted := posted s ++ [formData];
                    redirected := redirected s;
                    draws := S (draws s);
                    consoleErrors := consoleErrors s |})
            end
      end
  end.

End Provider.

End Slack.

(** ** What the provider sends and stores *)

(** [state] in [authorize]: the caller's, or a fresh code when the caller
    gave none or an empty one. *)
Definition loginState (E : Slack.Env) (params : Slack.AuthorizationParams)
  (s : Slack.State) : string :=
  Slack.orElse (Slack.paramState params) (Slack.randomHex E (Slack.draws s)).

(** The session data [authorize] stores under [state]. *)
Definition loginSession (client_id : string)
  (params : Slack.AuthorizationParams) (state : string) : Slack.SessionData :=
  {| Slack.sessionState := Some state;
     Slack.sessionChallenge := Slack.paramChallenge params;
     Slack.sessionRedirectUri := Slack.paramRedirectUri params;
     Slack.sessionClientId := client_id;
     Slack.sessionScopes := match Slack.paramScopes params with
                            | Some scopes => scopes
                            | None => []
                            end |}.

(** [`${slackAuthUrl}?${authParams}`] in [authorize], for a request that
    came to [host]. *)
Definition authorizeUrl (E : Slack.Env) (state : string)
  (host : option string) : string :=
  ("https://slack.com/oauth/v2/authorize" ++ "?"
   ++ Slack.urlSearchParams E
        [("client_id", Slack.SLACK_CLIENT_ID E);
         ("scope", Slack.slackScope);
         ("redirect_uri",
          Slack.callbackUri (Slack.orElse host "localhost:8081"));
         ("state", state)])%string.

(** [formData] in [handleOAuthCallback]. *)
Definition callbackForm (E : Slack.Env) (code : string)
  (host : option string) : Slack.Form :=
  [("code", code);
   ("client_id", Slack.SLACK_CLIENT_ID E);
   ("client_secret", Slack.SLACK_CLIENT_SECRET E);
   ("redirect_uri", Slack.callbackUri (Slack.orElse host "localhost:8081"))].

(** [payload] in [handleOAuthCallback]. *)
Definition callbackPayload (data : Slack.AccessData)
  (sessionData : Slack.SessionData) : Slack.TokenPayload :=
  {| Slack.slackToken := Slack.data_access_token data;
     Slack.payloadClientId := Slack.sessionClientId sessionData;
     Slack.payloadScopes := Slack.sessionScopes sessionData |}.

(** The provider after one more form was posted to Slack. *)
Definition afterPost (form : Slack.Form) (s : Slack.State) : Slack.State :=
  {| Slack.pendingAuthCodes := Slack.pendingAuthCodes s;
     Slack.sessionStore := Slack.sessionStore s;
     Slack.posted := (Slack.posted s ++ [form])%list;
     Slack.redirected := Slack.redirected s;
     Slack.draws := Slack.draws s;
     Slack.consoleErrors := Slack.consoleErrors s |}.

(** ** A small world for the provider *)

Fixpoint dropChars (n : nat) (s : string) : string :=
  match n, s with
  | S n', String _ r => dropChars n' r
  | _, _ => s
  end.

Fixpoint beginsWith (prefix s : string) : bool :=
  match prefix, s with
  | EmptyString, _ => true
  | String a prefix', String b s' => Ascii.eqb a b && beginsWith prefix' s'
  | String _ _, EmptyString => false
  end.

(** Slack grants every code; sealing writes the Slack token after a fixed
    prefix, and a token with that prefix opens as a payload of the client
    [client-a]. *)
Definition toyEnv : Slack.Env :=
  {| Slack.randomHex := fun n => "r" ++ ofNumber (Z.of_nat n);
     Slack.oauth_access := fun _ _ =>
       Ok {| Slack.data_ok := true; Slack.data_access_token := "xoxb-1" |};
     Slack.pasetoEncrypt := fun _ payload =>
       Ok ("v4.local." ++ Slack.slackToken payload);
     Slack.pasetoDecrypt := fun _ token =>
       if beginsWith "v4.local." token
       then Ok {| Slack.slackToken := dropChars 9 token;
                  Slack.payloadClientId := "client-a";
                  Slack.payloadScopes := ["chat:write"] |}
       else Failed "bad token";
     Slack.urlSearchParams := fun fields =>
       join "&" (map (fun field => fst field ++ "=" ++ snd field) fields);
     Slack.SLACK_CLIENT_ID := "cid";
     Slack.SLACK_CLIENT_SECRET := "secret";
     Slack.GLOBAL_SECRET := "k4.local.key" |}.

(** The same world, except that Slack refuses every code. *)
Definition refusedBySlackEnv : Slack.Env :=
  {| Slack.randomHex := Slack.randomHex toyEnv;
     Slack.oauth_access := fun _ _ =>
       Ok {| Slack.data_ok := false; Slack.data_access_token := "" |};
     Slack.pasetoEncrypt := Slack.pasetoEncrypt toyEnv;
     Slack.pasetoDecrypt := Slack.pasetoDecrypt toyEnv;
     Slack.urlSearchParams := Slack.urlSearchParams toyEnv;
     Slack.SLACK_CLIENT_ID := "cid";
     Slack.SLACK_CLIENT_SECRET := "secret";
     Slack.GLOBAL_SECRET := "k4.local.key" |}.

Definition toyResponse : Slack.Response :=
  {| Slack.req_host := Some "mcp.example.com";
     Slack.redirect := fun _ => Ok tt |}.

Definition brokenResponse : Slack.Response :=
  {| Slack.req_host := Some "mcp.example.com";
     Slack.redirect := fun _ => Failed "headers already sent" |}.

Definition toyParams : Slack.AuthorizationParams :=
  {| Slack.paramState := None; Slack.paramChallenge := Some "challenge-1";
     Slack.paramRedirectUri := "https://app.example.com/cb";
     Slack.paramScopes := Some ["chat:write"] |}.

(** After [authorize]: one login session, under the state [r0]. *)
Definition authorizedState : Slack.State :=
  snd (Slack.authorize toyEnv "client-a" toyParams toyResponse Slack.initial).

(** After the callback of that session: one authorization code, [r1]. *)
Definition calledBackState : Slack.State :=
  snd (Slack.handleOAuthCallback toyEnv "slack-code" "r0"
         (Some "mcp.example.com") authorizedState).

(** * The filesystem server: paths and root directories

    [path-utils] ([normalizePath], [expandHome]), [getValidRootDirectories]
    and [validatePath].  The platform ([path.sep], [os.homedir()],
    [path.join], [path.resolve]) and the file system ([fs.realpath],
    [fs.stat]) are the fields of [Fs.Env]; the file system is taken as it
    is at the time of the call. *)

Module Fs.

(** [s.split(sep)] for a one-character separator: never empty. *)
Fixpoint splitOn (sep : ascii) (s : string) : list string :=
  match s with
  | EmptyString => [EmptyString]
  | String c r =>
      if Ascii.eqb c sep then EmptyString :: splitOn sep r
      else match splitOn sep r with
           | [] => [String c EmptyString]
           | piece :: pieces => String c piece :: pieces
           end
  end.

(** [s.slice(n)] for [n >= 0]. *)
Fixpoint sliceFrom (n : nat) (s : string) : string :=
  match n, s with
  | S n', String _ r => sliceFrom n' r
  | _, _ => s
  end.

(** [s.startsWith(prefix)] *)
Fixpoint startsWith (s prefix : string) : bool :=
  match prefix, s with
  | EmptyString, _ => true
  | String a prefix', String b s' => Ascii.eqb a b && startsWith s' prefix'
  | String _ _, EmptyString => false
  end.

(** Every [from] character becomes [to]. *)
Fixpoint replaceChar (from to : ascii) (s : string) : string :=
  match s with
  | EmptyString => EmptyString
  | String c r =>
      String (if Ascii.eqb c from then to else c) (replaceChar from to r)
  end.

Record Env := {
  sep : ascii;
  homedir : string;
  path_join : string -> string -> string;
  path_resolve : string -> string;
  realpath : string -> Reply string;
  stat_isDirectory : string -> Reply bool
}.

Section Paths.

Variable E : Env.

(** [filepath.split(path.sep).join('/')] *)
Definition normalizePath (filepath : string) : string :=
  join "/" (splitOn (sep E) filepath).

Definition expandHome (filepath : string) : string :=
  if startsWith filepath "~/" || String.eqb filepath "~"
  then path_join E (homedir E) (sliceFrom 1 filepath)
  else filepath.

(** The body of the loop of [getValidRootDirectories] for one root:
    the directory to keep, nothing, or the error that is logged. *)
Inductive RootCheck :=
| Keep (dir : string)
| Skip
| Logged (uri : string) (detail : string).

Definition checkRoot (uri : string) : RootCheck :=
  let dirPath := if startsWith uri "file://" then sliceFrom 7 uri else uri in
  let expanded := expandHome dirPath in
  let absolute := path_resolve E expanded in
  match realpath E absolute with
  | Failed detail => Logged uri detail
  | Ok resolved =>
      let normalized := normalizePath resolved in
      match stat_isDirectory E normalized with
      | Failed detail => Logged uri detail
      | Ok true => Keep normalized
      | Ok false => Skip
      end
  end.

(** The validated directories and the lines written to the console. *)
Fixpoint getValidRootDirectories (requestedRoots : list string)
  : list string * list (string * string) :=
  match requestedRoots with
  | [] => ([], [])
  | uri :: rest =>
      let (validatedDirs, errors) := getValidRootDirectories rest in
      match checkRoot uri with
      | Keep dir => (dir :: validatedDirs, errors)
      | Skip => (validatedDirs, errors)
      | Logged u detail => (validatedDirs, (u, detail) :: errors)
      end
  end.

(** The test of [validatePath] and of [searchFilesWithValidation] for one
    allowed directory. *)
Definition within (normalized allowedDir : string) : bool :=
  let normalizedAllowed := normalizePath allowedDir in
  String.eqb normalized normalizedAllowed
  || startsWith normalized (normalizedAllowed ++ "/").

Definition validatePath (allowedDirectories : list string)
  (requestedPath : string) : Outcome string :=
  let absolute := path_resolve E requestedPath in
  let realPath := match realpath E absolute with
                  | Ok real => real
                  | Failed _ => absolute
                  end in
  let normalized := normalizePath realPath in
  let isAllowed := existsb (within normalized) allowedDirectories in
  if negb isAllowed then
    Throw (JsError ("Access denied: " ++ requestedPath
                    ++ " is outside allowed directories"))
  else Return realPath.

(** The filter of [searchFilesWithValidation], applied to what [glob]
    found. *)
Definition filterSearchResults (allowedDirs results : list string)
  : list string :=
  filter (fun result => existsb (within (normalizePath result)) allowedDirs)
         results.

End Paths.

End Fs.

(** [absolute] in [getValidRootDirectories]: the requested root without a
    leading [file://], with the home directory expanded, resolved. *)
Definition rootTarget (E : Fs.Env) (uri : string) : string :=
  Fs.path_resolve E
    (Fs.expandHome E (if Fs.startsWith uri "file://"
                      then Fs.sliceFrom 7 uri else uri)).

(** A POSIX machine on which [/srv/data] is a directory,
    [/srv/data/link] is a link to [/etc] and [/srv/notes.txt] is a file. *)
Definition posixEnv : Fs.Env :=
  {| Fs.sep := "/"%char;
     Fs.homedir := "/home/u";
     Fs.path_join := fun a b => a ++ b;
     Fs.path_resolve := fun p => p;
     Fs.realpath := fun p =>
       if String.eqb p "/srv/data" then Ok "/srv/data"
       else if String.eqb p "/srv/data/link" then Ok "/etc"
       else if String.eqb p "/srv/notes.txt" then Ok "/srv/notes.txt"
       else Failed "ENOENT";
     Fs.stat_isDirectory := fun p =>
       if String.eqb p "/srv/data" then Ok true
       else if String.eqb p "/etc" then Ok true
       else if String.eqb p "/srv/notes.txt" then Ok false
       else Failed "ENOENT" |}.

(** A Windows machine, as far as the separator goes. *)
Definition windowsEnv : Fs.Env :=
  {| Fs.sep := "092"%char;
     Fs.homedir := "C:\Users\u";
     Fs.path_join := fun a b => a ++ b;
     Fs.path_resolve := fun p => p;
     Fs.realpath := fun p => Ok p;
     Fs.stat_isDirectory := fun _ => Ok true |}.

(** * The filesystem server: reading the end and the start of a file *)

Module Lines.

Definition lineFeed : ascii := "010"%char.

(** [xs.slice(start)] for an integer [start]: a negative start counts
    from the end. *)
Definition sliceArray {A} (start : Z) (xs : list A) : list A :=
  let len := Z.of_nat (List.length xs) in
  let k := if start <? 0 then Z.max (len + start) 0 else Z.min start len in
  skipn (Z.to_nat k) xs.

(** [tailFile], once the content has been read:
    [content.split('\n').slice(-lines).join('\n')]. *)
Definition tailFile (content : string) (lines : Z) : string :=
  let allLines := Fs.splitOn lineFeed content in
  let lastLines := sliceArray (- lines) allLines in
  join newline lastLines.

(** ** [headFile]: the first lines, read from a stream of chunks *)

(** The variables of the promise body. *)
Record HeadState := {
  buffer : string;
  lineCount : Z;
  result : list string;
  resolved : option string
}.

Definition headStart : HeadState :=
  {| buffer := EmptyString; lineCount := 0; result := []; resolved := None |}.

(** The [for (const line of lines)] loop of the [data] handler: it stops
    and resolves at the first line met once [maxLines] lines are in. *)
Fixpoint pushLines (maxLines : Z) (lines : list string)
  (lineCount : Z) (result : list string) : Z * list string * option string :=
  match lines with
  | [] => (lineCount, result, None)
  | line :: rest =>
      if maxLines <=? lineCount then
        (lineCount, result, Some (join newline result))
      else pushLines maxLines rest (lineCount + 1) (result ++ [line])
  end.

(** One [data] event.  Once the promise is resolved the stream has been
    destroyed and delivers nothing more. *)
Definition onData (maxLines : Z) (chunk : string) (st : HeadState)
  : HeadState :=
  match resolved st with
  | Some _ => st
  | None =>
      let buffer1 := buffer st ++ chunk in
      let lines := Fs.splitOn lineFeed buffer1 in
      let popped := last lines EmptyString in
      match pushLines maxLines (removelast lines) (lineCount st) (result st)
      with
      | (count, pushed, outcome) =>
          {| buffer := popped; lineCount := count; result := pushed;
             resolved := outcome |}
      end
  end.

(** The [end] event. *)
Definition onEnd (maxLines : Z) (st : HeadState) : string :=
  match resolved st with
  | Some value => value
  | None =>
      let nonEmpty := match buffer st with
                      | EmptyString => false
                      | String _ _ => true
                      end in
      if nonEmpty && (lineCount st <? maxLines)
      then join newline (result st ++ [buffer st])
      else join newline (result st)
  end.

(** How the stream finishes. *)
Inductive Ending :=
| Ended
| Errored (detail : string).

(** [headFile] on a stream that delivers [chunks] and then finishes. *)
Definition headFile (chunks : list string) (ending : Ending) (maxLines : Z)
  : Outcome string :=
  let st := fold_left (fun st chunk => onData maxLines chunk st)
                      chunks headStart in
  match ending with
  | Ended => Return (onEnd maxLines st)
  | Errored detail =>
      match resolved st with
      | Some value => Return value
      | None => Throw (DriverError detail)
      end
  end.

(** The lines of a text: the pieces between line feeds, without the empty
    piece that follows a final line feed. *)
Definition wholeLines (content : string) : list string :=
  let pieces := Fs.splitOn lineFeed content in
  match last pieces EmptyString with
  | EmptyString => removelast pieces
  | String _ _ => pieces
  end.

(** What the state of [headFile] knows about the text read so far. *)
Definition headInvariant (maxLines : Z) (sofar : string) (st : HeadState)
  : Prop :=
  match resolved st with
  | None =>
      Fs.splitOn lineFeed sofar = (result st ++ [buffer st])%list
      /\ lineCount st = Z.of_nat (List.length (result st))
      /\ (List.length (result st) <= Z.to_nat maxLines)%nat
  | Some value =>
      exists kept more,
        removelast (Fs.splitOn lineFeed sofar) = (kept ++ more)%list
        /\ more <> []
        /\ List.length kept = Z.to_nat maxLines
        /\ value = join newline kept
  end.

End Lines.

(** * The filesystem server: editing a file

    [applyFileEdits] with [readFileContent] and [writeFileContent].  The
    file system answers through [Edits.Env]; what the function asked it to
    change is kept in a log. *)

Module Edits.

(** [s.substring(0, n)] *)
Fixpoint substring0 (n : nat) (s : string) : string :=
  match n, s with
  | S n', String c r => String c (substring0 n' r)
  | _, _ => EmptyString
  end.

(** Where [needle] first occurs in [hay]: the text before it and the text
    after it. *)
Fixpoint findFirst (needle hay : string) : option (string * string) :=
  if Fs.startsWith hay needle then
    Some (EmptyString, Fs.sliceFrom (String.length needle) hay)
  else
    match hay with
    | EmptyString => None
    | String c r =>
        match findFirst needle r with
        | Some (before, after) => Some (String c before, after)
        | None => None
        end
    end.

(** [hay.includes(needle)] *)
Definition includesText (hay needle : string) : bool :=
  match findFirst needle hay with
  | Some _ => true
  | None => false
  end.

(** The replacement text of [String.prototype.replace] for a string
    pattern: [$$] is a dollar sign, [$&] the matched text, [$`] the text
    before the match, [$'] the text after it; there are no captures, so
    every other dollar sign stands for itself. *)
Fixpoint substitution (template matched before after : string) : string :=
  match template with
  | EmptyString => EmptyString
  | String c rest =>
      if Ascii.eqb c "$" then
        match rest with
        | String d rest' =>
            if Ascii.eqb d "$" then
              String "$" (substitution rest' matched before after)
            else if Ascii.eqb d "&" then
              matched ++ substitution rest' matched before after
            else if Ascii.eqb d "`" then
              before ++ substitution rest' matched before after
            else if Ascii.eqb d "'" then
              after ++ substitution rest' matched before after
            else String c (substitution rest matched before after)
        | EmptyString => String c (substitution rest matched before after)
        end
      else String c (substitution rest matched before after)
  end.

(** [hay.replace(needle, template)]: the first occurrence only. *)
Definition replaceText (hay needle template : string) : string :=
  match findFirst needle hay with
  | Some (before, after) =>
      before ++ substitution template needle before after ++ after
  | None => hay
  end.

Record Edit := {
  oldText : string;
  newText : string
}.

Inductive FsOp :=
| Mkdir (dir : string)
| WriteFile (path : string) (content : string).

Record Env := {
  readFile : string -> Reply string;
  mkdir : list FsOp -> string -> Reply unit;
  writeFile : list FsOp -> string -> string -> Reply unit;
  dirname : string -> string
}.

(** The [for] loop: the edited content and the change notes, or the error
    of the first edit whose text is not there. *)
Fixpoint applyEdits (modifiedContent : string) (changes : list string)
  (edits : list Edit) : Outcome (string * list string) :=
  match edits with
  | [] => Return (modifiedContent, changes)
  | edit :: rest =>
      if negb (includesText modifiedContent (oldText edit)) then
        Throw (JsError ("Text not found in file: "
                        ++ substring0 50 (oldText edit) ++ "..."))
      else
        let before := modifiedContent in
        let modifiedContent' :=
          replaceText modifiedContent (oldText edit) (newText edit) in
        let changes' :=
          if negb (String.eqb before modifiedContent') then
            (changes ++ [("- " ++ substring0 50 (oldText edit) ++ "..."
                          ++ newline ++ "+ "
                          ++ substring0 50 (newText edit) ++ "...")%string])%list
          else changes in
        applyEdits modifiedContent' changes' rest
  end.

Section WithEnv.

Variable E : Env.

(** [writeFileContent]: make the parent directory, then write. *)
Definition writeFileContent (filePath content : string) (log : list FsOp)
  : Outcome unit * list FsOp :=
  let dir := dirname E filePath in
  match mkdir E log dir with
  | Failed detail => (Throw (DriverError detail), (log ++ [Mkdir dir])%list)
  | Ok _ =>
      let log1 := (log ++ [Mkdir dir])%list in
      (await (writeFile E log1 filePath content),
       (log1 ++ [WriteFile filePath content])%list)
  end.

Definition applyFileEdits (filePath : string) (edits : list Edit)
  (dryRun : bool) (log : list FsOp) : Outcome string * list FsOp :=
  match readFile E filePath with
  | Failed detail => (Throw (DriverError detail), log)
  | Ok content =>
      match applyEdits content [] edits with
      | Throw e => (Throw e, log)
      | Return (modifiedContent, changes) =>
          if negb dryRun then
            match writeFileContent filePath modifiedContent log with
            | (Throw e, log') => (Throw e, log')
            | (Return _, log') =>
                (Return ("Successfully applied "
                         ++ ofNumber (Z.of_nat (List.length edits))
                         ++ " edit(s) to " ++ filePath ++ newline ++ newline
                         ++ "Changes:" ++ newline
                         ++ join (newline ++ newline) changes), log')
            end
          else
            (Return ("Dry run - changes that would be applied:"
                     ++ newline ++ newline
                     ++ join (newline ++ newline) changes), log)
      end
  end.

End WithEnv.

End Edits.

(** A file system with one file, [/srv/data/a.txt]. *)
Definition oneFileEnv : Edits.Env :=
  {| Edits.readFile := fun path =>
       if String.eqb path "/srv/data/a.txt" then Ok "let x = 1; let y = 1;"
       else Failed "ENOENT";
     Edits.mkdir := fun _ _ => Ok tt;
     Edits.writeFile := fun _ _ _ => Ok tt;
     Edits.dirname := fun _ => "/srv/data" |}.

(** * The filesystem server: file sizes

    [formatSize].  A size in bytes is a non-negative integer below 2^53;
    on such a number each [size /= 1024] is exact in double precision, so
    the variable [size] is the rational number [bytes / 1024^unitIndex],
    and [toFixed(2)] rounds that exact value to the nearest hundredth, the
    larger one on a tie. *)

Module Size.

Definition units : list string := ["B"; "KB"; "MB"; "GB"; "TB"].

(** The [while] loop.  Every round raises [unitIndex], which stays below
    [units.length - 1], so that many rounds are all there can be. *)
Fixpoint scale (rounds : nat) (size : Q) (unitIndex : nat) : Q * nat :=
  match rounds with
  | O => (size, unitIndex)
  | S rounds' =>
      if Qle_bool 1024 size && (unitIndex <? List.length units - 1)%nat
      then scale rounds' (size / 1024) (S unitIndex)
      else (size, unitIndex)
  end.

(** The integer nearest to [100 x], the larger one on a tie. *)
Definition hundredths (x : Q) : Z := Qfloor (x * 100 + (1 # 2)).

(** A number of hundredths written with two decimals. *)
Definition showHundredths (n : Z) : string :=
  let cents := n mod 100 in
  ofNumber (n / 100) ++ "."
  ++ (if cents <? 10 then "0" ++ ofNumber cents else ofNumber cents).

(** [x.toFixed(2)] for [x >= 0]. *)
Definition toFixed2 (x : Q) : string := showHundredths (hundredths x).

Definition formatSize (bytes : Z) : string :=
  let (size, unitIndex) :=
    scale (List.length units - 1) (inject_Z bytes) 0 in
  toFixed2 size ++ " " ++ nth unitIndex units "undefined".

End Size.

(** * Properties *)

(** ** The classifier and the gate *)

Example commandOf_select :
  commandOf "  select * from t; drop table t" = "SELECT".
Proof. reflexivity. Qed.

Example commandOf_leading_semicolon : commandOf ";delete from t" = "".
Proof. reflexivity. Qed.

Example requiredPrivilege_rename :
  requiredPrivilege "rename table a to b" = "ALTER".
Proof. reflexivity. Qed.

Example requiredPrivilege_unmapped :
  requiredPrivilege "vacuum full" = "VACUUM".
Proof. reflexivity. Qed.

Lemma split_head (s : string) :
  nth 0 (split s) EmptyString = spec_firstToken s.
Proof.
  induction s as [|c r IH]; simpl; [reflexivity|].
  destruct (isSeparator c); [reflexivity|].
  destruct (split r) as [|piece pieces]; simpl in *; now rewrite <- IH.
Qed.

Lemma includes_readCommands (token : string) :
  includes readCommands token
  = (String.eqb token "SELECT" || String.eqb token "WITH"
     || String.eqb token "SHOW" || String.eqb token "EXPLAIN").
Proof.
  unfold includes, readCommands; cbn [existsb].
  now rewrite orb_false_r, !orb_assoc.
Qed.

(** C2. For every SQL text the required privilege computed by
    [checkPermissions] is the first whitespace- or semicolon-delimited
    token of the trimmed, upper-cased text, with SELECT, WITH, SHOW and
    EXPLAIN remapped to SELECT and RENAME to ALTER, and every other token
    standing for itself.  The classifier is a total function of the text
    alone, so it is deterministic and has no error case. *)
Theorem requiredPrivilege_is_spec_classify (sql : string) :
  requiredPrivilege sql = spec_classify sql
  /\ (spec_classify sql = "SELECT" \/ spec_classify sql = "ALTER"
      \/ spec_classify sql = spec_firstToken (toUpperCase (trim sql))).
Proof.
  unfold requiredPrivilege, spec_classify, commandOf.
  rewrite split_head, includes_readCommands.
  unfold spec_remap.
  split; [reflexivity|].
  destruct (_ || _); [now left|].
  destruct (String.eqb _ "RENAME"); [right; now left | right; now right].
Qed.

(** How a handler's steps compute: the monad unfolded. *)
Ltac step_monad :=
  unfold bind, ret, throw, tryCatch, tryFinally, liftOutcome, getSession,
    modifySession, log, connect, clientQuery, release, now, record in *;
  cbn beta in *;
  cbn [fst snd session calls logs sessionClient checkpointMode
       checkpointHistory checkpointCounter set_sessionClient
       set_checkpointMode set_checkpointHistory set_checkpointCounter] in *.

(** C1. For every role and every SQL text whose required privilege is not
    among the role's granted privileges, the [query] tool throws the
    permission-denied error, whatever the session state; the call log is
    left as it was, so no connection was requested and no statement was
    sent, and the session variables are untouched. *)
Theorem query_denied_never_contacts_database
  (E : Env) (config : Config) (sql : string) (m : Machine) :
  includes (databaseRoles (role config)) (requiredPrivilege sql) = false ->
  queryTool E config sql m
  = (Throw (JsError ("Permission denied: " ++ commandOf sql ++ " requires "
                     ++ requiredPrivilege sql
                     ++ " privilege. Granted privileges: "
                     ++ join ", " (databaseRoles (role config)))),
     {| session := session m; calls := calls m;
        logs := logs m ++ [LoggerInfo "Executing SQL query" sql] |}).
Proof.
  intros Hdenied.
  unfold queryTool, checkPermissions, grantedPrivileges.
  rewrite Hdenied.
  reflexivity.
Qed.

Lemma query_denied_never_contacts_database_witness :
  includes (databaseRoles (role insertConfig))
           (requiredPrivilege "DELETE FROM t") = false
  /\ queryTool calmEnv insertConfig "DELETE FROM t" initialMachine
     = (Throw (JsError "Permission denied: DELETE requires DELETE privilege. Granted privileges: SELECT, INSERT"),
        {| session := initialSession; calls := [];
           logs := [LoggerInfo "Executing SQL query" "DELETE FROM t"] |}).
Proof.
  split; [reflexivity|].
  apply (query_denied_never_contacts_database
           calmEnv insertConfig "DELETE FROM t" initialMachine).
  reflexivity.
Defined.

(** ** The checkpoint session *)

Lemma start_when_active (E : Env) (checkpointId : option Z) (m : Machine) :
  checkpointMode (session m) = true ->
  checkpointTool E Start checkpointId m
  = (Return "Checkpoint mode already active", m).
Proof.
  intros Hmode. unfold checkpointTool. step_monad.
  now rewrite Hmode.
Qed.

Lemma start_success_activates
  (E : Env) (checkpointId : option Z) (m m' : Machine) (r : string) :
  checkpointTool E Start checkpointId m = (Return r, m') ->
  checkpointMode (session m') = true.
Proof.
  unfold checkpointTool. step_monad.
  destruct (checkpointMode (session m)) eqn:Hmode.
  - intros [= _ <-]. exact Hmode.
  - destruct (pool_connect E (calls m)) as [c|e]; cbn [await];
      [|discriminate].
    destruct (client_query E _ c "BEGIN") as [res|e]; cbn [await];
      [|discriminate].
    now intros [= _ <-].
Qed.

(** C6. [start] in a session that is already in checkpoint mode (so in
    every Active session) returns the informational response and leaves
    the whole machine as it was: no connection is requested, no BEGIN is
    sent, and the counter and the history keep their values.  Hence a
    [start] that follows a successful [start] changes nothing. *)
Theorem start_is_idempotent
  (E : Env) (id1 id2 : option Z) (m : Machine) :
  (checkpointMode (session m) = true ->
   checkpointTool E Start id1 m
   = (Return "Checkpoint mode already active", m))
  /\ (forall r m1,
        checkpointTool E Start id1 m = (Return r, m1) ->
        checkpointTool E Start id2 m1
        = (Return "Checkpoint mode already active", m1)).
Proof.
  split.
  - apply start_when_active.
  - intros r m1 Hfirst. apply start_when_active.
    exact (start_success_activates E id1 m m1 r Hfirst).
Qed.

Lemma find_absent (k : Z) (h : list Checkpoint) :
  ~ In k (map cp_id h) -> find (fun cp => cp_id cp =? k) h = None.
Proof.
  induction h as [|cp h IH]; cbn [map find In]; intros Habsent;
    [reflexivity|].
  destruct (Z.eqb_spec (cp_id cp) k) as [Heq|_]; [tauto|].
  apply IH. tauto.
Qed.

(** C9. In an Active session a rollback whose [checkpointId] is absent or
    is 0 throws "checkpointId required for rollback action" and leaves the
    machine as it was.  A rollback whose id is present, is not 0 and is the
    id of no entry of the history throws the checkpoint-not-found error and
    leaves the machine as it was; and whenever a rollback throws a
    checkpoint-not-found error, its id was of that kind. *)
Theorem rollback_missing_id
  (E : Env) (checkpointId : option Z) (m : Machine) :
  Active (session m) ->
  (checkpointId = None \/ checkpointId = Some 0 ->
   checkpointTool E Rollback checkpointId m
   = (Throw (JsError "checkpointId required for rollback action"), m))
  /\ (forall k,
        checkpointId = Some k -> k <> 0 ->
        ~ In k (historyIds (session m)) ->
        checkpointTool E Rollback checkpointId m
        = (Throw (JsError ("Checkpoint " ++ ofNumber k ++ " not found")), m))
  /\ (forall k m',
        checkpointTool E Rollback checkpointId m
        = (Throw (JsError ("Checkpoint " ++ ofNumber k ++ " not found")), m') ->
        exists k0, checkpointId = Some k0 /\ k0 <> 0
                   /\ ~ In k0 (historyIds (session m)) /\ m' = m).
Proof.
  intros [Hmode [c Hc]]. unfold checkpointTool. step_monad.
  rewrite Hmode, Hc. split; [|split].
  - intros [-> | ->]; reflexivity.
  - intros k -> Hnz Habsent. unfold missingId.
    destruct (Z.eqb_spec k 0) as [|_]; [contradiction|].
    now rewrite (find_absent k _ Habsent).
  - intros k m'. destruct checkpointId as [k0|]; [|discriminate].
    unfold missingId. destruct (Z.eqb_spec k0 0) as [->|Hnz]; [discriminate|].
    destruct (find _ _) as [cp|] eqn:Hfind.
    + destruct (client_query E _ c _); cbn [await]; discriminate.
    + intros [= _ <-]. exists k0. repeat split; trivial.
      unfold historyIds. rewrite in_map_iff. intros [cp [Hid Hin]].
      apply (find_none _ _ Hfind) in Hin. rewrite Hid, Z.eqb_refl in Hin.
      discriminate.
Qed.

Lemma rollback_missing_id_witness :
  Active (session oneCheckpointMachine)
  /\ checkpointTool calmEnv Rollback (Some 0) oneCheckpointMachine
     = (Throw (JsError "checkpointId required for rollback action"),
        oneCheckpointMachine).
Proof.
  assert (Hactive : Active (session oneCheckpointMachine)).
  { split; [reflexivity | exists 0%nat; reflexivity]. }
  split; [exact Hactive|].
  apply (proj1 (rollback_missing_id calmEnv (Some 0) _ Hactive)).
  right; reflexivity.
Defined.

(** C10. When the COMMIT of [commit] or the ROLLBACK of [discard] is
    refused by the database, the handler throws that very error and the
    only thing that happened is the refused statement: the connection is
    not released and the session keeps its mode, its connection, its
    history and its counter. *)
Theorem close_failure_keeps_session
  (E : Env) (action : Action) (checkpointId : option Z) (m : Machine)
  (c : Client) (detail : string) :
  action = Commit \/ action = Discard ->
  checkpointMode (session m) = true ->
  sessionClient (session m) = Some c ->
  client_query E (calls m) c (closingStatement action) = Failed detail ->
  checkpointTool E action checkpointId m
  = (Throw (DriverError detail), {| session := session m;
                 calls := calls m ++ [ClientQuery c (closingStatement action)];
                 logs := logs m |}).
Proof.
  intros [-> | ->] Hmode Hc Hfail; unfold checkpointTool; step_monad;
    rewrite Hmode, Hc; cbn [closingStatement] in Hfail; now rewrite Hfail.
Qed.

Lemma close_failure_keeps_session_witness :
  checkpointTool (refusingEnv "COMMIT" false) Commit None oneCheckpointMachine
  = (Throw (DriverError "statement refused"),
     {| session := session oneCheckpointMachine;
        calls := calls oneCheckpointMachine ++ [ClientQuery 0%nat "COMMIT"];
        logs := logs oneCheckpointMachine |})
  /\ Active (session oneCheckpointMachine)
  /\ historyIds (session oneCheckpointMachine) = [1].
Proof.
  split.
  - apply (close_failure_keeps_session (refusingEnv "COMMIT" false) Commit
             None oneCheckpointMachine 0%nat "statement refused");
      [left; reflexivity | reflexivity | reflexivity | reflexivity].
  - split; [split; [reflexivity | exists 0%nat; reflexivity] | reflexivity].
Defined.

Lemma start_is_idempotent_witness :
  historyIds (session oneCheckpointMachine) = [1]
  /\ checkpointTool calmEnv Start None oneCheckpointMachine
     = (Return "Checkpoint mode already active", oneCheckpointMachine).
Proof.
  split; [reflexivity|].
  apply (proj1 (start_is_idempotent calmEnv None None oneCheckpointMachine)).
  reflexivity.
Defined.

(** C5. A [commit] or a [discard] that returns from an Active session
    leaves the session Idle with an empty history, a zero counter and no
    connection; the session's connection was released right after the
    closing statement; and a [list] that follows reports that no session
    is active. *)
Theorem close_success_is_terminal
  (E : Env) (action : Action) (checkpointId : option Z)
  (m m' : Machine) (r : string) :
  action = Commit \/ action = Discard ->
  Active (session m) ->
  checkpointTool E action checkpointId m = (Return r, m') ->
  session m' = initialSession
  /\ Idle (session m')
  /\ (exists c, sessionClient (session m) = Some c
                /\ calls m' = (calls m ++ [ClientQuery c (closingStatement action);
                                           ClientRelease c])%list)
  /\ forall id', checkpointTool E List id' m'
                 = (Return "No active checkpoint session. Use checkpoint({ action: 'start' }) to begin.", m').
Proof.
  intros Haction [Hmode [c Hc]].
  assert (Hshape :
    checkpointTool E action checkpointId m = (Return r, m') ->
    session m' = initialSession
    /\ calls m' = (calls m ++ [ClientQuery c (closingStatement action);
                               ClientRelease c])%list).
  { destruct Haction as [-> | ->]; unfold checkpointTool; step_monad;
      rewrite Hmode, Hc;
      (destruct (client_query E _ c _); cbn [await]; [|discriminate]);
      intros [= _ <-]; cbn [session calls closingStatement];
      rewrite <- app_assoc; split; reflexivity. }
  intros Hrun. destruct (Hshape Hrun) as [Hsession Hcalls].
  split; [exact Hsession|].
  split; [unfold Idle; now rewrite Hsession|].
  split; [exists c; split; [exact Hc | exact Hcalls]|].
  intros id'. unfold checkpointTool. step_monad. now rewrite Hsession.
Qed.

Lemma close_success_is_terminal_witness :
  Active (session oneCheckpointMachine)
  /\ session (snd (checkpointTool calmEnv Discard None oneCheckpointMachine))
     = initialSession
  /\ checkpointTool calmEnv List None
       (snd (checkpointTool calmEnv Discard None oneCheckpointMachine))
     = (Return "No active checkpoint session. Use checkpoint({ action: 'start' }) to begin.",
        snd (checkpointTool calmEnv Discard None oneCheckpointMachine)).
Proof.
  assert (Hactive : Active (session oneCheckpointMachine)).
  { split; [reflexivity | exists 0%nat; reflexivity]. }
  destruct (close_success_is_terminal calmEnv Discard None
              oneCheckpointMachine
              (snd (checkpointTool calmEnv Discard None oneCheckpointMachine))
              "All changes discarded. 1 checkpoints rolled back."
              (or_intror eq_refl) Hactive eq_refl)
    as [Hsession [_ [_ Hlist]]].
  split; [exact Hactive|].
  split; [exact Hsession | exact (Hlist None)].
Defined.

(** C8, as stated, is false: [list] in an Idle session does not fail, it
    returns the "no active session" text as an ordinary response. *)
Lemma list_when_idle_does_not_fail :
  ~ (forall action, action <> Start -> failsWhenIdle action).
Proof.
  intros Hclaim.
  assert (Hlist : List <> Start) by discriminate.
  destruct (Hclaim List Hlist calmEnv None initialMachine eq_refl)
    as [e [m' Hrun]].
  discriminate Hrun.
Qed.

(** C8, amended. In an Idle session [rollback], [commit] and [discard]
    throw "No active checkpoint session" and change nothing, whereas
    [list] returns an informational response and changes nothing. *)
Theorem idle_checkpoint_actions
  (E : Env) (checkpointId : option Z) (m : Machine) :
  Idle (session m) ->
  (forall action,
     action = Rollback \/ action = Commit \/ action = Discard ->
     checkpointTool E action checkpointId m
     = (Throw (JsError "No active checkpoint session"), m))
  /\ checkpointTool E List checkpointId m
     = (Return "No active checkpoint session. Use checkpoint({ action: 'start' }) to begin.", m).
Proof.
  unfold Idle. intros Hmode. split.
  - intros action [-> | [-> | ->]]; unfold checkpointTool; step_monad;
      now rewrite Hmode.
  - unfold checkpointTool. step_monad. now rewrite Hmode.
Qed.

Lemma idle_checkpoint_actions_witness :
  Idle (session initialMachine)
  /\ checkpointTool calmEnv Commit None initialMachine
     = (Throw (JsError "No active checkpoint session"), initialMachine)
  /\ checkpointTool calmEnv List None initialMachine
     = (Return "No active checkpoint session. Use checkpoint({ action: 'start' }) to begin.", initialMachine).
Proof.
  split; [reflexivity|].
  destruct (idle_checkpoint_actions calmEnv None initialMachine eq_refl)
    as [Hthrow Hlist].
  split; [apply Hthrow; right; left; reflexivity | exact Hlist].
Defined.

Lemma rollback_success
  (E : Env) (k : Z) (m : Machine) (c : Client) (cp : Checkpoint)
  (res : QueryResult) :
  checkpointMode (session m) = true ->
  sessionClient (session m) = Some c ->
  k <> 0 ->
  find (fun cp => cp_id cp =? k) (checkpointHistory (session m)) = Some cp ->
  client_query E (calls m) c ("ROLLBACK TO SAVEPOINT checkpoint_" ++ ofNumber k)
  = Ok res ->
  checkpointTool E Rollback (Some k) m
  = (Return ("Rolled back to checkpoint " ++ ofNumber k ++ ": " ++ cp_query cp),
     {| session := set_checkpointHistory
                     (filter (fun cp => cp_id cp <=? k)
                             (checkpointHistory (session m))) (session m);
        calls := calls m ++ [ClientQuery c ("ROLLBACK TO SAVEPOINT checkpoint_"
                                            ++ ofNumber k)];
        logs := logs m |}).
Proof.
  intros Hmode Hc Hk Hfind Hok.
  unfold checkpointTool. step_monad. rewrite Hmode, Hc.
  unfold missingId. destruct (Z.eqb_spec k 0) as [|_]; [contradiction|].
  rewrite Hfind, Hok. reflexivity.
Qed.

Lemma rollback_not_found
  (E : Env) (k : Z) (m : Machine) (c : Client) :
  checkpointMode (session m) = true ->
  sessionClient (session m) = Some c ->
  k <> 0 ->
  find (fun cp => cp_id cp =? k) (checkpointHistory (session m)) = None ->
  checkpointTool E Rollback (Some k) m
  = (Throw (JsError ("Checkpoint " ++ ofNumber k ++ " not found")), m).
Proof.
  intros Hmode Hc Hk Hfind.
  unfold checkpointTool. step_monad. rewrite Hmode, Hc.
  unfold missingId. destruct (Z.eqb_spec k 0) as [|_]; [contradiction|].
  now rewrite Hfind.
Qed.

(** C4. In an Active session whose history holds the ids 1..5, a
    [rollback(3)] whose ROLLBACK TO SAVEPOINT the database accepts leaves
    exactly the ids 1, 2, 3; a [rollback(5)] that follows throws
    "Checkpoint 5 not found" and hands back the very same machine, so the
    history, the counter and the mode are unchanged and the session is
    still Active. *)
Theorem rollback_3_then_5
  (E : Env) (m : Machine) (c : Client) (res : QueryResult) :
  checkpointMode (session m) = true ->
  sessionClient (session m) = Some c ->
  historyIds (session m) = [1; 2; 3; 4; 5] ->
  client_query E (calls m) c "ROLLBACK TO SAVEPOINT checkpoint_3" = Ok res ->
  exists r m1,
    checkpointTool E Rollback (Some 3) m = (Return r, m1)
    /\ historyIds (session m1) = [1; 2; 3]
    /\ checkpointCounter (session m1) = checkpointCounter (session m)
    /\ checkpointTool E Rollback (Some 5) m1
       = (Throw (JsError "Checkpoint 5 not found"), m1)
    /\ Active (session m1).
Proof.
  intros Hmode Hc Hids Hok.
  unfold historyIds in Hids.
  destruct (checkpointHistory (session m))
    as [|c1 [|c2 [|c3 [|c4 [|c5 [|c6 rest]]]]]] eqn:Hhist;
    try discriminate Hids.
  injection Hids as H1 H2 H3 H4 H5.
  assert (Hfind : find (fun cp => cp_id cp =? 3) (checkpointHistory (session m))
                  = Some c3).
  { rewrite Hhist. cbn [find]. now rewrite H1, H2, H3. }
  assert (Hfilter : filter (fun cp => cp_id cp <=? 3)
                           (checkpointHistory (session m)) = [c1; c2; c3]).
  { rewrite Hhist. cbn [filter]. now rewrite H1, H2, H3, H4, H5. }
  eexists. eexists. split.
  - apply (rollback_success E 3 m c c3 res Hmode Hc); [lia | exact Hfind | exact Hok].
  - rewrite Hfilter. unfold historyIds. cbn [session set_checkpointHistory
      checkpointHistory checkpointCounter map].
    rewrite H1, H2, H3.
    split; [reflexivity|]. split; [reflexivity|]. split.
    + apply (rollback_not_found E 5 _ c); cbn [session set_checkpointHistory
        checkpointMode sessionClient checkpointHistory]; trivial; [lia|].
      cbn [find]. now rewrite H1, H2, H3.
    + split; cbn [session set_checkpointHistory checkpointMode sessionClient];
        [exact Hmode | exists c; exact Hc].
Qed.

Lemma rollback_3_then_5_witness :
  historyIds (session fiveCheckpointsMachine) = [1; 2; 3; 4; 5]
  /\ exists r m1,
       checkpointTool calmEnv Rollback (Some 3) fiveCheckpointsMachine
       = (Return r, m1)
       /\ historyIds (session m1) = [1; 2; 3]
       /\ checkpointCounter (session m1)
          = checkpointCounter (session fiveCheckpointsMachine)
       /\ checkpointTool calmEnv Rollback (Some 5) m1
          = (Throw (JsError "Checkpoint 5 not found"), m1)
       /\ Active (session m1).
Proof.
  split; [reflexivity|].
  apply (rollback_3_then_5 calmEnv fiveCheckpointsMachine 0%nat okResult);
    reflexivity.
Defined.

(** ** The query executor in normal mode *)

Lemma begin_choice (E : Env) (config : Config) (client : Client) :
  (if isReadOnly config
   then clientQuery E client "BEGIN TRANSACTION READ ONLY"
   else clientQuery E client "BEGIN")
  = clientQuery E client (beginStatement config).
Proof. unfold beginStatement. now destruct (isReadOnly config). Qed.

Ltac normalise_calls :=
  repeat match goal with
         | H : client_query _ _ _ _ = _ |- _ =>
             progress (cbn [calls app map] in H; rewrite <- ?app_assoc in H;
                       cbn [app] in H)
         end;
  cbn [calls logs app map]; rewrite <- ?app_assoc, ?app_nil_r; cbn [app].

Ltac failure_case done failed detail :=
  exists done, failed, detail;
  normalise_calls;
  split; [reflexivity|];
  split; [assumption|];
  split; [reflexivity|];
  split; [rewrite ?in_app_iff; cbn [In]; tauto|];
  let d2 := fresh "detail2" in
  let H := fresh "Hrollback" in
  intros d2 H;
  first [ congruence
        | rewrite ?in_app_iff; cbn [In];
          match goal with
          | Hfail : client_query _ _ _ "ROLLBACK" = Failed _ |- _ =>
              rewrite Hfail in H; injection H as <-; tauto
          end ].

Lemma autoCommit_contract
  (E : Env) (config : Config) (sql command : string) (client : Client)
  (m m' : Machine) (out : Outcome string) :
  autoCommit E config client sql command m = (out, m') ->
  session m' = session m
  /\ autoCommitContract E config sql client (calls m) out m'.
Proof.
  unfold autoCommit. rewrite begin_choice. step_monad.
  set (begin := beginStatement config).
  destruct (client_query E (calls m) client begin) as [r0|d0] eqn:Hbegin;
    cbn [await].
  - destruct (client_query E _ client sql) as [r1|d1] eqn:Hsql; cbn [await].
    + destruct (client_query E _ client "COMMIT") as [r2|d2] eqn:Hcommit;
        cbn [await].
      * intros [= <- <-]. split; [reflexivity|].
        exists [begin; sql; "COMMIT"]. cbn [calls map].
        rewrite <- !app_assoc. cbn [app].
        split; [reflexivity|]. split; [reflexivity|]. discriminate.
      * destruct (client_query E _ client "ROLLBACK") as [r3|d3] eqn:Hrb;
          cbn [await]; intros [= <- <-]; (split; [reflexivity|]);
          exists [begin; sql; "COMMIT"; "ROLLBACK"]; cbn [calls map];
          rewrite <- !app_assoc; cbn [app];
          (split; [reflexivity|]); (split; [discriminate|]);
          intros e [= <-]; failure_case [begin; sql] "COMMIT" d2.
    + destruct (client_query E _ client "ROLLBACK") as [r3|d3] eqn:Hrb;
        cbn [await]; intros [= <- <-]; (split; [reflexivity|]);
        exists [begin; sql; "ROLLBACK"]; cbn [calls map];
        rewrite <- !app_assoc; cbn [app];
        (split; [reflexivity|]); (split; [discriminate|]);
        intros e [= <-]; failure_case [begin] sql d1.
  - destruct (client_query E _ client "ROLLBACK") as [r3|d3] eqn:Hrb;
      cbn [await]; intros [= <- <-]; (split; [reflexivity|]);
      exists [begin; "ROLLBACK"]; cbn [calls map];
      rewrite <- !app_assoc; cbn [app];
      (split; [reflexivity|]); (split; [discriminate|]);
      intros e [= <-]; failure_case (@nil string) begin d0.
Qed.

Ltac tidy_machine :=
  repeat (cbn [await session calls logs app]; rewrite <- ?app_assoc).

(** C7. A [query] call that passes the gate in an Idle session and
    obtains the pooled connection [client] runs its own transaction on that
    connection, and what it does is fixed by the database's answers.  The
    first statement the database refuses, be it the BEGIN, the statement
    itself or the COMMIT, ends the transaction: ROLLBACK is sent right
    after it, then the connection is released, once and as the last call,
    and the call throws the error of the refused statement, unchanged, after
    logging it.  When the ROLLBACK is refused too, its error is written as
    a warning before the original error is logged, and the original error
    is still the one thrown.  When nothing is refused the calls are BEGIN,
    the statement, COMMIT and the release, and the call returns the
    response built from the statement's result.  The session variables are
    untouched in every case. *)
Theorem idle_query_releases_and_rethrows
  (E : Env) (config : Config) (sql : string) (client : Client) (m : Machine) :
  includes (databaseRoles (role config)) (requiredPrivilege sql) = true ->
  Idle (session m) ->
  pool_connect E (calls m) = Ok client ->
  queryTool E config sql m
  = let begin := beginStatement config in
    let send := ClientQuery client in
    let before := (calls m ++ [PoolConnect])%list in
    let logged := (logs m ++ [LoggerInfo "Executing SQL query" sql])%list in
    let failure (done : list string) (failed : string) (error : Exn) :=
      (Throw error,
       {| session := session m;
          calls := (before ++ map send done
                    ++ [send failed; send "ROLLBACK"; ClientRelease client])%list;
          logs := (logged
                   ++ match client_query E
                              (before ++ map send done ++ [send failed])%list
                              client "ROLLBACK" with
                      | Failed detail =>
                          [ConsoleWarn "Could not roll back transaction:"
                                       (DriverError detail)]
                      | Ok _ => []
                      end
                   ++ [LoggerError error sql])%list |}) in
    match client_query E before client begin with
    | Failed detail => failure [] begin (DriverError detail)
    | Ok _ =>
        match client_query E (before ++ [send begin])%list client sql with
        | Failed detail => failure [begin] sql (DriverError detail)
        | Ok result =>
            match client_query E (before ++ [send begin; send sql])%list
                    client "COMMIT" with
            | Failed detail =>
                failure [begin; sql] "COMMIT" (DriverError detail)
            | Ok _ =>
                (Return (responseText E (commandOf sql) result),
                 {| session := session m;
                    calls := (before ++ [send begin; send sql; send "COMMIT";
                                         ClientRelease client])%list;
                    logs := (logged
                             ++ [LoggerInfo "Query completed successfully"
                                            sql])%list |})
            end
        end
    end.
Proof.
  unfold Idle. intros Hgate Hidle Hconnect.
  unfold queryTool, checkPermissions, grantedPrivileges.
  rewrite Hgate. step_monad. rewrite Hidle. cbn [calls].
  rewrite Hconnect. cbn [await negb].
  unfold autoCommit. rewrite begin_choice. step_monad.
  cbn zeta. cbn [map app]. rewrite <- ?app_assoc. cbn [app].
  destruct (client_query E (calls m ++ [PoolConnect]) client
              (beginStatement config)) as [r0|d0]; tidy_machine.
  - destruct (client_query E _ client sql) as [r1|d1]; tidy_machine.
    + destruct (client_query E _ client "COMMIT") as [r2|d2]; tidy_machine.
      * reflexivity.
      * destruct (client_query E _ client "ROLLBACK"); tidy_machine;
          reflexivity.
    + destruct (client_query E _ client "ROLLBACK"); tidy_machine;
        reflexivity.
  - destruct (client_query E _ client "ROLLBACK"); tidy_machine; reflexivity.
Qed.

Lemma idle_query_releases_and_rethrows_witness :
  includes (databaseRoles (role adminConfig))
           (requiredPrivilege "delete from t") = true
  /\ Idle (session initialMachine)
  /\ pool_connect (refusingEnv "delete from t" true) (calls initialMachine)
     = Ok 0%nat
  /\ queryTool (refusingEnv "delete from t" true) adminConfig
       "delete from t" initialMachine
     = (Throw (DriverError "statement refused"),
        {| session := initialSession;
           calls := [PoolConnect; ClientQuery 0%nat "BEGIN";
                     ClientQuery 0%nat "delete from t";
                     ClientQuery 0%nat "ROLLBACK"; ClientRelease 0%nat];
           logs := [LoggerInfo "Executing SQL query" "delete from t";
                    ConsoleWarn "Could not roll back transaction:"
                                (DriverError "connection lost");
                    LoggerError (DriverError "statement refused")
                                "delete from t"] |}).
Proof.
  split; [reflexivity|]. split; [reflexivity|]. split; [reflexivity|].
  etransitivity;
    [ apply (idle_query_releases_and_rethrows
               (refusingEnv "delete from t" true) adminConfig "delete from t"
               0%nat initialMachine eq_refl eq_refl eq_refl)
    | reflexivity ].
Defined.

(** ** The history invariant *)

Lemma sorted_snoc (l : list Z) (x : Z) :
  StronglySorted Z.lt l ->
  Forall (fun i => i < x) l ->
  StronglySorted Z.lt (l ++ [x]).
Proof.
  induction 1 as [|a l Hsorted IH Hall]; intros Hbelow; cbn [app].
  - constructor; constructor.
  - inversion Hbelow as [|? ? Ha Hl]; subst.
    constructor; [now apply IH|].
    apply Forall_app; split; [exact Hall | now constructor].
Qed.

Lemma sorted_filter (p : Checkpoint -> bool) (h : list Checkpoint) :
  StronglySorted Z.lt (map cp_id h) ->
  StronglySorted Z.lt (map cp_id (filter p h)).
Proof.
  induction h as [|cp h IH]; cbn [map filter]; intros Hsorted; [constructor|].
  inversion Hsorted as [|? ? Htail Hhead]; subst.
  destruct (p cp); cbn [map]; [|now apply IH].
  constructor; [now apply IH|].
  rewrite Forall_forall in *. intros i Hi. apply Hhead.
  rewrite in_map_iff in *. destruct Hi as [cp' [<- Hin]].
  exists cp'. split; [reflexivity|].
  now apply filter_In in Hin.
Qed.

Lemma bounded_filter (p : Checkpoint -> bool) (P : Z -> Prop)
  (h : list Checkpoint) :
  Forall P (map cp_id h) -> Forall P (map cp_id (filter p h)).
Proof.
  rewrite !Forall_forall. intros Hall i Hi. apply Hall.
  rewrite in_map_iff in *. destruct Hi as [cp [<- Hin]].
  exists cp. split; [reflexivity|]. now apply filter_In in Hin.
Qed.

(** A strictly increasing list of integers drawn from [lo..hi] has at
    most [hi - lo + 1] entries. *)
Lemma sorted_length_bound (l : list Z) :
  forall lo hi,
    StronglySorted Z.lt l ->
    Forall (fun i => lo <= i <= hi) l ->
    Z.of_nat (List.length l) <= Z.max 0 (hi - lo + 1).
Proof.
  induction l as [|a l IH]; intros lo hi Hsorted Hrange; cbn [List.length].
  - lia.
  - inversion Hsorted as [|? ? Htail Hhead]; subst.
    inversion Hrange as [|? ? Ha Hl]; subst.
    assert (Hrest : Forall (fun i => a + 1 <= i <= hi) l).
    { rewrite Forall_forall in *. intros i Hi.
      specialize (Hhead i Hi). specialize (Hl i Hi). lia. }
    specialize (IH (a + 1) hi Htail Hrest). lia.
Qed.

(** On a history with increasing ids, keeping the ids up to [k] keeps a
    prefix. *)
Lemma filter_is_prefix (k : Z) (h : list Checkpoint) :
  StronglySorted Z.lt (map cp_id h) ->
  exists dropped,
    h = (filter (fun cp => cp_id cp <=? k) h ++ dropped)%list
    /\ Forall (fun cp => k < cp_id cp) dropped.
Proof.
  induction h as [|cp h IH]; cbn [map filter]; intros Hsorted.
  - exists []. split; [reflexivity | constructor].
  - inversion Hsorted as [|? ? Htail Hhead]; subst.
    destruct (IH Htail) as [dropped [Hsplit Hdropped]].
    destruct (Z.leb_spec (cp_id cp) k) as [Hle|Hgt].
    + exists dropped. split; [|exact Hdropped].
      cbn [app]. now rewrite <- Hsplit.
    + assert (Hnone : filter (fun cp => cp_id cp <=? k) h = []).
      { clear - Hhead Hgt. induction h as [|cp' h IH]; [reflexivity|].
        inversion Hhead as [|? ? Hcp' Hh]; subst. cbn [filter].
        destruct (Z.leb_spec (cp_id cp') k); [lia | now apply IH]. }
      exists (cp :: h). rewrite Hnone. split; [reflexivity|].
      constructor; [exact Hgt|].
      rewrite Hnone in Hsplit. cbn [app] in Hsplit. now rewrite Hsplit.
Qed.

Lemma invariant_same_history (s s' : Session) :
  checkpointHistory s' = checkpointHistory s ->
  checkpointCounter s' = checkpointCounter s ->
  historyInvariant s -> historyInvariant s'.
Proof.
  unfold historyInvariant, historyIds. now intros -> ->.
Qed.

Lemma invariant_reset (s : Session) :
  checkpointHistory s = [] -> checkpointCounter s = 0 -> historyInvariant s.
Proof.
  unfold historyInvariant, historyIds. intros -> ->. cbn [map].
  split; [lia|]. split; constructor.
Qed.

Lemma invariant_filter (s : Session) (p : Checkpoint -> bool) :
  historyInvariant s ->
  historyInvariant (set_checkpointHistory (filter p (checkpointHistory s)) s).
Proof.
  unfold historyInvariant, historyIds.
  cbn [set_checkpointHistory checkpointHistory checkpointCounter].
  intros [Hpos [Hsorted Hrange]].
  split; [exact Hpos|].
  split; [now apply sorted_filter | now apply bounded_filter].
Qed.

Lemma invariant_bump (s : Session) :
  historyInvariant s ->
  historyInvariant (set_checkpointCounter (checkpointCounter s + 1) s).
Proof.
  unfold historyInvariant, historyIds.
  cbn [set_checkpointCounter checkpointHistory checkpointCounter].
  intros [Hpos [Hsorted Hrange]].
  split; [lia|]. split; [exact Hsorted|].
  rewrite Forall_forall in *. intros i Hi. specialize (Hrange i Hi). lia.
Qed.

Lemma invariant_push (s : Session) (sql stamp : string) :
  historyInvariant s ->
  historyInvariant
    (set_checkpointHistory
       (checkpointHistory s ++ [ {| cp_id := checkpointCounter s + 1;
                                    cp_query := sql;
                                    cp_timestamp := stamp |} ])
       (set_checkpointCounter (checkpointCounter s + 1) s)).
Proof.
  unfold historyInvariant, historyIds, set_checkpointHistory,
    set_checkpointCounter.
  cbn [checkpointHistory checkpointCounter].
  intros [Hpos [Hsorted Hrange]].
  rewrite map_app. cbn [map cp_id].
  split; [lia|]. split.
  - apply sorted_snoc; [exact Hsorted|].
    rewrite Forall_forall in *. intros i Hi. specialize (Hrange i Hi). lia.
  - apply Forall_app. split.
    + rewrite Forall_forall in *. intros i Hi. specialize (Hrange i Hi). lia.
    + constructor; [lia | constructor].
Qed.

Ltac split_cases :=
  repeat match goal with
         | |- context [match ?x with _ => _ end] =>
             destruct x eqn:?;
             cbn [await fst snd session calls logs sessionClient
                  checkpointMode checkpointHistory checkpointCounter]
         end.

Ltac close_invariant :=
  cbn [fst snd session];
  first [ assumption
        | now apply invariant_filter
        | apply invariant_reset; reflexivity
        | now apply invariant_bump
        | now apply invariant_push
        | eapply invariant_same_history; [| | eassumption]; reflexivity ].

Lemma checkpointTool_keeps_invariant
  (E : Env) (action : Action) (checkpointId : option Z) (m : Machine) :
  historyInvariant (session m) ->
  historyInvariant (session (snd (checkpointTool E action checkpointId m))).
Proof.
  intros Hinv.
  destruct action; unfold checkpointTool, missingId; step_monad;
    split_cases; close_invariant.
Qed.

Lemma queryTool_keeps_invariant
  (E : Env) (config : Config) (sql : string) (m : Machine) :
  historyInvariant (session m) ->
  historyInvariant (session (snd (queryTool E config sql m))).
Proof.
  intros Hinv.
  assert (Hnormal : forall m0,
    session m0 = session m ->
    historyInvariant
      (session (snd (bind (connect E)
                          (fun client =>
                             autoCommit E config client sql (commandOf sql))
                          m0)))).
  { intros m0 Hm0. step_monad.
    destruct (pool_connect E (calls m0)) as [client|detail]; cbn [await snd].
    - destruct (autoCommit E config client sql (commandOf sql) _)
        as [out m'] eqn:Hrun.
      apply autoCommit_contract in Hrun. destruct Hrun as [Hsession _].
      cbn [snd session] in *. now rewrite Hsession, Hm0.
    - cbn [session]. now rewrite Hm0. }
  unfold queryTool.
  unfold bind at 1. unfold log at 1.
  unfold bind at 1. unfold liftOutcome.
  destruct (checkPermissions sql (grantedPrivileges config)) as [[]|e];
    [|cbn [snd session]; exact Hinv].
  unfold bind at 1. unfold getSession at 1. cbn [session].
  destruct (checkpointMode (session m)) eqn:Hmode;
    [destruct (sessionClient (session m)) as [c|] eqn:Hc|];
    try (apply Hnormal; reflexivity).
  unfold createCheckpoint. step_monad.
  destruct (client_query E (calls m) c sql) as [result|detail]; cbn [await];
    [|close_invariant].
  destruct (includes writeCommands (commandOf sql)); cbn beta iota;
    [|close_invariant].
  cbn [calls session checkpointCounter set_checkpointCounter].
  destruct (client_query E _ c _) as [saved|detail]; cbn [await];
    close_invariant.
Qed.

Lemma invoke_keeps_invariant
  (E : Env) (config : Config) (call : Call) (m : Machine) :
  historyInvariant (session m) ->
  historyInvariant (session (snd (invoke E config call m))).
Proof.
  destruct call as [action checkpointId | sql]; cbn [invoke].
  - apply checkpointTool_keeps_invariant.
  - apply queryTool_keeps_invariant.
Qed.

Lemma run_keeps_invariant (E : Env) (config : Config) (cs : list Call) :
  forall m,
    historyInvariant (session m) ->
    historyInvariant (session (run E config cs m)).
Proof.
  induction cs as [|call rest IH]; intros m Hinv; cbn [run].
  - exact Hinv.
  - apply IH. now apply invoke_keeps_invariant.
Qed.

Lemma reachable_invariant (E : Env) (config : Config) (m : Machine) :
  reachable E config m -> historyInvariant (session m).
Proof.
  intros [cs <-]. apply run_keeps_invariant.
  apply invariant_reset; reflexivity.
Qed.

Lemma rollback_return_shape
  (E : Env) (checkpointId : option Z) (m m' : Machine) (r : string) :
  checkpointTool E Rollback checkpointId m = (Return r, m') ->
  exists k,
    checkpointId = Some k
    /\ session m'
       = set_checkpointHistory
           (filter (fun cp => cp_id cp <=? k) (checkpointHistory (session m)))
           (session m).
Proof.
  unfold checkpointTool. step_monad.
  destruct (checkpointMode (session m)); [|discriminate].
  destruct (sessionClient (session m)) as [c|]; [|discriminate].
  destruct checkpointId as [k|]; [|discriminate].
  destruct (missingId (Some k)); [discriminate|].
  destruct (find _ _) as [cp|]; [|discriminate].
  destruct (client_query E _ c _); cbn [await]; [|discriminate].
  intros [= _ <-]. exists k. split; reflexivity.
Qed.

(** C3, as stated, is false: after two writes and a rollback to the first
    checkpoint the session is Active, its history has one entry and its
    counter is still 2. *)
Lemma length_equals_counter_fails :
  ~ (forall (E : Env) (config : Config) (m : Machine),
       reachable E config m ->
       Active (session m) ->
       Z.of_nat (List.length (checkpointHistory (session m)))
       = checkpointCounter (session m)).
Proof.
  intros Hclaim.
  specialize (Hclaim calmEnv adminConfig rolledBackMachine).
  assert (Hreach : reachable calmEnv adminConfig rolledBackMachine).
  { eexists. reflexivity. }
  assert (Hactive : Active (session rolledBackMachine)).
  { split; [reflexivity | exists 0%nat; reflexivity]. }
  specialize (Hclaim Hreach Hactive).
  discriminate Hclaim.
Qed.

(** C3, amended. In every reachable state the history ids are strictly
    increasing and lie between 1 and the counter, so the history is never
    longer than the counter says; and a rollback to id K that returns
    keeps exactly the entries with id <= K, which form a prefix of the
    history, and leaves the counter, the mode and the connection as they
    were. *)
Theorem history_within_counter
  (E : Env) (config : Config) (m : Machine) :
  reachable E config m ->
  StronglySorted Z.lt (historyIds (session m))
  /\ Forall (fun i => 1 <= i <= checkpointCounter (session m))
            (historyIds (session m))
  /\ Z.of_nat (List.length (checkpointHistory (session m)))
     <= checkpointCounter (session m)
  /\ forall checkpointId r m',
       checkpointTool E Rollback checkpointId m = (Return r, m') ->
       exists k dropped,
         checkpointId = Some k
         /\ checkpointHistory (session m')
            = filter (fun cp => cp_id cp <=? k) (checkpointHistory (session m))
         /\ checkpointHistory (session m)
            = (checkpointHistory (session m') ++ dropped)%list
         /\ Forall (fun cp => k < cp_id cp) dropped
         /\ checkpointCounter (session m') = checkpointCounter (session m)
         /\ checkpointMode (session m') = checkpointMode (session m)
         /\ sessionClient (session m') = sessionClient (session m).
Proof.
  intros Hreach.
  destruct (reachable_invariant E config m Hreach) as [Hpos [Hsorted Hrange]].
  split; [exact Hsorted|]. split; [exact Hrange|]. split.
  - pose proof (sorted_length_bound _ 1 (checkpointCounter (session m))
                  Hsorted Hrange) as Hbound.
    unfold historyIds in Hbound. rewrite length_map in Hbound. lia.
  - intros checkpointId r m' Hrun.
    destruct (rollback_return_shape E checkpointId m m' r Hrun)
      as [k [-> Hsession]].
    destruct (filter_is_prefix k (checkpointHistory (session m)) Hsorted)
      as [dropped [Hsplit Hdropped]].
    exists k, dropped. rewrite Hsession.
    cbn [set_checkpointHistory checkpointHistory checkpointCounter
         checkpointMode sessionClient].
    repeat split; trivial.
Qed.

Lemma history_within_counter_witness :
  reachable calmEnv adminConfig rolledBackMachine
  /\ historyIds (session rolledBackMachine) = [1]
  /\ checkpointCounter (session rolledBackMachine) = 2
  /\ Z.of_nat (List.length (checkpointHistory (session rolledBackMachine)))
     <= checkpointCounter (session rolledBackMachine).
Proof.
  assert (Hreach : reachable calmEnv adminConfig rolledBackMachine).
  { eexists. reflexivity. }
  split; [exact Hreach|]. split; [reflexivity|]. split; [reflexivity|].
  exact (proj1 (proj2 (proj2
           (history_within_counter calmEnv adminConfig rolledBackMachine
                                   Hreach)))).
Defined.

(** * Further properties of the PostgreSQL server *)

(** ** Roles *)

Lemma includes_incl (xs ys : list string) (x : string) :
  incl xs ys -> includes xs x = true -> includes ys x = true.
Proof.
  unfold includes. rewrite !existsb_exists.
  intros Hincl [y [Hin Heq]]. exists y. split; [now apply Hincl | exact Heq].
Qed.

Lemma databaseRoles_incl (r1 r2 : Role) :
  (roleRank r1 <= roleRank r2)%nat ->
  incl (databaseRoles r1) (databaseRoles r2).
Proof.
  destruct r1, r2; cbn [roleRank databaseRoles]; intros Hle x Hin;
    try lia; cbn [In] in *; tauto.
Qed.

(** X1. The role table is cumulative: a higher role grants every privilege
    of a lower one, so a text that passes the gate under a role passes it
    under every higher role. *)
Theorem gate_is_monotone_in_role (r1 r2 : Role) (sql : string) :
  (roleRank r1 <= roleRank r2)%nat ->
  incl (databaseRoles r1) (databaseRoles r2)
  /\ (checkPermissions sql (databaseRoles r1) = Return tt ->
      checkPermissions sql (databaseRoles r2) = Return tt).
Proof.
  intros Hle. pose proof (databaseRoles_incl r1 r2 Hle) as Hincl.
  split; [exact Hincl|].
  unfold checkPermissions.
  destruct (includes (databaseRoles r1) (requiredPrivilege sql)) eqn:H1;
    cbn [negb]; [|discriminate].
  now rewrite (includes_incl _ _ _ Hincl H1).
Qed.

Lemma gate_is_monotone_in_role_witness :
  (roleRank insert <= roleRank write)%nat
  /\ checkPermissions "insert into t values (1)" (databaseRoles write)
     = Return tt.
Proof.
  assert (Hle : (roleRank insert <= roleRank write)%nat) by (cbn; lia).
  split; [exact Hle|].
  apply (proj2 (gate_is_monotone_in_role insert write
                  "insert into t values (1)" Hle)).
  reflexivity.
Defined.

(** ** Only the leading keyword counts *)

Lemma trimStart_white (ws s : string) :
  everyChar isWhiteSpace ws = true ->
  trimStart (ws ++ s) = trimStart s.
Proof.
  induction ws as [|c ws IH]; cbn [everyChar append trimStart];
    [reflexivity|].
  intros H. apply andb_prop in H. destruct H as [Hc Hws].
  rewrite Hc. now apply IH.
Qed.

Lemma separator_of_white (c : ascii) :
  isSeparator c = false -> isWhiteSpace c = false.
Proof.
  unfold isSeparator. intros H. now apply orb_false_elim in H.
Qed.

Lemma trimEnd_token (tok s : string) :
  everyChar (fun c => negb (isSeparator c)) tok = true ->
  trimEnd (tok ++ s) = tok ++ trimEnd s.
Proof.
  induction tok as [|c tok IH]; cbn [everyChar append]; [reflexivity|].
  intros H. apply andb_prop in H. destruct H as [Hc Htok].
  apply negb_true_iff, separator_of_white in Hc.
  cbn [trimEnd]. rewrite (IH Htok), Hc.
  now destruct (tok ++ trimEnd s).
Qed.

Lemma upperChar_separator (c : ascii) :
  isSeparator (upperChar c) = isSeparator c.
Proof.
  unfold upperChar.
  destruct ((97 <=? nat_of_ascii c)%nat && (nat_of_ascii c <=? 122)%nat)
    eqn:Hlower; [|reflexivity].
  apply andb_prop in Hlower. destruct Hlower as [Hlo Hhi].
  apply Nat.leb_le in Hlo. apply Nat.leb_le in Hhi.
  assert (Hcase : forall n, (97 <= n)%nat -> (n <= 122)%nat ->
                    isSeparator (ascii_of_nat (n - 32)) = false
                    /\ (forall a, nat_of_ascii a = n -> isSeparator a = false)).
  { intros n H1 H2.
    do 97 (destruct n as [|n]; [lia|]).
    do 26 (destruct n as [|n];
           [split; [reflexivity|];
            intros a Ha; rewrite <- (ascii_nat_embedding a), Ha; reflexivity|]).
    lia. }
  destruct (Hcase (nat_of_ascii c) Hlo Hhi) as [Hup Hsame].
  now rewrite Hup, (Hsame c eq_refl).
Qed.

Lemma firstToken_upper_token (tok tail : string) :
  everyChar (fun c => negb (isSeparator c)) tok = true ->
  (tail = EmptyString
   \/ exists sep rest, tail = String sep rest /\ isSeparator sep = true) ->
  spec_firstToken (toUpperCase (tok ++ tail)) = toUpperCase tok.
Proof.
  intros Htok Htail.
  induction tok as [|c tok IH]; cbn [everyChar append toUpperCase] in *.
  - destruct Htail as [-> | [sep [rest [-> Hsep]]]]; [reflexivity|].
    cbn [toUpperCase spec_firstToken].
    now rewrite upperChar_separator, Hsep.
  - apply andb_prop in Htok. destruct Htok as [Hc Htok].
    apply negb_true_iff in Hc.
    cbn [spec_firstToken]. rewrite upperChar_separator, Hc.
    now rewrite (IH Htok).
Qed.

Lemma trimEnd_keeps_head (sep : ascii) (rest : string) :
  trimEnd (String sep rest) = EmptyString
  \/ exists rest', trimEnd (String sep rest) = String sep rest'.
Proof.
  cbn [trimEnd]. destruct (trimEnd rest) as [|c r].
  - destruct (isWhiteSpace sep); [now left | right; now eexists].
  - right. now eexists.
Qed.

Lemma append_empty (s : string) : s ++ EmptyString = s.
Proof.
  induction s as [|a s IH]; cbn [append]; [reflexivity | now rewrite IH].
Qed.

Lemma commandOf_leading (ws tok tail : string) :
  everyChar isWhiteSpace ws = true ->
  everyChar (fun c => negb (isSeparator c)) tok = true ->
  tok <> EmptyString ->
  (tail = EmptyString
   \/ exists sep rest, tail = String sep rest /\ isSeparator sep = true) ->
  commandOf (ws ++ tok ++ tail) = toUpperCase tok.
Proof.
  intros Hws Htok Hne Htail. unfold commandOf, trim.
  rewrite split_head, (trimStart_white ws _ Hws).
  destruct tok as [|c tok]; [contradiction|].
  assert (Hc : isWhiteSpace c = false).
  { cbn [everyChar] in Htok. apply andb_prop in Htok.
    destruct Htok as [Hc _].
    now apply negb_true_iff, separator_of_white in Hc. }
  cbn [append trimStart]. rewrite Hc.
  change (String c (tok ++ tail)) with (String c tok ++ tail).
  rewrite (trimEnd_token _ _ Htok).
  apply (firstToken_upper_token _ _ Htok).
  destruct Htail as [-> | [sep [rest [-> Hsep]]]]; [now left|].
  destruct (trimEnd_keeps_head sep rest) as [-> | [rest' ->]];
    [now left | right; now exists sep, rest'].
Qed.

(** X2. Only the leading keyword is classified.  For a text made of
    whitespace, then a non-empty word free of whitespace and semicolons,
    then either nothing or a whitespace or semicolon followed by anything
    at all, the classified command is that word in upper case; so the
    required privilege is that of the word alone, whatever statements
    follow it. *)
Theorem only_leading_keyword_counts (ws tok tail : string) :
  everyChar isWhiteSpace ws = true ->
  everyChar (fun c => negb (isSeparator c)) tok = true ->
  tok <> EmptyString ->
  (tail = EmptyString
   \/ exists sep rest, tail = String sep rest /\ isSeparator sep = true) ->
  commandOf (ws ++ tok ++ tail) = toUpperCase tok
  /\ requiredPrivilege (ws ++ tok ++ tail) = requiredPrivilege tok.
Proof.
  intros Hws Htok Hne Htail.
  pose proof (commandOf_leading ws tok tail Hws Htok Hne Htail) as Hfull.
  pose proof (commandOf_leading EmptyString tok EmptyString eq_refl Htok Hne
                (or_introl eq_refl)) as Halone.
  cbn [append] in Halone. rewrite append_empty in Halone.
  split; [exact Hfull|].
  unfold requiredPrivilege. now rewrite Hfull, Halone.
Qed.

Lemma only_leading_keyword_counts_witness :
  commandOf ("  " ++ "select" ++ " 1; drop table t") = toUpperCase "select"
  /\ requiredPrivilege ("  " ++ "select" ++ " 1; drop table t")
     = requiredPrivilege "select".
Proof.
  apply (only_leading_keyword_counts "  " "select" " 1; drop table t");
    [reflexivity | reflexivity | discriminate |].
  right. exists " "%char, "1; drop table t". split; reflexivity.
Defined.

(** ** Queries inside a checkpoint session *)

(** The [query] handler in checkpoint mode, case by case. *)
Lemma active_query_cases
  (E : Env) (config : Config) (sql : string) (m : Machine) (c : Client) :
  checkpointMode (session m) = true ->
  sessionClient (session m) = Some c ->
  permitted config sql = true ->
  queryTool E config sql m
  = let logged := (logs m ++ [LoggerInfo "Executing SQL query" sql])%list in
    let sent := (calls m ++ [ClientQuery c sql])%list in
    let next := checkpointCounter (session m) + 1 in
    match client_query E (calls m) c sql with
    | Failed detail =>
        (Throw (DriverError detail),
         {| session := session m; calls := sent; logs := logged |})
    | Ok result =>
        if isWrite sql then
          match client_query E sent c (savepointStatement next) with
          | Failed detail =>
              (Throw (DriverError detail),
               {| session := set_checkpointCounter next (session m);
                  calls := (sent ++ [ClientQuery c (savepointStatement next)])%list;
                  logs := logged |})
          | Ok _ =>
              (Return (responseText E (commandOf sql) result),
               {| session :=
                    set_checkpointHistory
                      (checkpointHistory (session m)
                       ++ [ {| cp_id := next; cp_query := sql;
                               cp_timestamp :=
                                 date_toISOString E
                                   (sent ++ [ClientQuery c
                                               (savepointStatement next)])
                            |} ])%list
                      (set_checkpointCounter next (session m));
                  calls := (sent ++ [ClientQuery c (savepointStatement next)])%list;
                  logs := logged |})
          end
        else
          (Return (responseText E (commandOf sql) result),
           {| session := session m; calls := sent; logs := logged |})
    end.
Proof.
  unfold permitted, isWrite, savepointStatement.
  intros Hmode Hc Hgate.
  unfold queryTool, checkPermissions, grantedPrivileges, createCheckpoint.
  rewrite Hgate. step_monad. rewrite Hmode, Hc. cbn [calls].
  destruct (client_query E (calls m) c sql) as [result|detail]; cbn [await];
    [|reflexivity].
  destruct (includes writeCommands (commandOf sql)); cbn beta iota;
    [|reflexivity].
  cbn [calls session checkpointCounter set_checkpointCounter
       checkpointHistory].
  destruct (client_query E _ c _) as [saved|detail]; cbn [await]; reflexivity.
Qed.

(** X5. A permitted query in an Active session is sent on the session's
    own connection: nothing is asked of the pool and nothing is released,
    the only calls are the statement and, after it, at most the savepoint
    of the next id, and the session stays Active on the same connection.
    When the statement is refused the driver's error is thrown and the
    session variables are untouched; a statement that is not a write
    leaves them untouched as well. *)
Theorem active_query_uses_session_connection
  (E : Env) (config : Config) (sql : string) (m m' : Machine) (c : Client)
  (out : Outcome string) :
  checkpointMode (session m) = true ->
  sessionClient (session m) = Some c ->
  permitted config sql = true ->
  queryTool E config sql m = (out, m') ->
  checkpointMode (session m') = true
  /\ sessionClient (session m') = Some c
  /\ (calls m' = (calls m ++ [ClientQuery c sql])%list
      \/ calls m'
         = (calls m ++ [ClientQuery c sql;
                        ClientQuery c (savepointStatement
                                         (checkpointCounter (session m) + 1))])%list)
  /\ (forall detail,
        client_query E (calls m) c sql = Failed detail ->
        out = Throw (DriverError detail) /\ session m' = session m)
  /\ (isWrite sql = false -> session m' = session m).
Proof.
  intros Hmode Hc Hgate.
  rewrite (active_query_cases E config sql m c Hmode Hc Hgate). cbn zeta.
  destruct (client_query E (calls m) c sql) as [result|detail] eqn:Hsql.
  - destruct (isWrite sql) eqn:Hwrite.
    + destruct (client_query E _ c (savepointStatement _)) as [saved|detail];
        intros [= <- <-];
        cbn [session calls checkpointMode sessionClient set_checkpointHistory
             set_checkpointCounter];
        rewrite <- app_assoc; cbn [app];
        (split; [exact Hmode|]); (split; [exact Hc|]);
        (split; [now right|]); (split; discriminate).
    + intros [= <- <-]. cbn [session calls].
      split; [exact Hmode|]. split; [exact Hc|]. split; [now left|].
      split; [discriminate | reflexivity].
  - intros [= <- <-]. cbn [session calls].
    split; [exact Hmode|]. split; [exact Hc|]. split; [now left|].
    split; [|reflexivity].
    intros d [= <-]. split; reflexivity.
Qed.

Lemma active_query_uses_session_connection_witness :
  checkpointMode (session oneCheckpointMachine) = true
  /\ permitted adminConfig "select 1" = true
  /\ session (snd (queryTool calmEnv adminConfig "select 1"
                     oneCheckpointMachine))
     = session oneCheckpointMachine.
Proof.
  split; [reflexivity|]. split; [reflexivity|].
  apply (active_query_uses_session_connection calmEnv adminConfig "select 1"
           oneCheckpointMachine _ 0%nat _ eq_refl eq_refl eq_refl eq_refl).
  reflexivity.
Defined.

(** X6. When a write succeeds in an Active session but its SAVEPOINT is
    refused, the call throws the driver's error, the counter has already
    advanced by one and no checkpoint is recorded: the write stays in the
    transaction without a checkpoint of its own, and its id is not used
    again. *)
Theorem savepoint_failure_skips_an_id
  (E : Env) (config : Config) (sql : string) (m : Machine) (c : Client)
  (result : QueryResult) (detail : string) :
  checkpointMode (session m) = true ->
  sessionClient (session m) = Some c ->
  permitted config sql = true ->
  isWrite sql = true ->
  client_query E (calls m) c sql = Ok result ->
  client_query E (calls m ++ [ClientQuery c sql])%list c
    (savepointStatement (checkpointCounter (session m) + 1)) = Failed detail ->
  exists m',
    queryTool E config sql m = (Throw (DriverError detail), m')
    /\ checkpointHistory (session m') = checkpointHistory (session m)
    /\ checkpointCounter (session m') = checkpointCounter (session m) + 1
    /\ checkpointMode (session m') = true.
Proof.
  intros Hmode Hc Hgate Hwrite Hsql Hsave.
  rewrite (active_query_cases E config sql m c Hmode Hc Hgate). cbn zeta.
  rewrite Hsql, Hwrite, Hsave.
  eexists. split; [reflexivity|].
  cbn [session checkpointHistory checkpointCounter checkpointMode
       set_checkpointCounter].
  repeat split; trivial.
Qed.

Lemma savepoint_failure_skips_an_id_witness :
  exists m',
    queryTool (refusingEnv "SAVEPOINT checkpoint_2" false) adminConfig
      "update t set a = 2" oneCheckpointMachine
    = (Throw (DriverError "statement refused"), m')
    /\ checkpointHistory (session m')
       = checkpointHistory (session oneCheckpointMachine)
    /\ checkpointCounter (session m')
       = checkpointCounter (session oneCheckpointMachine) + 1
    /\ checkpointMode (session m') = true.
Proof.
  apply (savepoint_failure_skips_an_id
           (refusingEnv "SAVEPOINT checkpoint_2" false) adminConfig
           "update t set a = 2" oneCheckpointMachine 0%nat okResult
           "statement refused"); reflexivity.
Defined.

(** ** Checkpoint numbering *)

Lemma successful_write
  (E : Env) (config : Config) (sql : string) (m : Machine) (c : Client) :
  acceptsAll E ->
  checkpointMode (session m) = true ->
  sessionClient (session m) = Some c ->
  permitted config sql = true ->
  isWrite sql = true ->
  let m' := snd (queryTool E config sql m) in
  checkpointMode (session m') = true
  /\ sessionClient (session m') = Some c
  /\ checkpointCounter (session m') = checkpointCounter (session m) + 1
  /\ exists stamp,
       checkpointHistory (session m')
       = (checkpointHistory (session m)
          ++ [ {| cp_id := checkpointCounter (session m) + 1;
                  cp_query := sql; cp_timestamp := stamp |} ])%list.
Proof.
  intros Hall Hmode Hc Hgate Hwrite.
  rewrite (active_query_cases E config sql m c Hmode Hc Hgate). cbn zeta.
  destruct (Hall (calls m) c sql) as [result ->]. rewrite Hwrite.
  destruct (Hall (calls m ++ [ClientQuery c sql])%list c
              (savepointStatement (checkpointCounter (session m) + 1)))
    as [saved ->].
  cbn [snd session checkpointMode sessionClient checkpointCounter
       checkpointHistory set_checkpointHistory set_checkpointCounter].
  repeat split; trivial. now eexists.
Qed.

Lemma shifted_ids (start : Z) (n : nat) :
  map (fun i => start + Z.of_nat i) (seq 2 n)
  = map (fun i => (start + 1) + Z.of_nat i) (seq 1 n).
Proof.
  rewrite <- (seq_shift n 1), map_map.
  apply map_ext. intros i. lia.
Qed.

(** X4. Checkpoints are numbered in the order of the writes.  In an
    Active session and a world where the database accepts every
    statement, running N permitted write statements appends N checkpoints
    whose ids are counter+1 .. counter+N and whose queries are the
    statements, in order, and advances the counter by N; the session stays
    Active on the same connection.  Right after [start] the ids are thus
    1 .. N. *)
Theorem writes_are_numbered_in_order
  (E : Env) (config : Config) (sqls : list string) :
  acceptsAll E ->
  Forall (fun sql => permitted config sql = true /\ isWrite sql = true) sqls ->
  forall (m : Machine) (c : Client),
    checkpointMode (session m) = true ->
    sessionClient (session m) = Some c ->
    let m' := run E config (map CallQuery sqls) m in
    historyIds (session m')
    = (historyIds (session m)
       ++ map (fun i => checkpointCounter (session m) + Z.of_nat i)
              (seq 1 (List.length sqls)))%list
    /\ map cp_query (checkpointHistory (session m'))
       = (map cp_query (checkpointHistory (session m)) ++ sqls)%list
    /\ checkpointCounter (session m')
       = checkpointCounter (session m) + Z.of_nat (List.length sqls)
    /\ checkpointMode (session m') = true
    /\ sessionClient (session m') = Some c.
Proof.
  intros Hall Hsqls.
  induction Hsqls as [|sql sqls [Hgate Hwrite] _ IH]; intros m c Hmode Hc.
  - cbn [map run List.length seq]. rewrite !app_nil_r.
    repeat split; trivial. lia.
  - cbn [map run invoke List.length].
    destruct (successful_write E config sql m c Hall Hmode Hc Hgate Hwrite)
      as [Hmode1 [Hc1 [Hcounter1 [stamp Hhistory1]]]].
    destruct (IH _ c Hmode1 Hc1) as [Hids [Hqueries [Hcounter [Hmode' Hc']]]].
    cbv zeta in *.
    unfold historyIds in *. rewrite Hhistory1 in Hids, Hqueries.
    rewrite map_app in Hids, Hqueries. cbn [map cp_id cp_query] in Hids, Hqueries.
    rewrite <- app_assoc in Hids, Hqueries. cbn [app] in Hids, Hqueries.
    rewrite Hcounter1 in Hids, Hcounter.
    split.
    { rewrite Hids. cbn [seq map]. now rewrite shifted_ids. }
    split; [exact Hqueries|].
    split; [rewrite Hcounter; lia|].
    split; assumption.
Qed.

Lemma acceptsAll_calmEnv : acceptsAll calmEnv.
Proof. intros cs c sql. now exists okResult. Qed.

Lemma writes_are_numbered_in_order_witness :
  acceptsAll calmEnv
  /\ checkpointMode (session startedMachine) = true
  /\ historyIds
       (session (run calmEnv adminConfig
                   (map CallQuery ["insert into t values (1)";
                                   "update t set a = 2"])
                   startedMachine))
     = (historyIds (session startedMachine)
        ++ map (fun i => checkpointCounter (session startedMachine)
                         + Z.of_nat i) (seq 1 2))%list.
Proof.
  split; [exact acceptsAll_calmEnv|]. split; [reflexivity|].
  apply (proj1 (writes_are_numbered_in_order calmEnv adminConfig
                  ["insert into t values (1)"; "update t set a = 2"]
                  acceptsAll_calmEnv
                  ltac:(repeat constructor)
                  startedMachine 0%nat eq_refl eq_refl)).
Defined.

(** ** What the handlers do to the session variables *)

Ltac calls_extended :=
  cbn [calls];
  first [ exists []; now rewrite app_nil_r
        | eexists; rewrite <- ?app_assoc; reflexivity ].

Lemma checkpointTool_effect
  (E : Env) (action : Action) (checkpointId : option Z) (m : Machine) :
  let m' := snd (checkpointTool E action checkpointId m) in
  (exists extra, calls m' = (calls m ++ extra)%list)
  /\ (session m' = session m
      \/ (checkpointMode (session m) = false
          /\ exists c, session m' = set_sessionClient (Some c) (session m))
      \/ (exists c, session m' = {| sessionClient := Some c;
                                    checkpointMode := true;
                                    checkpointHistory := [];
                                    checkpointCounter := 0 |})
      \/ (exists k, session m'
                    = set_checkpointHistory
                        (filter (fun cp => cp_id cp <=? k)
                                (checkpointHistory (session m))) (session m))
      \/ session m' = initialSession).
Proof.
  destruct action; unfold checkpointTool, missingId; step_monad;
    split_cases; cbn [snd session calls]; (split; [calls_extended|]);
    solve [ left; reflexivity
          | right; left; split; [reflexivity | eexists; reflexivity]
          | right; right; left; eexists; reflexivity
          | right; right; right; left; eexists; reflexivity
          | right; right; right; right; reflexivity ].
Qed.

Lemma denied_query_machine
  (E : Env) (config : Config) (sql : string) (m : Machine) :
  permitted config sql = false ->
  snd (queryTool E config sql m)
  = {| session := session m; calls := calls m;
       logs := logs m ++ [LoggerInfo "Executing SQL query" sql] |}.
Proof.
  unfold permitted. intros Hgate.
  unfold queryTool, checkPermissions, grantedPrivileges.
  now rewrite Hgate.
Qed.

Lemma normal_query_machine
  (E : Env) (config : Config) (sql : string) (m : Machine) :
  permitted config sql = true ->
  checkpointMode (session m) = false \/ sessionClient (session m) = None ->
  session (snd (queryTool E config sql m)) = session m
  /\ exists extra, calls (snd (queryTool E config sql m))
                   = (calls m ++ extra)%list.
Proof.
  unfold permitted. intros Hgate Hnormal.
  assert (Hbranch :
    queryTool E config sql m
    = bind (connect E)
           (fun client => autoCommit E config client sql (commandOf sql))
           {| session := session m; calls := calls m;
              logs := logs m ++ [LoggerInfo "Executing SQL query" sql] |}).
  { unfold queryTool, checkPermissions, grantedPrivileges.
    rewrite Hgate. cbn [negb]. unfold bind at 1. unfold log at 1.
    unfold bind at 1. unfold liftOutcome.
    unfold bind at 1. unfold getSession at 1. cbn [session].
    destruct Hnormal as [-> | ->]; [reflexivity|].
    now destruct (checkpointMode (session m)). }
  rewrite Hbranch. step_monad.
  destruct (pool_connect E (calls m)) as [client|detail]; cbn [await].
  - destruct (autoCommit E config client sql (commandOf sql) _)
      as [out m'] eqn:Hrun.
    apply autoCommit_contract in Hrun.
    destruct Hrun as [Hsession [stmts [Hcalls _]]].
    cbn [snd session calls] in *. split; [exact Hsession|].
    rewrite Hcalls. eexists. rewrite <- app_assoc. reflexivity.
  - cbn [snd session calls]. split; [reflexivity | calls_extended].
Qed.

Lemma queryTool_effect
  (E : Env) (config : Config) (sql : string) (m : Machine) :
  let m' := snd (queryTool E config sql m) in
  let next := checkpointCounter (session m) + 1 in
  (exists extra, calls m' = (calls m ++ extra)%list)
  /\ (session m' = session m
      \/ (checkpointMode (session m) = true
          /\ permitted config sql = true /\ isWrite sql = true
          /\ (session m' = set_checkpointCounter next (session m)
              \/ exists c stamp,
                   sessionClient (session m) = Some c
                   /\ session m'
                      = set_checkpointHistory
                          (checkpointHistory (session m)
                           ++ [ {| cp_id := next; cp_query := sql;
                                   cp_timestamp := stamp |} ])%list
                          (set_checkpointCounter next (session m))
                   /\ In (ClientQuery c (savepointStatement next))
                         (calls m')))).
Proof.
  cbv zeta.
  destruct (permitted config sql) eqn:Hgate.
  - destruct (checkpointMode (session m)) eqn:Hmode;
      [destruct (sessionClient (session m)) as [c|] eqn:Hc|].
    + rewrite (active_query_cases E config sql m c Hmode Hc Hgate). cbv zeta.
      destruct (client_query E (calls m) c sql) as [result|detail];
        [|cbn [snd session calls]; split; [calls_extended | now left]].
      destruct (isWrite sql) eqn:Hwrite;
        [|cbn [snd session calls]; split; [calls_extended | now left]].
      destruct (client_query E _ c (savepointStatement _)) as [saved|detail];
        cbn [snd session calls]; (split; [calls_extended|]); right;
        (split; [reflexivity|]); (split; [reflexivity|]);
        (split; [reflexivity|]); [right | now left].
      exists c. eexists. split; [reflexivity|]. split; [reflexivity|].
      rewrite !in_app_iff. right. now left.
    + destruct (normal_query_machine E config sql m Hgate (or_intror Hc))
        as [Hsession Hcalls].
      split; [exact Hcalls | now left].
    + destruct (normal_query_machine E config sql m Hgate (or_introl Hmode))
        as [Hsession Hcalls].
      split; [exact Hcalls | now left].
  - rewrite (denied_query_machine E config sql m Hgate).
    cbn [snd session calls]. split; [calls_extended | now left].
Qed.

Lemma invoke_keeps_shape
  (E : Env) (config : Config) (call : Call) (m : Machine) :
  sessionShape m /\ savepointsCreated m ->
  sessionShape (snd (invoke E config call m))
  /\ savepointsCreated (snd (invoke E config call m)).
Proof.
  unfold sessionShape, savepointsCreated.
  intros [[Hactive Hidle] Hsaved].
  destruct call as [action checkpointId | sql]; cbn [invoke].
  - destruct (checkpointTool_effect E action checkpointId m)
      as [[extra Hcalls] Heffect].
    cbv zeta in *. rewrite Hcalls.
    destruct Heffect
      as [-> | [[Hmode [c ->]] | [[c ->] | [[k ->] | ->]]]];
      cbn [set_sessionClient set_checkpointHistory sessionClient
           checkpointMode checkpointHistory checkpointCounter initialSession].
    + split; [split; assumption|].
      intros c cp Hc Hin. apply in_app_iff. left. now apply Hsaved.
    + destruct (Hidle Hmode) as [Hhistory Hcounter].
      split; [split; [congruence | intros _; now split]|].
      rewrite Hhistory. intros c0 cp _ [].
    + split; [split; [intros _; now exists c | discriminate]|].
      intros c0 cp _ [].
    + split; [split; [exact Hactive|]|].
      * intros Hmode. destruct (Hidle Hmode) as [-> Hcounter]. now split.
      * intros c cp Hc Hin. apply filter_In in Hin. destruct Hin as [Hin _].
        apply in_app_iff. left. now apply Hsaved.
    + split; [split; [discriminate | intros _; now split]|].
      intros c cp _ [].
  - destruct (queryTool_effect E config sql m) as [[extra Hcalls] Heffect].
    cbv zeta in *.
    destruct Heffect
      as [-> | [Hmode [_ [_ [-> | [c [stamp [Hc [-> Hnew]]]]]]]]];
      cbn [set_checkpointCounter set_checkpointHistory sessionClient
           checkpointMode checkpointHistory checkpointCounter].
    + split; [split; assumption|].
      intros c cp Hc Hin. rewrite Hcalls. apply in_app_iff. left.
      now apply Hsaved.
    + split; [split; [exact Hactive | congruence]|].
      intros c cp Hc Hin. rewrite Hcalls. apply in_app_iff. left.
      now apply Hsaved.
    + split; [split; [exact Hactive | congruence]|].
      intros c0 cp Hc0 Hin. assert (c0 = c) as -> by congruence.
      apply in_app_iff in Hin. destruct Hin as [Hin | [<- | []]].
      * rewrite Hcalls. apply in_app_iff. left. now apply Hsaved.
      * exact Hnew.
Qed.

Lemma reachable_shape (E : Env) (config : Config) (m : Machine) :
  reachable E config m -> sessionShape m /\ savepointsCreated m.
Proof.
  intros [cs <-].
  assert (Hrun : forall m0,
    sessionShape m0 /\ savepointsCreated m0 ->
    sessionShape (run E config cs m0)
    /\ savepointsCreated (run E config cs m0)).
  { induction cs as [|call rest IH]; intros m0 H0; cbn [run]; [exact H0|].
    apply IH. now apply invoke_keeps_shape. }
  apply Hrun. split.
  - split; [discriminate | intros _; now split].
  - intros c cp _ [].
Qed.

(** X8. In every reachable state, checkpoint mode implies that the
    session holds a connection, and outside checkpoint mode the history is
    empty and the counter is zero: checkpoints exist only inside a
    session. *)
Theorem reachable_sessions_are_well_formed
  (E : Env) (config : Config) (m : Machine) :
  reachable E config m ->
  (checkpointMode (session m) = true -> Active (session m))
  /\ (Idle (session m) ->
      checkpointHistory (session m) = []
      /\ checkpointCounter (session m) = 0).
Proof.
  intros Hreach.
  destruct (reachable_shape E config m Hreach) as [[Hactive Hidle] _].
  split; [|exact Hidle].
  intros Hmode. split; [exact Hmode | exact (Hactive Hmode)].
Qed.

Lemma reachable_sessions_are_well_formed_witness :
  reachable calmEnv adminConfig rolledBackMachine
  /\ Active (session rolledBackMachine).
Proof.
  assert (Hreach : reachable calmEnv adminConfig rolledBackMachine).
  { eexists. reflexivity. }
  split; [exact Hreach|].
  apply (proj1 (reachable_sessions_are_well_formed calmEnv adminConfig
                  rolledBackMachine Hreach)).
  reflexivity.
Defined.

(** X9. In every reachable state each checkpoint of the history has a
    savepoint of its own name: the statement SAVEPOINT checkpoint_<id> was
    sent on the connection that the session holds. *)
Theorem every_checkpoint_has_its_savepoint
  (E : Env) (config : Config) (m : Machine) (c : Client) (cp : Checkpoint) :
  reachable E config m ->
  sessionClient (session m) = Some c ->
  In cp (checkpointHistory (session m)) ->
  In (ClientQuery c ("SAVEPOINT checkpoint_" ++ ofNumber (cp_id cp)))
     (calls m).
Proof.
  intros Hreach Hc Hin.
  destruct (reachable_shape E config m Hreach) as [_ Hsaved].
  exact (Hsaved c cp Hc Hin).
Qed.

Lemma every_checkpoint_has_its_savepoint_witness :
  reachable calmEnv adminConfig oneCheckpointMachine
  /\ In (ClientQuery 0%nat "SAVEPOINT checkpoint_1")
        (calls oneCheckpointMachine).
Proof.
  assert (Hreach : reachable calmEnv adminConfig oneCheckpointMachine).
  { eexists. reflexivity. }
  split; [exact Hreach|].
  apply (every_checkpoint_has_its_savepoint calmEnv adminConfig
           oneCheckpointMachine 0%nat
           {| cp_id := 1; cp_query := "insert into t values (1)";
              cp_timestamp := "2024-01-01T00:00:00.000Z" |} Hreach eq_refl).
  left. reflexivity.
Defined.

(** ** The read role *)

Lemma select_only_is_not_a_write (sql : string) :
  includes ["SELECT"] (requiredPrivilege sql) = true ->
  isWrite sql = false.
Proof.
  unfold includes at 1. cbn [existsb]. rewrite orb_false_r.
  intros Hselect. apply String.eqb_eq in Hselect.
  unfold isWrite. unfold requiredPrivilege in Hselect.
  destruct (includes readCommands (commandOf sql)) eqn:Hread.
  - unfold includes in Hread. apply existsb_exists in Hread.
    destruct Hread as [word [Hin Heq]]. apply String.eqb_eq in Heq.
    rewrite Heq.
    cbn [readCommands In] in Hin.
    destruct Hin as [<- | [<- | [<- | [<- | []]]]]; reflexivity.
  - destruct (String.eqb (commandOf sql) "RENAME"); [discriminate|].
    rewrite Hselect in Hread. discriminate Hread.
Qed.

(** X3. Under the role [read] no statement that passes the gate is taken
    for a write, so no checkpoint is ever created: in every reachable
    state the history is empty and the counter is zero, checkpoint mode or
    not. *)
Theorem read_role_never_checkpoints
  (E : Env) (config : Config) (m : Machine) :
  role config = read ->
  reachable E config m ->
  (forall sql, permitted config sql = true -> isWrite sql = false)
  /\ checkpointHistory (session m) = []
  /\ checkpointCounter (session m) = 0.
Proof.
  intros Hrole Hreach.
  assert (Hgate : forall sql, permitted config sql = true -> isWrite sql = false).
  { intros sql. unfold permitted. rewrite Hrole.
    apply select_only_is_not_a_write. }
  split; [exact Hgate|].
  destruct Hreach as [cs <-].
  assert (Hrun : forall m0,
    checkpointHistory (session m0) = [] /\ checkpointCounter (session m0) = 0 ->
    checkpointHistory (session (run E config cs m0)) = []
    /\ checkpointCounter (session (run E config cs m0)) = 0).
  { induction cs as [|call rest IH]; intros m0 [Hh Hn]; cbn [run];
      [now split|].
    apply IH. destruct call as [action checkpointId | sql]; cbn [invoke].
    - destruct (checkpointTool_effect E action checkpointId m0)
        as [_ Heffect].
      cbv zeta in Heffect.
      destruct Heffect
        as [-> | [[_ [c ->]] | [[c ->] | [[k ->] | ->]]]];
        cbn [set_sessionClient set_checkpointHistory checkpointHistory
             checkpointCounter initialSession];
        rewrite ?Hh; now split.
    - destruct (queryTool_effect E config sql m0) as [_ Heffect].
      cbv zeta in Heffect.
      destruct Heffect as [-> | [_ [Hpermitted [Hwrite _]]]]; [now split|].
      rewrite (Hgate sql Hpermitted) in Hwrite. discriminate Hwrite. }
  apply Hrun. now split.
Qed.

Lemma read_role_never_checkpoints_witness :
  role readConfig = read
  /\ reachable calmEnv readConfig readOnlyMachine
  /\ checkpointMode (session readOnlyMachine) = true
  /\ checkpointHistory (session readOnlyMachine) = [].
Proof.
  assert (Hreach : reachable calmEnv readConfig readOnlyMachine).
  { eexists. reflexivity. }
  split; [reflexivity|]. split; [exact Hreach|]. split; [reflexivity|].
  exact (proj1 (proj2 (read_role_never_checkpoints calmEnv readConfig
                         readOnlyMachine eq_refl Hreach))).
Defined.

(** ** Opening a session *)

(** X7. [start] in an Idle session asks the pool for a connection and
    sends BEGIN on it.  If the pool refuses, the call throws and nothing
    else happened.  If BEGIN is refused, the call throws, the session
    stays Idle, yet the connection is kept in [sessionClient] and is not
    released.  If both succeed, the session is Active on that connection
    with an empty history and a zero counter, whatever the role. *)
Theorem start_from_idle (E : Env) (checkpointId : option Z) (m : Machine) :
  Idle (session m) ->
  match pool_connect E (calls m) with
  | Failed detail =>
      checkpointTool E Start checkpointId m
      = (Throw (DriverError detail),
         {| session := session m; calls := calls m ++ [PoolConnect];
            logs := logs m |})
  | Ok c =>
      match client_query E (calls m ++ [PoolConnect]) c "BEGIN" with
      | Failed detail =>
          checkpointTool E Start checkpointId m
          = (Throw (DriverError detail),
             {| session := set_sessionClient (Some c) (session m);
                calls := calls m ++ [PoolConnect; ClientQuery c "BEGIN"];
                logs := logs m |})
      | Ok _ =>
          exists r,
            checkpointTool E Start checkpointId m
            = (Return r,
               {| session := {| sessionClient := Some c;
                                checkpointMode := true;
                                checkpointHistory := [];
                                checkpointCounter := 0 |};
                  calls := calls m ++ [PoolConnect; ClientQuery c "BEGIN"];
                  logs := logs m |})
      end
  end.
Proof.
  unfold Idle. intros Hmode. unfold checkpointTool. step_monad.
  rewrite Hmode.
  destruct (pool_connect E (calls m)) as [c|detail]; cbn [await];
    [|reflexivity].
  destruct (client_query E _ c "BEGIN") as [result|detail]; cbn [await];
    rewrite <- app_assoc; cbn [app]; [|reflexivity].
  eexists. reflexivity.
Qed.

Lemma start_from_idle_witness :
  Idle (session initialMachine)
  /\ checkpointTool (refusingEnv "BEGIN" false) Start None initialMachine
     = (Throw (DriverError "statement refused"),
        {| session := set_sessionClient (Some 0%nat) initialSession;
           calls := [PoolConnect; ClientQuery 0%nat "BEGIN"];
           logs := [] |}).
Proof.
  split; [reflexivity|].
  exact (start_from_idle (refusingEnv "BEGIN" false) None initialMachine
           eq_refl).
Defined.

(** X10. When the pool refuses the connection of a permitted query in
    normal mode, the call throws the pool's error; no statement is sent,
    nothing is released and the session variables are untouched. *)
Theorem idle_query_without_connection
  (E : Env) (config : Config) (sql : string) (m : Machine) (detail : string) :
  permitted config sql = true ->
  Idle (session m) ->
  pool_connect E (calls m) = Failed detail ->
  queryTool E config sql m
  = (Throw (DriverError detail),
     {| session := session m; calls := calls m ++ [PoolConnect];
        logs := logs m ++ [LoggerInfo "Executing SQL query" sql] |}).
Proof.
  unfold permitted, Idle. intros Hgate Hmode Hpool.
  unfold queryTool, checkPermissions, grantedPrivileges.
  rewrite Hgate. step_monad. rewrite Hmode. cbn [calls].
  now rewrite Hpool.
Qed.

Lemma idle_query_without_connection_witness :
  permitted adminConfig "select 1" = true
  /\ queryTool exhaustedEnv adminConfig "select 1" initialMachine
     = (Throw (DriverError "pool exhausted"),
        {| session := initialSession; calls := [PoolConnect];
           logs := [LoggerInfo "Executing SQL query" "select 1"] |}).
Proof.
  split; [reflexivity|].
  apply (idle_query_without_connection exhaustedEnv adminConfig "select 1"
           initialMachine "pool exhausted"); reflexivity.
Defined.

(** ** The [tables] resource *)

(** X11. The [tables] resource never looks at the session or at the role:
    in any state it takes a connection of its own from the pool, sends its
    one fixed query and releases the connection, whether the query
    succeeded or not.  It returns the table names one per line, or throws
    the driver's error; the session variables are untouched.  When the
    pool refuses, it throws and sends nothing. *)
Theorem tables_resource_releases
  (E : Env) (table_name : Row -> SqlText) (href : string) (m : Machine) :
  match pool_connect E (calls m) with
  | Failed detail =>
      tablesResource E table_name href m
      = (Throw (DriverError detail),
         {| session := session m; calls := calls m ++ [PoolConnect];
            logs := logs m |})
  | Ok c =>
      exists out,
        tablesResource E table_name href m
        = (out,
           {| session := session m;
              calls := calls m ++ [PoolConnect; ClientQuery c tablesQuery;
                                   ClientRelease c];
              logs := logs m |})
        /\ match client_query E (calls m ++ [PoolConnect]) c tablesQuery with
           | Failed detail => out = Throw (DriverError detail)
           | Ok result =>
               out = Return
                       {| rc_uri := href; rc_mimeType := "text/plain";
                          rc_text :=
                            join newline
                                 (map (fun row => joinElement (table_name row))
                                      (rows result)) |}
           end
  end.
Proof.
  unfold tablesResource. step_monad.
  destruct (pool_connect E (calls m)) as [c|detail]; cbn [await];
    [|reflexivity].
  destruct (client_query E _ c tablesQuery) as [result|detail]; cbn [await];
    cbn [session calls logs]; rewrite <- !app_assoc; cbn [app];
    eexists; split; reflexivity.
Qed.

Example tables_resource_in_session :
  tablesResource catalogEnv SqlString "postgres://tables" oneCheckpointMachine
  = (Return {| rc_uri := "postgres://tables"; rc_mimeType := "text/plain";
               rc_text := "checkpoints" ++ newline ++ "users" |},
     {| session := session oneCheckpointMachine;
        calls := calls oneCheckpointMachine
                 ++ [PoolConnect; ClientQuery 4%nat tablesQuery;
                     ClientRelease 4%nat];
        logs := logs oneCheckpointMachine |}).
Proof. reflexivity. Qed.

(** * The Slack OAuth provider *)

(** ** The stores *)

Lemma get_set_same {V} (k : string) (v : V) (m : Slack.JsMap V) :
  Slack.get k (Slack.set k v m) = Some v.
Proof.
  induction m as [|[k' v'] m IH]; cbn [Slack.set Slack.get].
  - now rewrite String.eqb_refl.
  - destruct (String.eqb k k') eqn:Hk; cbn [Slack.get].
    + now rewrite String.eqb_refl.
    + now rewrite Hk.
Qed.

Lemma get_set_other {V} (k k' : string) (v : V) (m : Slack.JsMap V) :
  k' <> k -> Slack.get k' (Slack.set k v m) = Slack.get k' m.
Proof.
  intros Hne. apply String.eqb_neq in Hne.
  induction m as [|[k0 v0] m IH]; cbn [Slack.set Slack.get].
  - now rewrite Hne.
  - destruct (String.eqb k k0) eqn:Hk; cbn [Slack.get].
    + apply String.eqb_eq in Hk. subst k0. now rewrite Hne.
    + now rewrite IH.
Qed.

Lemma get_delete_same {V} (k : string) (m : Slack.JsMap V) :
  Slack.get k (Slack.delete k m) = None.
Proof.
  unfold Slack.delete.
  induction m as [|[k' v'] m IH]; cbn [filter Slack.get fst]; [reflexivity|].
  destruct (String.eqb k k') eqn:Hk; cbn [negb Slack.get]; [exact IH|].
  now rewrite Hk.
Qed.

Lemma get_delete_other {V} (k k' : string) (m : Slack.JsMap V) :
  k' <> k -> Slack.get k' (Slack.delete k m) = Slack.get k' m.
Proof.
  intros Hne. unfold Slack.delete.
  induction m as [|[k0 v0] m IH]; cbn [filter Slack.get fst]; [reflexivity|].
  destruct (String.eqb k k0) eqn:Hk; cbn [negb Slack.get].
  - apply String.eqb_eq in Hk. subst k0.
    apply String.eqb_neq in Hne. now rewrite Hne.
  - now rewrite IH.
Qed.

(** ** Authorization codes *)

(** X12. An authorization code can be exchanged once.  A successful
    exchange returns the bearer token stored for the code and removes the
    code; exchanging it again, or asking for its challenge, then fails with
    "Invalid authorization code" and changes nothing.  The other codes and
    the login sessions are untouched. *)
Theorem authorization_code_is_single_use
  (code : string) (s s' : Slack.State) (tokens : Slack.OAuthTokens) :
  Slack.exchangeAuthorizationCode code s = (Slack.Done tokens, s') ->
  (exists pending,
     Slack.get code (Slack.pendingAuthCodes s) = Some pending
     /\ Slack.access_token tokens = Slack.mcpAccessToken pending
     /\ Slack.token_type tokens = "Bearer")
  /\ Slack.exchangeAuthorizationCode code s'
     = (Slack.Raised (Slack.PlainError "Invalid authorization code"), s')
  /\ Slack.challengeForAuthorizationCode code s'
     = (Slack.Raised (Slack.PlainError "Invalid authorization code"), s')
  /\ (forall other, other <> code ->
        Slack.get other (Slack.pendingAuthCodes s')
        = Slack.get other (Slack.pendingAuthCodes s))
  /\ Slack.sessionStore s' = Slack.sessionStore s.
Proof.
  unfold Slack.exchangeAuthorizationCode at 1.
  destruct (Slack.get code (Slack.pendingAuthCodes s)) as [pending|] eqn:Hget;
    cbn [option_map]; [|discriminate].
  destruct (Slack.mcpAccessToken pending) as [|c r] eqn:Htoken; [discriminate|].
  intros [= <- <-].
  split; [exists pending; cbn; now rewrite Htoken|].
  unfold Slack.exchangeAuthorizationCode, Slack.challengeForAuthorizationCode.
  cbn [Slack.pendingAuthCodes Slack.sessionStore].
  rewrite get_delete_same. cbn [option_map].
  repeat split; trivial.
  intros other Hne. now apply get_delete_other.
Qed.

(** X13. An exchange fails exactly when the code is unknown or the token
    stored for it is empty; it then throws "Invalid authorization code"
    and leaves the provider as it was (an entry with an empty token is
    kept). *)
Theorem failed_exchange_changes_nothing (code : string) (s : Slack.State) :
  (Slack.get code (Slack.pendingAuthCodes s) = None
   \/ exists pending,
        Slack.get code (Slack.pendingAuthCodes s) = Some pending
        /\ Slack.mcpAccessToken pending = EmptyString)
  <-> Slack.exchangeAuthorizationCode code s
      = (Slack.Raised (Slack.PlainError "Invalid authorization code"), s).
Proof.
  unfold Slack.exchangeAuthorizationCode.
  destruct (Slack.get code (Slack.pendingAuthCodes s)) as [pending|];
    cbn [option_map].
  - destruct (Slack.mcpAccessToken pending) as [|c r] eqn:Htoken; split.
    + reflexivity.
    + intros _. right. exists pending. now split.
    + intros [Hnone | [p [[= <-] Hempty]]]; [discriminate|].
      rewrite Htoken in Hempty. discriminate.
    + discriminate.
  - split; [reflexivity | now left].
Qed.

(** ** The OAuth callback *)

(** The callback, answer by answer: what the session store holds for
    [state], what Slack answers to the posted form, and whether the payload
    could be sealed. *)
Lemma callback_cases
  (E : Slack.Env) (code state : string) (host : option string)
  (s : Slack.State) :
  Slack.handleOAuthCallback E code state host s
  = match Slack.get state (Slack.sessionStore s) with
    | None => (Slack.Raised (Slack.PlainError "Invalid state parameter"), s)
    | Some sessionData =>
        match Slack.oauth_access E (Slack.posted s)
                (callbackForm E code host) with
        | Failed detail =>
            (Slack.Raised (Slack.Foreign detail),
             afterPost (callbackForm E code host) s)
        | Ok data =>
            if Slack.data_ok data then
              match Slack.pasetoEncrypt E (Slack.GLOBAL_SECRET E)
                      (callbackPayload data sessionData) with
              | Failed detail =>
                  (Slack.Raised (Slack.Foreign detail),
                   {| Slack.pendingAuthCodes := Slack.pendingAuthCodes s;
                      Slack.sessionStore := Slack.sessionStore s;
                      Slack.posted :=
                        (Slack.posted s ++ [callbackForm E code host])%list;
                      Slack.redirected := Slack.redirected s;
                      Slack.draws := S (Slack.draws s);
                      Slack.consoleErrors := Slack.consoleErrors s |})
              | Ok token =>
                  (Slack.Done (Slack.randomHex E (Slack.draws s),
                               Slack.sessionRedirectUri sessionData),
                   {| Slack.pendingAuthCodes :=
                        Slack.set (Slack.randomHex E (Slack.draws s))
                          {| Slack.mcpAccessToken := token;
                             Slack.pendingChallenge :=
                               Slack.sessionChallenge sessionData |}
                          (Slack.pendingAuthCodes s);
                      Slack.sessionStore :=
                        Slack.delete state (Slack.sessionStore s);
                      Slack.posted :=
                        (Slack.posted s ++ [callbackForm E code host])%list;
                      Slack.redirected := Slack.redirected s;
                      Slack.draws := S (Slack.draws s);
                      Slack.consoleErrors := Slack.consoleErrors s |})
              end
            else
              (Slack.Raised (Slack.PlainError "Failed to exchange code"),
               afterPost (callbackForm E code host) s)
        end
    end.
Proof.
  unfold Slack.handleOAuthCallback, callbackForm, callbackPayload, afterPost,
    Slack.localKey.
  cbv zeta.
  destruct (Slack.get state (Slack.sessionStore s)) as [sessionData|];
    [|reflexivity].
  destruct (Slack.oauth_access E _ _) as [data|detail]; [|reflexivity].
  destruct (Slack.data_ok data); reflexivity.
Qed.

(** X14. A callback that fails leaves both stores as they were, and the
    answers it gets decide how it fails.  With an unknown [state] it throws
    "Invalid state parameter" and the provider is as before: nothing was
    posted to Slack.  With a known [state] the form is posted once; when
    Slack answers with [ok] unset the callback throws "Failed to exchange
    code", when the post itself fails it throws that failure, and in both
    cases the provider differs only by the posted form, so the login
    session is still there.  When the payload cannot be sealed the
    callback throws that failure after the post and the draw of the code,
    again with both stores as they were.  No failing callback changes a
    store. *)
Theorem failed_callback_keeps_stores
  (E : Slack.Env) (code state : string) (host : option string)
  (s : Slack.State) :
  (Slack.get state (Slack.sessionStore s) = None ->
   Slack.handleOAuthCallback E code state host s
   = (Slack.Raised (Slack.PlainError "Invalid state parameter"), s))
  /\ (forall sessionData data,
        Slack.get state (Slack.sessionStore s) = Some sessionData ->
        Slack.oauth_access E (Slack.posted s) (callbackForm E code host)
        = Ok data ->
        Slack.data_ok data = false ->
        Slack.handleOAuthCallback E code state host s
        = (Slack.Raised (Slack.PlainError "Failed to exchange code"),
           afterPost (callbackForm E code host) s)
        /\ Slack.get state
             (Slack.sessionStore (afterPost (callbackForm E code host) s))
           = Some sessionData)
  /\ (forall sessionData detail,
        Slack.get state (Slack.sessionStore s) = Some sessionData ->
        Slack.oauth_access E (Slack.posted s) (callbackForm E code host)
        = Failed detail ->
        Slack.handleOAuthCallback E code state host s
        = (Slack.Raised (Slack.Foreign detail),
           afterPost (callbackForm E code host) s))
  /\ (forall sessionData data detail,
        Slack.get state (Slack.sessionStore s) = Some sessionData ->
        Slack.oauth_access E (Slack.posted s) (callbackForm E code host)
        = Ok data ->
        Slack.data_ok data = true ->
        Slack.pasetoEncrypt E (Slack.GLOBAL_SECRET E)
          (callbackPayload data sessionData) = Failed detail ->
        Slack.handleOAuthCallback E code state host s
        = (Slack.Raised (Slack.Foreign detail),
           {| Slack.pendingAuthCodes := Slack.pendingAuthCodes s;
              Slack.sessionStore := Slack.sessionStore s;
              Slack.posted :=
                (Slack.posted s ++ [callbackForm E code host])%list;
              Slack.redirected := Slack.redirected s;
              Slack.draws := S (Slack.draws s);
              Slack.consoleErrors := Slack.consoleErrors s |}))
  /\ (forall e s',
        Slack.handleOAuthCallback E code state host s = (Slack.Raised e, s') ->
        Slack.pendingAuthCodes s' = Slack.pendingAuthCodes s
        /\ Slack.sessionStore s' = Slack.sessionStore s).
Proof.
  rewrite callback_cases.
  split; [intros ->; reflexivity|].
  split; [intros sd data Hget -> ->; rewrite Hget; now split|].
  split; [intros sd detail -> ->; reflexivity|].
  split; [intros sd data detail -> -> -> ->; reflexivity|].
  intros e s'.
  destruct (Slack.get state (Slack.sessionStore s)) as [sessionData|].
  - destruct (Slack.oauth_access E _ _) as [data|detail].
    + destruct (Slack.data_ok data).
      * destruct (Slack.pasetoEncrypt E _ _) as [token|detail];
          [discriminate|].
        intros [= <- <-]. now split.
      * intros [= <- <-]. now split.
    + intros [= <- <-]. now split.
  - intros [= <- <-]. now split.
Qed.

(** X15. A callback succeeds exactly when the [state] names a login
    session, Slack answers the posted form with [ok] set, and the payload
    made of the access token in that answer, the session's client id and
    its scopes can be sealed.  It then returns the freshly drawn code and
    the redirect URL the session asked for; the form was posted once; the
    code is registered with the sealed payload as its token and the
    session's challenge (the empty string when it had none) and no other
    code is touched; the [state] is gone from the session store, the other
    sessions are kept, and replaying the callback throws "Invalid state
    parameter" without posting to Slack again. *)
Theorem successful_callback_consumes_state
  (E : Slack.Env) (code state : string) (host : option string)
  (s : Slack.State) :
  (forall sessionData data token,
     Slack.get state (Slack.sessionStore s) = Some sessionData ->
     Slack.oauth_access E (Slack.posted s) (callbackForm E code host)
     = Ok data ->
     Slack.data_ok data = true ->
     Slack.pasetoEncrypt E (Slack.GLOBAL_SECRET E)
       (callbackPayload data sessionData) = Ok token ->
     let mcpAuthCode := Slack.randomHex E (Slack.draws s) in
     let pending := {| Slack.mcpAccessToken := token;
                       Slack.pendingChallenge :=
                         Slack.sessionChallenge sessionData |} in
     let s' := {| Slack.pendingAuthCodes :=
                    Slack.set mcpAuthCode pending (Slack.pendingAuthCodes s);
                  Slack.sessionStore :=
                    Slack.delete state (Slack.sessionStore s);
                  Slack.posted :=
                    (Slack.posted s ++ [callbackForm E code host])%list;
                  Slack.redirected := Slack.redirected s;
                  Slack.draws := S (Slack.draws s);
                  Slack.consoleErrors := Slack.consoleErrors s |} in
     Slack.handleOAuthCallback E code state host s
     = (Slack.Done (mcpAuthCode, Slack.sessionRedirectUri sessionData), s')
     /\ Slack.get mcpAuthCode (Slack.pendingAuthCodes s') = Some pending
     /\ (forall other, other <> mcpAuthCode ->
           Slack.get other (Slack.pendingAuthCodes s')
           = Slack.get other (Slack.pendingAuthCodes s))
     /\ Slack.get state (Slack.sessionStore s') = None
     /\ (forall other, other <> state ->
           Slack.get other (Slack.sessionStore s')
           = Slack.get other (Slack.sessionStore s))
     /\ (forall code' host',
           Slack.handleOAuthCallback E code' state host' s'
           = (Slack.Raised (Slack.PlainError "Invalid state parameter"), s'))
     /\ Slack.challengeForAuthorizationCode mcpAuthCode s'
        = (Slack.Done (match Slack.sessionChallenge sessionData with
                       | Some challenge => challenge
                       | None => EmptyString
                       end), s'))
  /\ (forall mcpAuthCode redirectUrl s',
        Slack.handleOAuthCallback E code state host s
        = (Slack.Done (mcpAuthCode, redirectUrl), s') ->
        exists sessionData data token,
          Slack.get state (Slack.sessionStore s) = Some sessionData
          /\ Slack.oauth_access E (Slack.posted s) (callbackForm E code host)
             = Ok data
          /\ Slack.data_ok data = true
          /\ Slack.pasetoEncrypt E (Slack.GLOBAL_SECRET E)
               (callbackPayload data sessionData) = Ok token).
Proof.
  split.
  - intros sessionData data token Hget Hpost Hok Hseal mcpAuthCode pending s'.
    split; [rewrite callback_cases, Hget, Hpost, Hok, Hseal; reflexivity|].
    subst s'. cbn [Slack.pendingAuthCodes Slack.sessionStore].
    split; [apply get_set_same|].
    split; [intros other Hne; now apply get_set_other|].
    split; [apply get_delete_same|].
    split; [intros other Hne; now apply get_delete_other|].
    split.
    + intros code' host'. rewrite callback_cases.
      cbn [Slack.sessionStore]. now rewrite get_delete_same.
    + unfold Slack.challengeForAuthorizationCode.
      cbn [Slack.pendingAuthCodes]. now rewrite get_set_same.
  - intros mcpAuthCode redirectUrl s'. rewrite callback_cases.
    destruct (Slack.get state (Slack.sessionStore s)) as [sessionData|];
      [|discriminate].
    destruct (Slack.oauth_access E _ _) as [data|detail]; [|discriminate].
    destruct (Slack.data_ok data) eqn:Hok; [|discriminate].
    destruct (Slack.pasetoEncrypt E _ _) as [token|detail] eqn:Hseal;
      [|discriminate].
    intros _. exists sessionData, data, token. now repeat split.
Qed.

Lemma authorization_code_is_single_use_witness :
  Slack.exchangeAuthorizationCode "r1" calledBackState
  = (Slack.Done {| Slack.access_token := "v4.local.xoxb-1";
                   Slack.token_type := "Bearer" |},
     snd (Slack.exchangeAuthorizationCode "r1" calledBackState))
  /\ Slack.exchangeAuthorizationCode "r1"
       (snd (Slack.exchangeAuthorizationCode "r1" calledBackState))
     = (Slack.Raised (Slack.PlainError "Invalid authorization code"),
        snd (Slack.exchangeAuthorizationCode "r1" calledBackState)).
Proof.
  split; [reflexivity|].
  exact (proj1 (proj2 (authorization_code_is_single_use "r1" calledBackState
                         _ _ eq_refl))).
Defined.

Lemma failed_exchange_changes_nothing_witness :
  Slack.get "r0" (Slack.pendingAuthCodes calledBackState) = None
  /\ Slack.exchangeAuthorizationCode "r0" calledBackState
     = (Slack.Raised (Slack.PlainError "Invalid authorization code"),
        calledBackState).
Proof.
  split; [reflexivity|].
  apply (proj1 (failed_exchange_changes_nothing "r0" calledBackState)).
  left. reflexivity.
Defined.

Lemma failed_callback_keeps_stores_witness :
  Slack.get "r0" (Slack.sessionStore authorizedState)
  = Some (loginSession "client-a" toyParams "r0")
  /\ Slack.oauth_access refusedBySlackEnv (Slack.posted authorizedState)
       (callbackForm refusedBySlackEnv "slack-code" None)
     = Ok {| Slack.data_ok := false; Slack.data_access_token := EmptyString |}
  /\ Slack.handleOAuthCallback refusedBySlackEnv "slack-code" "r0" None
       authorizedState
     = (Slack.Raised (Slack.PlainError "Failed to exchange code"),
        afterPost (callbackForm refusedBySlackEnv "slack-code" None)
                  authorizedState).
Proof.
  split; [reflexivity|]. split; [reflexivity|].
  exact (proj1 (proj1 (proj2 (failed_callback_keeps_stores refusedBySlackEnv
                                "slack-code" "r0" None authorizedState))
                  (loginSession "client-a" toyParams "r0")
                  {| Slack.data_ok := false;
                     Slack.data_access_token := EmptyString |}
                  eq_refl eq_refl eq_refl)).
Defined.

Lemma successful_callback_consumes_state_witness :
  Slack.get "r0" (Slack.sessionStore authorizedState)
  = Some (loginSession "client-a" toyParams "r0")
  /\ Slack.oauth_access toyEnv (Slack.posted authorizedState)
       (callbackForm toyEnv "slack-code" (Some "mcp.example.com"))
     = Ok {| Slack.data_ok := true; Slack.data_access_token := "xoxb-1" |}
  /\ Slack.pasetoEncrypt toyEnv (Slack.GLOBAL_SECRET toyEnv)
       (callbackPayload
          {| Slack.data_ok := true; Slack.data_access_token := "xoxb-1" |}
          (loginSession "client-a" toyParams "r0"))
     = Ok "v4.local.xoxb-1"
  /\ Slack.handleOAuthCallback toyEnv "slack-code" "r0"
       (Some "mcp.example.com") authorizedState
     = (Slack.Done ("r1", "https://app.example.com/cb"),
        {| Slack.pendingAuthCodes :=
             [("r1", {| Slack.mcpAccessToken := "v4.local.xoxb-1";
                        Slack.pendingChallenge := Some "challenge-1" |})];
           Slack.sessionStore := [];
           Slack.posted :=
             [callbackForm toyEnv "slack-code" (Some "mcp.example.com")];
           Slack.redirected := Slack.redirected authorizedState;
           Slack.draws := 2;
           Slack.consoleErrors := [] |}).
Proof.
  split; [reflexivity|]. split; [reflexivity|]. split; [reflexivity|].
  exact (proj1 (proj1 (successful_callback_consumes_state toyEnv "slack-code"
                         "r0" (Some "mcp.example.com") authorizedState)
                  (loginSession "client-a" toyParams "r0")
                  {| Slack.data_ok := true;
                     Slack.data_access_token := "xoxb-1" |}
                  "v4.local.xoxb-1" eq_refl eq_refl eq_refl eq_refl)).
Defined.

(** ** Starting a login *)

(** [authorize], by the answer of the response to the redirect. *)
Lemma authorize_cases
  (E : Slack.Env) (client_id : string) (params : Slack.AuthorizationParams)
  (res : Slack.Response) (s : Slack.State) :
  Slack.authorize E client_id params res s
  = let state := loginState E params s in
    let url := authorizeUrl E state (Slack.req_host res) in
    let stored := Slack.set state (loginSession client_id params state)
                            (Slack.sessionStore s) in
    let draws' := match Slack.paramState params with
                  | Some (String _ _) => Slack.draws s
                  | _ => S (Slack.draws s)
                  end in
    match Slack.redirect res url with
    | Ok _ =>
        (Slack.Done tt,
         {| Slack.pendingAuthCodes := Slack.pendingAuthCodes s;
            Slack.sessionStore := stored;
            Slack.posted := Slack.posted s;
            Slack.redirected := (Slack.redirected s ++ [url])%list;
            Slack.draws := draws';
            Slack.consoleErrors := Slack.consoleErrors s |})
    | Failed detail =>
        (Slack.Raised (Slack.ServerError "Failed to authorize"),
         {| Slack.pendingAuthCodes := Slack.pendingAuthCodes s;
            Slack.sessionStore := Slack.delete state stored;
            Slack.posted := Slack.posted s;
            Slack.redirected := (Slack.redirected s ++ [url])%list;
            Slack.draws := draws';
            Slack.consoleErrors := (Slack.consoleErrors s ++ [detail])%list |})
    end.
Proof.
  unfold loginState, authorizeUrl, loginSession, Slack.authorize. cbv zeta.
  destruct (Slack.redirect res _) as [[]|detail];
    now destruct (Slack.paramState params) as [[|c r]|].
Qed.

(** X16. [authorize] files the login session under the caller's [state],
    or under a freshly drawn code when the caller gave none or an empty
    one, and asks the response for one redirect, to Slack's authorize URL
    with the client id, the scopes, the callback URI of the request's host
    and that state.  When the redirect succeeds [authorize] returns and
    the session is stored with the caller's redirect URI, challenge,
    client id and scopes (none when absent).  When the redirect fails,
    [authorize] writes the failure to the console, throws the server error
    "Failed to authorize", and no session is left under that state.
    Sessions under other states, all authorization codes and the forms
    posted to Slack are untouched either way. *)
Theorem authorize_files_the_session
  (E : Slack.Env) (client_id : string) (params : Slack.AuthorizationParams)
  (res : Slack.Response) (s : Slack.State) :
  let state := loginState E params s in
  let url := authorizeUrl E state (Slack.req_host res) in
  let s1 := snd (Slack.authorize E client_id params res s) in
  (forall u,
     Slack.redirect res url = Ok u ->
     Slack.authorize E client_id params res s = (Slack.Done tt, s1)
     /\ Slack.get state (Slack.sessionStore s1)
        = Some (loginSession client_id params state)
     /\ Slack.consoleErrors s1 = Slack.consoleErrors s)
  /\ (forall detail,
        Slack.redirect res url = Failed detail ->
        Slack.authorize E client_id params res s
        = (Slack.Raised (Slack.ServerError "Failed to authorize"), s1)
        /\ Slack.get state (Slack.sessionStore s1) = None
        /\ Slack.consoleErrors s1 = (Slack.consoleErrors s ++ [detail])%list)
  /\ Slack.redirected s1 = (Slack.redirected s ++ [url])%list
  /\ Slack.draws s1 = match Slack.paramState params with
                      | Some (String _ _) => Slack.draws s
                      | _ => S (Slack.draws s)
                      end
  /\ Slack.pendingAuthCodes s1 = Slack.pendingAuthCodes s
  /\ Slack.posted s1 = Slack.posted s
  /\ (forall other, other <> state ->
        Slack.get other (Slack.sessionStore s1)
        = Slack.get other (Slack.sessionStore s)).
Proof.
  unfold loginState, authorizeUrl, loginSession, Slack.authorize. cbv zeta.
  destruct (Slack.redirect res _) as [[]|detail];
    cbn [snd Slack.pendingAuthCodes Slack.sessionStore Slack.redirected
         Slack.draws Slack.posted Slack.consoleErrors].
  - split.
    { intros u _. split; [reflexivity|]. split; [apply get_set_same|].
      reflexivity. }
    split; [discriminate|]. split; [reflexivity|].
    split; [now destruct (Slack.paramState params) as [[|c r]|]|].
    split; [reflexivity|]. split; [reflexivity|].
    intros other Hne. now apply get_set_other.
  - split; [discriminate|].
    split.
    { intros d [= <-]. split; [reflexivity|].
      split; [apply get_delete_same | reflexivity]. }
    split; [reflexivity|].
    split; [now destruct (Slack.paramState params) as [[|c r]|]|].
    split; [reflexivity|]. split; [reflexivity|].
    intros other Hne. now rewrite get_delete_other, get_set_other.
Qed.

Lemma authorize_files_the_session_witness :
  Slack.redirect brokenResponse
    (authorizeUrl toyEnv (loginState toyEnv toyParams authorizedState)
                  (Slack.req_host brokenResponse))
  = Failed "headers already sent"
  /\ Slack.authorize toyEnv "client-a" toyParams brokenResponse
       authorizedState
     = (Slack.Raised (Slack.ServerError "Failed to authorize"),
        snd (Slack.authorize toyEnv "client-a" toyParams brokenResponse
               authorizedState))
  /\ Slack.get (loginState toyEnv toyParams authorizedState)
       (Slack.sessionStore
          (snd (Slack.authorize toyEnv "client-a" toyParams brokenResponse
                  authorizedState)))
     = None
  /\ Slack.consoleErrors
       (snd (Slack.authorize toyEnv "client-a" toyParams brokenResponse
               authorizedState))
     = (Slack.consoleErrors authorizedState ++ ["headers already sent"])%list.
Proof.
  split; [reflexivity|].
  exact (proj1 (proj2 (authorize_files_the_session toyEnv "client-a"
                         toyParams brokenResponse authorizedState))
           "headers already sent" eq_refl).
Defined.

(** ** A whole login *)

(** X17. A login that goes through yields a token for the client that
    started it, carrying the access token that Slack issued.  When the
    redirect of [authorize] succeeds, Slack answers the form posted by the
    callback for the login's state with [ok] set, and the payload made of
    the access token in that answer and of the client id and the scopes
    given to [authorize] is sealed into a non-empty token, then:
    [authorize] returns; the callback returns a fresh code and the
    redirect URL given to [authorize], after posting that one form; the
    code carries the challenge given to [authorize]; exchanging the code
    returns the sealed token as a bearer token; and if the token opens as
    the payload that was sealed, [verifyAccessToken] reads from it the
    client id and the scopes given to [authorize] and the access token of
    Slack's answer. *)
Theorem login_round_trip
  (E : Slack.Env) (client_id : string) (params : Slack.AuthorizationParams)
  (res : Slack.Response) (code : string) (host : option string)
  (s : Slack.State) (data : Slack.AccessData) (token : string) :
  let state := loginState E params s in
  let session := loginSession client_id params state in
  Slack.redirect res (authorizeUrl E state (Slack.req_host res)) = Ok tt ->
  Slack.oauth_access E (Slack.posted s) (callbackForm E code host) = Ok data ->
  Slack.data_ok data = true ->
  Slack.pasetoEncrypt E (Slack.GLOBAL_SECRET E) (callbackPayload data session)
  = Ok token ->
  token <> EmptyString ->
  Slack.pasetoDecrypt E (Slack.GLOBAL_SECRET E) token
  = Ok (callbackPayload data session) ->
  exists s1 s2 s3 mcpAuthCode,
    Slack.authorize E client_id params res s = (Slack.Done tt, s1)
    /\ mcpAuthCode = Slack.randomHex E (Slack.draws s1)
    /\ Slack.handleOAuthCallback E code state host s1
       = (Slack.Done (mcpAuthCode, Slack.paramRedirectUri params), s2)
    /\ Slack.posted s2 = (Slack.posted s ++ [callbackForm E code host])%list
    /\ Slack.challengeForAuthorizationCode mcpAuthCode s2
       = (Slack.Done (match Slack.paramChallenge params with
                      | Some challenge => challenge
                      | None => EmptyString
                      end), s2)
    /\ Slack.exchangeAuthorizationCode mcpAuthCode s2
       = (Slack.Done {| Slack.access_token := token;
                        Slack.token_type := "Bearer" |}, s3)
    /\ Slack.verifyAccessToken E token s3
       = (Slack.Done {| Slack.infoToken := token;
                        Slack.infoClientId := client_id;
                        Slack.infoScopes :=
                          match Slack.paramScopes params with
                          | Some scopes => scopes
                          | None => []
                          end;
                        Slack.infoSlackToken :=
                          Slack.data_access_token data |}, s3).
Proof.
  intros state session Hredirect Hpost Hok Hseal Hnonempty Hopens.
  subst state session.
  destruct token as [|c r]; [contradiction|].
  pose proof (authorize_cases E client_id params res s) as Hauthorize.
  cbv zeta in Hauthorize. rewrite Hredirect in Hauthorize.
  do 4 eexists.
  split; [exact Hauthorize|]. split; [reflexivity|].
  split.
  { rewrite callback_cases.
    cbn [Slack.sessionStore Slack.posted Slack.draws Slack.pendingAuthCodes
         Slack.redirected Slack.consoleErrors].
    rewrite get_set_same, Hpost, Hok, Hseal. reflexivity. }
  cbn [Slack.posted]. split; [reflexivity|].
  unfold Slack.challengeForAuthorizationCode, Slack.exchangeAuthorizationCode.
  cbn [Slack.pendingAuthCodes]. rewrite get_set_same.
  cbn [option_map Slack.mcpAccessToken Slack.pendingChallenge
       Slack.sessionChallenge loginSession].
  split; [reflexivity|]. split; [reflexivity|].
  unfold Slack.verifyAccessToken, Slack.localKey. rewrite Hopens.
  reflexivity.
Qed.

Lemma login_round_trip_witness :
  exists s1 s2 s3 mcpAuthCode,
    Slack.authorize toyEnv "client-a" toyParams toyResponse Slack.initial
    = (Slack.Done tt, s1)
    /\ mcpAuthCode = Slack.randomHex toyEnv (Slack.draws s1)
    /\ Slack.handleOAuthCallback toyEnv "slack-code"
         (loginState toyEnv toyParams Slack.initial)
         (Some "mcp.example.com") s1
       = (Slack.Done (mcpAuthCode, Slack.paramRedirectUri toyParams), s2)
    /\ Slack.posted s2
       = (Slack.posted Slack.initial
          ++ [callbackForm toyEnv "slack-code" (Some "mcp.example.com")])%list
    /\ Slack.challengeForAuthorizationCode mcpAuthCode s2
       = (Slack.Done (match Slack.paramChallenge toyParams with
                      | Some challenge => challenge
                      | None => EmptyString
                      end), s2)
    /\ Slack.exchangeAuthorizationCode mcpAuthCode s2
       = (Slack.Done {| Slack.access_token := "v4.local.xoxb-1";
                        Slack.token_type := "Bearer" |}, s3)
    /\ Slack.verifyAccessToken toyEnv "v4.local.xoxb-1" s3
       = (Slack.Done {| Slack.infoToken := "v4.local.xoxb-1";
                        Slack.infoClientId := "client-a";
                        Slack.infoScopes :=
                          match Slack.paramScopes toyParams with
                          | Some scopes => scopes
                          | None => []
                          end;
                        Slack.infoSlackToken :=
                          Slack.data_access_token
                            {| Slack.data_ok := true;
                               Slack.data_access_token := "xoxb-1" |} |}, s3).
Proof.
  apply (login_round_trip toyEnv "client-a" toyParams toyResponse
           "slack-code" (Some "mcp.example.com") Slack.initial
           {| Slack.data_ok := true; Slack.data_access_token := "xoxb-1" |}
           "v4.local.xoxb-1" eq_refl eq_refl eq_refl eq_refl).
  - discriminate.
  - reflexivity.
Defined.

Example login_in_the_toy_world :
  Slack.verifyAccessToken toyEnv "v4.local.xoxb-1"
    (snd (Slack.exchangeAuthorizationCode "r1" calledBackState))
  = (Slack.Done {| Slack.infoToken := "v4.local.xoxb-1";
                   Slack.infoClientId := "client-a";
                   Slack.infoScopes := ["chat:write"];
                   Slack.infoSlackToken := "xoxb-1" |},
     snd (Slack.exchangeAuthorizationCode "r1" calledBackState)).
Proof. reflexivity. Qed.

(** * The filesystem server: paths *)

Lemma splitOn_nonempty (sep : ascii) (s : string) : Fs.splitOn sep s <> [].
Proof.
  destruct s as [|c r]; cbn [Fs.splitOn]; [discriminate|].
  destruct (Ascii.eqb c sep); [discriminate|].
  destruct (Fs.splitOn sep r); discriminate.
Qed.

Lemma join_splitOn_char (sep to : ascii) (s : string) :
  join (String to EmptyString) (Fs.splitOn sep s) = Fs.replaceChar sep to s.
Proof.
  unfold join.
  induction s as [|c r IH]; cbn [Fs.splitOn Fs.replaceChar]; [reflexivity|].
  pose proof (splitOn_nonempty sep r) as Hne.
  destruct (Ascii.eqb c sep).
  - destruct (Fs.splitOn sep r) as [|piece pieces]; [contradiction|].
    cbn [String.concat] in *. now rewrite IH.
  - destruct (Fs.splitOn sep r) as [|piece pieces]; [contradiction|].
    rewrite <- IH. cbn [String.concat].
    now destruct pieces.
Qed.

Lemma join_splitOn (sep : ascii) (s : string) :
  join "/" (Fs.splitOn sep s) = Fs.replaceChar sep "/" s.
Proof. apply join_splitOn_char. Qed.

Lemma replaceChar_same (c : ascii) (s : string) : Fs.replaceChar c c s = s.
Proof.
  induction s as [|a r IH]; cbn [Fs.replaceChar]; [reflexivity|].
  rewrite IH. destruct (Ascii.eqb_spec a c); now subst.
Qed.

(** X18. [normalizePath] rewrites every platform separator into a forward
    slash and nothing else.  Where the separator is the slash itself it
    returns the path unchanged; elsewhere the result contains no separator
    any more.  It keeps the length and normalizing twice is normalizing
    once. *)
Theorem normalizePath_replaces_separators (E : Fs.Env) (p : string) :
  Fs.normalizePath E p = Fs.replaceChar (Fs.sep E) "/" p
  /\ (Fs.sep E = "/"%char -> Fs.normalizePath E p = p)
  /\ (Fs.sep E <> "/"%char ->
      everyChar (fun c => negb (Ascii.eqb c (Fs.sep E)))
                (Fs.normalizePath E p) = true)
  /\ String.length (Fs.normalizePath E p) = String.length p
  /\ Fs.normalizePath E (Fs.normalizePath E p) = Fs.normalizePath E p.
Proof.
  unfold Fs.normalizePath. rewrite !join_splitOn.
  split; [reflexivity|]. split; [|split; [|split]].
  - intros ->. apply replaceChar_same.
  - intros Hsep. induction p as [|c r IH]; cbn [Fs.replaceChar everyChar];
      [reflexivity|].
    rewrite IH, andb_true_r.
    destruct (Ascii.eqb_spec c (Fs.sep E)) as [_|Hc].
    + destruct (Ascii.eqb_spec "/"%char (Fs.sep E)); [congruence | reflexivity].
    + destruct (Ascii.eqb_spec c (Fs.sep E)); [contradiction | reflexivity].
  - induction p as [|c r IH]; cbn [Fs.replaceChar String.length];
      [reflexivity | now rewrite IH].
  - induction p as [|c r IH]; cbn [Fs.replaceChar]; [reflexivity|].
    rewrite IH. f_equal.
    destruct (Ascii.eqb_spec c (Fs.sep E)) as [_|Hc].
    + now destruct (Ascii.eqb_spec "/"%char (Fs.sep E)).
    + now destruct (Ascii.eqb_spec c (Fs.sep E)).
Qed.

Lemma normalizePath_replaces_separators_witness :
  Fs.sep windowsEnv <> "/"%char
  /\ Fs.normalizePath windowsEnv "C:\Users\u\notes.txt" = "C:/Users/u/notes.txt"
  /\ everyChar (fun c => negb (Ascii.eqb c (Fs.sep windowsEnv)))
               (Fs.normalizePath windowsEnv "C:\Users\u\notes.txt") = true.
Proof.
  assert (Hsep : Fs.sep windowsEnv <> "/"%char) by discriminate.
  split; [exact Hsep|]. split; [reflexivity|].
  exact (proj1 (proj2 (proj2 (normalizePath_replaces_separators windowsEnv
                                "C:\Users\u\notes.txt"))) Hsep).
Defined.

(** ** Root directories *)

Lemma checkRoot_keep (E : Fs.Env) (uri d : string) :
  Fs.checkRoot E uri = Fs.Keep d <->
  exists real,
    Fs.realpath E
      (Fs.path_resolve E
         (Fs.expandHome E (if Fs.startsWith uri "file://"
                           then Fs.sliceFrom 7 uri else uri)))
    = Ok real
    /\ d = Fs.normalizePath E real
    /\ Fs.stat_isDirectory E d = Ok true.
Proof.
  unfold Fs.checkRoot. cbv zeta.
  destruct (Fs.realpath E _) as [real|detail].
  - destruct (Fs.stat_isDirectory E (Fs.normalizePath E real))
      as [[|]|detail] eqn:Hstat; split.
    + intros [= <-]. exists real. now repeat split.
    + now intros [real' [[= <-] [-> _]]].
    + discriminate.
    + intros [real' [[= <-] [-> Hdir]]]. congruence.
    + discriminate.
    + intros [real' [[= <-] [-> Hdir]]]. congruence.
  - split; [discriminate|]. now intros [real [Hreal _]].
Qed.

(** Which directories are returned and which roots are logged, as sets. *)
Lemma valid_roots_membership (E : Fs.Env) (roots : list string) :
  (forall d,
     In d (fst (Fs.getValidRootDirectories E roots)) <->
     exists uri real,
       In uri roots
       /\ Fs.realpath E
            (Fs.path_resolve E
               (Fs.expandHome E (if Fs.startsWith uri "file://"
                                 then Fs.sliceFrom 7 uri else uri)))
          = Ok real
       /\ d = Fs.normalizePath E real
       /\ Fs.stat_isDirectory E d = Ok true)
  /\ (forall uri detail,
        In (uri, detail) (snd (Fs.getValidRootDirectories E roots)) ->
        In uri roots)
  /\ (List.length (fst (Fs.getValidRootDirectories E roots))
      + List.length (snd (Fs.getValidRootDirectories E roots))
      <= List.length roots)%nat.
Proof.
  induction roots as [|uri rest [IHdirs [IHerrors IHlength]]].
  - cbn. split; [|split; [tauto | lia]].
    intros d. split; [tauto | now intros [uri [real [[] _]]]].
  - cbn [Fs.getValidRootDirectories].
    destruct (Fs.getValidRootDirectories E rest) as [dirs errors].
    cbn [fst snd] in *.
    assert (Hlogged : forall u detail,
              Fs.checkRoot E uri = Fs.Logged u detail -> u = uri).
    { unfold Fs.checkRoot. cbv zeta. intros u detail.
      destruct (Fs.realpath E _) as [real|d0]; [|now intros [= <- _]].
      destruct (Fs.stat_isDirectory E _) as [[|]|d0];
        try discriminate. now intros [= <- _]. }
    destruct (Fs.checkRoot E uri) as [dir| |u detail] eqn:Hcheck;
      cbn [fst snd List.length In].
    + split; [|split; [|lia]].
      * intros d. rewrite IHdirs. split.
        -- intros [<- | [uri' [real [Hin Hrest]]]].
           ++ apply checkRoot_keep in Hcheck. destruct Hcheck as [real Hreal].
              exists uri, real. split; [now left | exact Hreal].
           ++ exists uri', real. split; [now right | exact Hrest].
        -- intros [uri' [real [[<- | Hin] Hrest]]].
           ++ left. assert (Hkeep : Fs.checkRoot E uri = Fs.Keep d)
                by (apply checkRoot_keep; now exists real).
              congruence.
           ++ right. now exists uri', real.
      * intros u detail Hin. right. now apply (IHerrors u detail).
    + split; [|split; [|lia]].
      * intros d. rewrite IHdirs. split.
        -- intros [uri' [real [Hin Hrest]]].
           exists uri', real. split; [now right | exact Hrest].
        -- intros [uri' [real [[<- | Hin] Hrest]]].
           ++ assert (Hkeep : Fs.checkRoot E uri = Fs.Keep d)
                by (apply checkRoot_keep; now exists real).
              congruence.
           ++ now exists uri', real.
      * intros u detail Hin. right. now apply (IHerrors u detail).
    + split; [|split; [|lia]].
      * intros d. rewrite IHdirs. split.
        -- intros [uri' [real [Hin Hrest]]].
           exists uri', real. split; [now right | exact Hrest].
        -- intros [uri' [real [[<- | Hin] Hrest]]].
           ++ assert (Hkeep : Fs.checkRoot E uri = Fs.Keep d)
                by (apply checkRoot_keep; now exists real).
              congruence.
           ++ now exists uri', real.
      * intros u0 detail0 [[= <- <-] | Hin].
        -- left. symmetry. now apply (Hlogged u detail).
        -- right. now apply (IHerrors u0 detail0).
Qed.

(** One root: what the loop body does, by the answers of [realpath] and
    [stat]. *)
Lemma checkRoot_cases (E : Fs.Env) (uri : string) :
  Fs.checkRoot E uri
  = match Fs.realpath E (rootTarget E uri) with
    | Failed detail => Fs.Logged uri detail
    | Ok real =>
        match Fs.stat_isDirectory E (Fs.normalizePath E real) with
        | Failed detail => Fs.Logged uri detail
        | Ok true => Fs.Keep (Fs.normalizePath E real)
        | Ok false => Fs.Skip
        end
    end.
Proof. reflexivity. Qed.

(** X19. [getValidRootDirectories] goes through the roots in the order of
    the request and each root contributes on its own.  A root whose path
    (without a leading [file://], with the home directory expanded,
    resolved) has a real path that [stat] reports as a directory
    contributes the normalized real path; a root whose real path is not a
    directory contributes nothing and is not logged; a root for which
    [realpath] or [stat] fails contributes nothing and is written to the
    console, with its uri and the failure.  So the result is the
    directories of the valid roots in request order, the console holds
    the failing roots in request order, a failing root does not stop the
    others, and the directories and the logged errors together are never
    more than the roots. *)
Theorem valid_roots_are_real_directories (E : Fs.Env) (roots : list string) :
  fst (Fs.getValidRootDirectories E roots)
  = flat_map
      (fun uri =>
         match Fs.realpath E (rootTarget E uri) with
         | Ok real =>
             match Fs.stat_isDirectory E (Fs.normalizePath E real) with
             | Ok true => [Fs.normalizePath E real]
             | _ => []
             end
         | Failed _ => []
         end) roots
  /\ snd (Fs.getValidRootDirectories E roots)
     = flat_map
         (fun uri =>
            match Fs.realpath E (rootTarget E uri) with
            | Failed detail => [(uri, detail)]
            | Ok real =>
                match Fs.stat_isDirectory E (Fs.normalizePath E real) with
                | Failed detail => [(uri, detail)]
                | Ok _ => []
                end
            end) roots
  /\ (forall more,
        Fs.getValidRootDirectories E (roots ++ more)%list
        = ((fst (Fs.getValidRootDirectories E roots)
            ++ fst (Fs.getValidRootDirectories E more))%list,
           (snd (Fs.getValidRootDirectories E roots)
            ++ snd (Fs.getValidRootDirectories E more))%list))
  /\ (forall d,
        In d (fst (Fs.getValidRootDirectories E roots)) <->
        exists uri real,
          In uri roots
          /\ Fs.realpath E (rootTarget E uri) = Ok real
          /\ d = Fs.normalizePath E real
          /\ Fs.stat_isDirectory E d = Ok true)
  /\ (forall uri detail,
        In (uri, detail) (snd (Fs.getValidRootDirectories E roots)) ->
        In uri roots)
  /\ (List.length (fst (Fs.getValidRootDirectories E roots))
      + List.length (snd (Fs.getValidRootDirectories E roots))
      <= List.length roots)%nat.
Proof.
  assert (Hshape : forall rs,
            Fs.getValidRootDirectories E rs
            = (flat_map
                 (fun uri =>
                    match Fs.realpath E (rootTarget E uri) with
                    | Ok real =>
                        match Fs.stat_isDirectory E (Fs.normalizePath E real)
                        with
                        | Ok true => [Fs.normalizePath E real]
                        | _ => []
                        end
                    | Failed _ => []
                    end) rs,
               flat_map
                 (fun uri =>
                    match Fs.realpath E (rootTarget E uri) with
                    | Failed detail => [(uri, detail)]
                    | Ok real =>
                        match Fs.stat_isDirectory E (Fs.normalizePath E real)
                        with
                        | Failed detail => [(uri, detail)]
                        | Ok _ => []
                        end
                    end) rs)).
  { induction rs as [|uri rest IH]; [reflexivity|].
    cbn [Fs.getValidRootDirectories flat_map]. rewrite IH, checkRoot_cases.
    destruct (Fs.realpath E (rootTarget E uri)) as [real|detail];
      [|reflexivity].
    destruct (Fs.stat_isDirectory E (Fs.normalizePath E real))
      as [[|]|detail]; reflexivity. }
  split; [now rewrite Hshape|]. split; [now rewrite Hshape|].
  split.
  { intros more. rewrite !Hshape. cbn [fst snd].
    now rewrite !flat_map_app. }
  exact (valid_roots_membership E roots).
Qed.

Example roots_on_posix :
  Fs.getValidRootDirectories posixEnv
    ["file:///srv/data"; "/nowhere"; "/srv/notes.txt"; "/srv/data/link"]
  = (["/srv/data"; "/etc"], [("/nowhere", "ENOENT")]).
Proof. reflexivity. Qed.

(** ** Allowed directories *)

Lemma startsWith_iff (s prefix : string) :
  Fs.startsWith s prefix = true <-> exists rest, s = prefix ++ rest.
Proof.
  revert s. induction prefix as [|a prefix IH]; intros s.
  - split; [intros _; now exists s | now destruct s].
  - destruct s as [|b s]; cbn [Fs.startsWith append].
    + split; [discriminate | now intros [rest Hrest]].
    + rewrite andb_true_iff, IH. split.
      * intros [Hab [rest ->]]. apply Ascii.eqb_eq in Hab. subst b.
        now exists rest.
      * intros [rest [= -> ->]]. split; [apply Ascii.eqb_refl | now exists rest].
Qed.

Lemma append_cancel (a x y : string) : a ++ x = a ++ y -> x = y.
Proof.
  induction a as [|c a IH]; cbn [append]; [trivial|].
  intros [= H]. now apply IH.
Qed.

Lemma append_assoc (a b c : string) : (a ++ b) ++ c = a ++ (b ++ c).
Proof.
  induction a as [|x a IH]; cbn [append]; [reflexivity | now rewrite IH].
Qed.

Lemma within_iff (E : Fs.Env) (q allowedDir : string) :
  Fs.within E q allowedDir = true <->
  q = Fs.normalizePath E allowedDir
  \/ exists rest, q = Fs.normalizePath E allowedDir ++ "/" ++ rest.
Proof.
  unfold Fs.within. cbv zeta.
  rewrite orb_true_iff, String.eqb_eq, startsWith_iff.
  split; (intros [Heq | [rest Hrest]]; [now left | right; exists rest]).
  - now rewrite Hrest, append_assoc.
  - now rewrite Hrest, append_assoc.
Qed.

(** X20. A normalized path lies within an allowed directory exactly when
    it is the normalized directory itself or continues it with a slash.
    Hence a path that extends the directory's name is accepted only if the
    extension is empty or begins with a slash: a sibling that merely
    shares the name as a prefix is outside, and so is everything below a
    directory that was configured with a trailing slash, unless the slash
    is doubled. *)
Theorem within_means_below (E : Fs.Env) (p allowedDir : string) :
  let dir := Fs.normalizePath E allowedDir in
  (Fs.within E p allowedDir = true <->
   p = dir \/ exists rest, p = dir ++ "/" ++ rest)
  /\ (forall extension,
        Fs.within E (dir ++ extension) allowedDir = true <->
        extension = EmptyString \/ exists rest, extension = "/" ++ rest).
Proof.
  cbv zeta. split; [apply within_iff|].
  intros extension. rewrite within_iff. split.
  - intros [Heq | [rest Hrest]].
    + left. apply (append_cancel (Fs.normalizePath E allowedDir)).
      now rewrite append_empty.
    + right. exists rest. now apply append_cancel in Hrest.
  - intros [-> | [rest ->]].
    + left. apply append_empty.
    + right. now exists rest.
Qed.

Example sibling_is_outside :
  Fs.within posixEnv "/srv/data2/x" "/srv/data" = false
  /\ Fs.within posixEnv "/srv/data/x" "/srv/data" = true
  /\ Fs.within posixEnv "/srv/data/x" "/srv/data/" = false
  /\ Fs.within posixEnv "/etc/passwd" "/" = false.
Proof. repeat split. Qed.

(** X21. [validatePath] decides on the real path of the request, or on
    the resolved path when the file system has no real path for it, and
    that is also what it returns.  It returns exactly when this path,
    normalized, lies within one of the allowed directories; otherwise it
    throws "Access denied" naming the path as it was requested.  With no
    allowed directory every path is denied. *)
Theorem validatePath_decides_on_the_real_path
  (E : Fs.Env) (allowedDirectories : list string) (requestedPath : string) :
  let target := match Fs.realpath E (Fs.path_resolve E requestedPath) with
                | Ok real => real
                | Failed _ => Fs.path_resolve E requestedPath
                end in
  let below dir :=
    Fs.normalizePath E target = Fs.normalizePath E dir
    \/ exists rest,
         Fs.normalizePath E target = Fs.normalizePath E dir ++ "/" ++ rest in
  ((exists dir, In dir allowedDirectories /\ below dir) ->
   Fs.validatePath E allowedDirectories requestedPath = Return target)
  /\ ((forall dir, In dir allowedDirectories -> ~ below dir) ->
      Fs.validatePath E allowedDirectories requestedPath
      = Throw (JsError ("Access denied: " ++ requestedPath
                        ++ " is outside allowed directories")))
  /\ Fs.validatePath E [] requestedPath
     = Throw (JsError ("Access denied: " ++ requestedPath
                       ++ " is outside allowed directories")).
Proof.
  cbv zeta. unfold Fs.validatePath. cbv zeta.
  set (target := match Fs.realpath E (Fs.path_resolve E requestedPath) with
                 | Ok real => real
                 | Failed _ => Fs.path_resolve E requestedPath
                 end).
  split; [|split; [|reflexivity]].
  - intros [dir [Hin Hbelow]].
    apply (within_iff E _ dir) in Hbelow.
    assert (Hsome : existsb (Fs.within E (Fs.normalizePath E target))
                            allowedDirectories = true).
    { apply existsb_exists. now exists dir. }
    now rewrite Hsome.
  - intros Houtside.
    destruct (existsb (Fs.within E (Fs.normalizePath E target))
                      allowedDirectories) eqn:Hsome; [|reflexivity].
    apply existsb_exists in Hsome. destruct Hsome as [dir [Hin Hwithin]].
    apply (within_iff E _ dir) in Hwithin.
    now destruct (Houtside dir Hin).
Qed.

Lemma validatePath_decides_on_the_real_path_witness :
  Fs.validatePath posixEnv ["/srv/data"] "/srv/data/link"
  = Throw (JsError "Access denied: /srv/data/link is outside allowed directories")
  /\ Fs.validatePath posixEnv ["/srv/data"] "/srv/data/new.txt"
     = Return "/srv/data/new.txt".
Proof.
  split; [reflexivity|].
  apply (proj1 (validatePath_decides_on_the_real_path posixEnv ["/srv/data"]
                  "/srv/data/new.txt")).
  exists "/srv/data". split; [now left|].
  right. exists "new.txt". reflexivity.
Defined.

(** * The filesystem server: the end and the start of a file *)

Lemma join_split_lines (s : string) :
  join newline (Fs.splitOn Lines.lineFeed s) = s.
Proof.
  unfold newline.
  change (ascii_of_nat 10) with Lines.lineFeed.
  rewrite join_splitOn_char. apply replaceChar_same.
Qed.

Lemma join_app (sep : string) (xs ys : list string) :
  xs <> [] -> ys <> [] ->
  join sep (xs ++ ys) = join sep xs ++ sep ++ join sep ys.
Proof.
  unfold join. intros Hxs Hys.
  induction xs as [|x xs IH]; [contradiction|].
  destruct xs as [|x' xs].
  - destruct ys as [|y ys]; [contradiction | reflexivity].
  - assert (Hrest : String.concat sep ((x' :: xs) ++ ys)
                    = String.concat sep (x' :: xs) ++ sep
                      ++ String.concat sep ys)
      by (apply IH; discriminate).
    change (String.concat sep ((x :: x' :: xs) ++ ys))
      with (x ++ sep ++ String.concat sep ((x' :: xs) ++ ys)).
    change (String.concat sep (x :: x' :: xs))
      with (x ++ sep ++ String.concat sep (x' :: xs)).
    now rewrite Hrest, !append_assoc.
Qed.

Lemma splitOn_pieces_clean (sep : ascii) (s : string) :
  Forall (fun piece => everyChar (fun c => negb (Ascii.eqb c sep)) piece = true)
         (Fs.splitOn sep s).
Proof.
  induction s as [|c r IH]; cbn [Fs.splitOn].
  - now repeat constructor.
  - destruct (Ascii.eqb c sep) eqn:Hc.
    + constructor; [reflexivity | exact IH].
    + destruct (Fs.splitOn sep r) as [|piece pieces].
      * repeat constructor. cbn [everyChar]. now rewrite Hc.
      * inversion IH as [|? ? Hpiece Hpieces]; subst.
        constructor; [|exact Hpieces].
        cbn [everyChar]. now rewrite Hc, Hpiece.
Qed.

Lemma splitOn_clean_app (sep : ascii) (piece rest : string) :
  everyChar (fun c => negb (Ascii.eqb c sep)) piece = true ->
  Fs.splitOn sep (piece ++ String sep rest) = piece :: Fs.splitOn sep rest.
Proof.
  induction piece as [|c piece IH]; cbn [everyChar append Fs.splitOn].
  - intros _. now rewrite Ascii.eqb_refl.
  - intros H. apply andb_prop in H. destruct H as [Hc Hpiece].
    apply negb_true_iff in Hc. rewrite Hc, (IH Hpiece). reflexivity.
Qed.

Lemma splitOn_clean (sep : ascii) (piece : string) :
  everyChar (fun c => negb (Ascii.eqb c sep)) piece = true ->
  Fs.splitOn sep piece = [piece].
Proof.
  induction piece as [|c piece IH]; cbn [everyChar Fs.splitOn];
    [reflexivity|].
  intros H. apply andb_prop in H. destruct H as [Hc Hpiece].
  apply negb_true_iff in Hc. now rewrite Hc, (IH Hpiece).
Qed.

Lemma splitOn_join (sep : ascii) (pieces : list string) :
  pieces <> [] ->
  Forall (fun piece => everyChar (fun c => negb (Ascii.eqb c sep)) piece = true)
         pieces ->
  Fs.splitOn sep (join (String sep EmptyString) pieces) = pieces.
Proof.
  unfold join. intros Hne Hclean.
  induction Hclean as [|piece pieces Hpiece Hpieces IH]; [contradiction|].
  destruct pieces as [|piece' pieces].
  - cbn [String.concat]. now apply splitOn_clean.
  - cbn [String.concat]. cbn [append].
    rewrite (splitOn_clean_app sep piece _ Hpiece).
    f_equal. apply IH. discriminate.
Qed.

Lemma Forall_skipn {A} (P : A -> Prop) (n : nat) (xs : list A) :
  Forall P xs -> Forall P (skipn n xs).
Proof.
  intros Hall. rewrite Forall_forall in *. intros x Hin.
  apply Hall. rewrite <- (firstn_skipn n xs). apply in_app_iff. now right.
Qed.

(** X22. [tailFile] returns the end of the content, cut at a line break.
    Asked for at least as many lines as the content has, it returns the
    content unchanged; asked for 0 lines it also returns the whole
    content, not nothing.  Asked for fewer lines than there are, it
    returns what follows one of the line breaks, and that has exactly the
    number of lines asked for.  A negative number drops that many lines
    from the start instead. *)
Theorem tailFile_keeps_the_last_lines (content : string) (lines : Z) :
  let allLines := Fs.splitOn Lines.lineFeed content in
  let count := Z.of_nat (List.length allLines) in
  (lines = 0 \/ count <= lines -> Lines.tailFile content lines = content)
  /\ (0 < lines < count ->
      (exists before,
         content = before ++ newline ++ Lines.tailFile content lines)
      /\ Z.of_nat (List.length
                     (Fs.splitOn Lines.lineFeed
                                 (Lines.tailFile content lines))) = lines)
  /\ (lines < 0 ->
      Lines.tailFile content lines
      = join newline (skipn (Z.to_nat (- lines)) allLines)).
Proof.
  cbv zeta. unfold Lines.tailFile, Lines.sliceArray. cbv zeta.
  set (allLines := Fs.splitOn Lines.lineFeed content).
  set (count := Z.of_nat (List.length allLines)).
  split; [|split].
  - intros Hall.
    assert (Hk : Z.to_nat (if - lines <? 0
                           then Z.max (count + - lines) 0
                           else Z.min (- lines) count) = 0%nat).
    { destruct (Z.ltb_spec (- lines) 0); lia. }
    rewrite Hk. cbn [skipn]. apply join_split_lines.
  - intros Hfew.
    assert (Hk : Z.to_nat (if - lines <? 0
                           then Z.max (count + - lines) 0
                           else Z.min (- lines) count)
                 = (List.length allLines - Z.to_nat lines)%nat).
    { destruct (Z.ltb_spec (- lines) 0); unfold count in *; lia. }
    rewrite Hk.
    set (k := (List.length allLines - Z.to_nat lines)%nat).
    assert (Hkpos : (0 < k < List.length allLines)%nat)
      by (unfold k, count in *; lia).
    assert (Hfirst : firstn k allLines <> []).
    { intros Hnil. apply (f_equal (@List.length string)) in Hnil.
      rewrite length_firstn in Hnil. cbn in Hnil. lia. }
    assert (Hlast : skipn k allLines <> []).
    { intros Hnil. apply (f_equal (@List.length string)) in Hnil.
      rewrite length_skipn in Hnil. cbn in Hnil. lia. }
    split.
    + exists (join newline (firstn k allLines)).
      rewrite <- (join_app newline _ _ Hfirst Hlast), firstn_skipn.
      symmetry. apply join_split_lines.
    + change newline with (String Lines.lineFeed EmptyString).
      rewrite (splitOn_join Lines.lineFeed _ Hlast).
      * rewrite length_skipn. unfold k, count in *. lia.
      * apply Forall_skipn, splitOn_pieces_clean.
  - intros Hneg.
    destruct (Z.ltb_spec (- lines) 0); [lia|].
    destruct (Z.min_spec (- lines) count) as [[_ ->] | [Hge ->]];
      [reflexivity|].
    rewrite !skipn_all2; [reflexivity | unfold count in *; lia
                         | unfold count; lia].
Qed.

Lemma tailFile_keeps_the_last_lines_witness :
  Lines.tailFile ("a" ++ newline ++ "b" ++ newline ++ "c") 0
  = "a" ++ newline ++ "b" ++ newline ++ "c"
  /\ Z.of_nat (List.length
                 (Fs.splitOn Lines.lineFeed
                    (Lines.tailFile ("a" ++ newline ++ "b" ++ newline ++ "c")
                                    2))) = 2.
Proof.
  split.
  - apply (proj1 (tailFile_keeps_the_last_lines
                    ("a" ++ newline ++ "b" ++ newline ++ "c") 0)).
    left. reflexivity.
  - apply (proj1 (proj2 (tailFile_keeps_the_last_lines
                           ("a" ++ newline ++ "b" ++ newline ++ "c") 2))).
    cbn. lia.
Defined.

(** ** The first lines of a stream *)

Lemma splitOn_app (sep : ascii) (a b : string) :
  Fs.splitOn sep (a ++ b)
  = (removelast (Fs.splitOn sep a)
     ++ Fs.splitOn sep (last (Fs.splitOn sep a) EmptyString ++ b))%list.
Proof.
  induction a as [|c r IH]; cbn [append Fs.splitOn]; [reflexivity|].
  pose proof (splitOn_nonempty sep r) as Hne.
  destruct (Ascii.eqb c sep) eqn:Hc.
  - destruct (Fs.splitOn sep r) as [|p ps] eqn:Hr; [contradiction|].
    rewrite IH.
    change (removelast (EmptyString :: p :: ps))
      with (EmptyString :: removelast (p :: ps)).
    reflexivity.
  - destruct (Fs.splitOn sep r) as [|p ps] eqn:Hr; [contradiction|].
    rewrite IH.
    destruct ps as [|p' ps].
    + cbn [removelast last app append Fs.splitOn]. now rewrite Hc.
    + change (removelast (p :: p' :: ps)) with (p :: removelast (p' :: ps)).
      change (removelast (String c p :: p' :: ps))
        with (String c p :: removelast (p' :: ps)).
      reflexivity.
Qed.

Lemma pushLines_spec (maxLines : Z) (lines : list string) :
  forall (count : Z) (pushed : list string),
    count = Z.of_nat (List.length pushed) ->
    (List.length pushed <= Z.to_nat maxLines)%nat ->
    match Lines.pushLines maxLines lines count pushed with
    | (count', pushed', None) =>
        pushed' = (pushed ++ lines)%list
        /\ count' = Z.of_nat (List.length pushed')
        /\ (List.length pushed' <= Z.to_nat maxLines)%nat
    | (_, pushed', Some value) =>
        (exists more, (pushed ++ lines)%list = (pushed' ++ more)%list
                      /\ more <> [])
        /\ List.length pushed' = Z.to_nat maxLines
        /\ value = join newline pushed'
    end.
Proof.
  induction lines as [|line rest IH]; intros count pushed Hcount Hmax;
    cbn [Lines.pushLines].
  - rewrite app_nil_r. now repeat split.
  - destruct (Z.leb_spec maxLines count) as [Hfull|Hroom].
    + split; [exists (line :: rest); now split|].
      split; [lia | reflexivity].
    + specialize (IH (count + 1) (pushed ++ [line])%list).
      rewrite length_app in IH. cbn [List.length] in IH.
      assert (H1 : count + 1 = Z.of_nat (List.length pushed + 1)) by lia.
      assert (H2 : (List.length pushed + 1 <= Z.to_nat maxLines)%nat) by lia.
      specialize (IH H1 H2).
      destruct (Lines.pushLines maxLines rest (count + 1) (pushed ++ [line]))
        as [[count' pushed'] [value|]];
        rewrite <- app_assoc in IH; exact IH.
Qed.

Lemma onData_keeps_invariant
  (maxLines : Z) (sofar chunk : string) (st : Lines.HeadState) :
  Lines.headInvariant maxLines sofar st ->
  Lines.headInvariant maxLines (sofar ++ chunk) (Lines.onData maxLines chunk st).
Proof.
  unfold Lines.headInvariant, Lines.onData.
  destruct (Lines.resolved st) as [value|] eqn:Hresolved.
  - rewrite Hresolved.
    intros [kept [more [Hsplit [Hmore [Hlength Hvalue]]]]].
    exists kept, (more ++ removelast
                     (Fs.splitOn Lines.lineFeed
                        (last (Fs.splitOn Lines.lineFeed sofar) EmptyString
                         ++ chunk)))%list.
    rewrite splitOn_app, removelast_app by apply splitOn_nonempty.
    rewrite Hsplit, app_assoc.
    split; [reflexivity|]. split; [|now split].
    destruct more; [contradiction | discriminate].
  - intros [Hsplit [Hcount Hmax]]. cbv zeta.
    assert (Htotal : Fs.splitOn Lines.lineFeed (sofar ++ chunk)
                     = (Lines.result st
                        ++ Fs.splitOn Lines.lineFeed (Lines.buffer st ++ chunk))%list).
    { rewrite splitOn_app, Hsplit, removelast_last, last_last. reflexivity. }
    set (lines := Fs.splitOn Lines.lineFeed (Lines.buffer st ++ chunk)) in *.
    assert (Hlines : lines = (removelast lines ++ [last lines EmptyString])%list)
      by (apply app_removelast_last, splitOn_nonempty).
    pose proof (pushLines_spec maxLines (removelast lines) (Lines.lineCount st)
                  (Lines.result st) Hcount Hmax) as Hpush.
    destruct (Lines.pushLines maxLines (removelast lines) (Lines.lineCount st)
                (Lines.result st)) as [[count' pushed'] [value|]];
      cbn [Lines.resolved Lines.result Lines.buffer Lines.lineCount].
    + destruct Hpush as [[more [Hmore Hnonempty]] [Hlength Hvalue]].
      exists pushed', more. rewrite Htotal, Hlines, app_assoc, removelast_last.
      now repeat split.
    + destruct Hpush as [-> [Hcount' Hmax']].
      rewrite Htotal, <- app_assoc. rewrite <- Hlines. now repeat split.
Qed.

Lemma fold_keeps_invariant (maxLines : Z) (chunks : list string) :
  forall (sofar : string) (st : Lines.HeadState),
    Lines.headInvariant maxLines sofar st ->
    Lines.headInvariant maxLines (sofar ++ String.concat EmptyString chunks)
      (fold_left (fun st chunk => Lines.onData maxLines chunk st) chunks st).
Proof.
  induction chunks as [|chunk rest IH]; intros sofar st Hinv.
  - cbn [String.concat fold_left]. now rewrite append_empty.
  - cbn [fold_left].
    assert (Hconcat : String.concat EmptyString (chunk :: rest)
                      = chunk ++ String.concat EmptyString rest).
    { cbn [String.concat]. destruct rest; [|reflexivity].
      cbn [String.concat]. now rewrite append_empty. }
    rewrite Hconcat, <- append_assoc.
    apply IH. now apply onData_keeps_invariant.
Qed.

Lemma firstn_prefix {A} (kept more : list A) :
  firstn (List.length kept) (kept ++ more) = kept.
Proof.
  rewrite firstn_app, firstn_all, Nat.sub_diag. cbn [firstn].
  apply app_nil_r.
Qed.

(** X23. [headFile] does not depend on how the stream cuts the file into
    chunks: when the stream ends, the result is the first [maxLines] lines
    of the whole content joined by line feeds, where a final line feed
    does not start another line; with [maxLines] zero or negative the
    result is empty. *)
Theorem headFile_is_independent_of_chunking
  (chunks : list string) (maxLines : Z) :
  Lines.headFile chunks Lines.Ended maxLines
  = Return (join newline
                 (firstn (Z.to_nat maxLines)
                         (Lines.wholeLines
                            (String.concat EmptyString chunks)))).
Proof.
  unfold Lines.headFile. f_equal.
  pose proof (fold_keeps_invariant maxLines chunks EmptyString Lines.headStart)
    as Hinv.
  cbn [append] in Hinv.
  assert (Hstart : Lines.headInvariant maxLines EmptyString Lines.headStart).
  { unfold Lines.headInvariant. cbn. repeat split. lia. }
  specialize (Hinv Hstart).
  set (st := fold_left (fun st chunk => Lines.onData maxLines chunk st)
                       chunks Lines.headStart) in *.
  set (content := String.concat EmptyString chunks) in *.
  unfold Lines.headInvariant in Hinv. unfold Lines.onEnd, Lines.wholeLines.
  cbv zeta.
  destruct (Lines.resolved st) as [value|].
  - destruct Hinv as [kept [more [Hsplit [_ [Hlength ->]]]]].
    pose proof (app_removelast_last EmptyString
                  (splitOn_nonempty Lines.lineFeed content)) as Hpieces.
    destruct (last (Fs.splitOn Lines.lineFeed content) EmptyString).
    + now rewrite Hsplit, <- Hlength, firstn_prefix.
    + rewrite Hpieces, Hsplit, <- app_assoc, <- Hlength.
      now rewrite firstn_prefix.
  - destruct Hinv as [Hsplit [Hcount Hmax]].
    rewrite Hsplit, last_last, removelast_last.
    destruct (Lines.buffer st) as [|c r] eqn:Hbuffer; cbn [andb].
    + now rewrite firstn_all2 by lia.
    + destruct (Z.ltb_spec (Lines.lineCount st) maxLines) as [Hroom|Hfull].
      * rewrite firstn_all2; [reflexivity|].
        rewrite length_app. cbn [List.length]. lia.
      * assert (Hexact : Z.to_nat maxLines = List.length (Lines.result st))
          by lia.
        now rewrite Hexact, firstn_prefix.
Qed.

Example headFile_two_chunkings :
  Lines.headFile ["a" ++ newline ++ "b"; "c" ++ newline ++ "d" ++ newline]
                 Lines.Ended 2
  = Return ("a" ++ newline ++ "bc")
  /\ Lines.headFile ["a"; newline; "bc"; newline ++ "d" ++ newline]
                    Lines.Ended 2
     = Return ("a" ++ newline ++ "bc").
Proof. split; reflexivity. Qed.

(** X27. When the stream fails instead of ending, [headFile] still
    returns the first [maxLines] lines if more than [maxLines] complete
    lines (lines closed by a line feed) had been delivered before the
    failure, because it had resolved by then; otherwise it rejects with
    the stream's error. *)
Theorem headFile_on_a_failing_stream
  (chunks : list string) (detail : string) (maxLines : Z) :
  let complete :=
    removelast (Fs.splitOn Lines.lineFeed (String.concat EmptyString chunks)) in
  Lines.headFile chunks (Lines.Errored detail) maxLines
  = if (Z.to_nat maxLines <? List.length complete)%nat
    then Return (join newline (firstn (Z.to_nat maxLines) complete))
    else Throw (DriverError detail).
Proof.
  cbv zeta. unfold Lines.headFile.
  pose proof (fold_keeps_invariant maxLines chunks EmptyString Lines.headStart)
    as Hinv.
  cbn [append] in Hinv.
  assert (Hstart : Lines.headInvariant maxLines EmptyString Lines.headStart).
  { unfold Lines.headInvariant. cbn. repeat split. lia. }
  specialize (Hinv Hstart).
  set (st := fold_left (fun st chunk => Lines.onData maxLines chunk st)
                       chunks Lines.headStart) in *.
  set (content := String.concat EmptyString chunks) in *.
  unfold Lines.headInvariant in Hinv.
  destruct (Lines.resolved st) as [value|].
  - destruct Hinv as [kept [more [Hsplit [Hmore [Hlength ->]]]]].
    rewrite Hsplit, length_app, <- Hlength, firstn_prefix.
    destruct more as [|line more]; [contradiction|]. cbn [List.length].
    destruct (Nat.ltb_spec (List.length kept)
                (List.length kept + S (List.length more))); [reflexivity | lia].
  - destruct Hinv as [Hsplit [_ Hmax]].
    rewrite Hsplit, removelast_last.
    destruct (Nat.ltb_spec (Z.to_nat maxLines) (List.length (Lines.result st)));
      [lia | reflexivity].
Qed.

Example headFile_failing_late_and_early :
  Lines.headFile ["a" ++ newline ++ "b" ++ newline ++ "c" ++ newline]
                 (Lines.Errored "EIO") 2
  = Return ("a" ++ newline ++ "b")
  /\ Lines.headFile ["a" ++ newline ++ "b" ++ newline]
                    (Lines.Errored "EIO") 2
     = Throw (DriverError "EIO").
Proof. split; reflexivity. Qed.

(** * The filesystem server: editing a file *)

Lemma sliceFrom_app (a b : string) :
  Fs.sliceFrom (String.length a) (a ++ b) = b.
Proof.
  induction a as [|c a IH]; cbn [String.length append Fs.sliceFrom];
    [now destruct b | exact IH].
Qed.

Lemma findFirst_some (needle hay before after : string) :
  Edits.findFirst needle hay = Some (before, after) ->
  hay = before ++ needle ++ after
  /\ forall b a, hay = b ++ needle ++ a ->
                 (String.length before <= String.length b)%nat.
Proof.
  revert before after. induction hay as [|c r IH]; intros before after;
    cbn [Edits.findFirst].
  - destruct needle as [|n needle]; cbn [Fs.startsWith]; [|discriminate].
    intros [= <- <-]. split; [reflexivity | intros; cbn; lia].
  - destruct (Fs.startsWith (String c r) needle) eqn:Hstart.
    + intros [= <- <-]. apply startsWith_iff in Hstart.
      destruct Hstart as [rest Hrest].
      split; [|intros; cbn; lia].
      rewrite Hrest, sliceFrom_app. reflexivity.
    + destruct (Edits.findFirst needle r) as [[b0 a0]|] eqn:Hfind;
        [|discriminate].
      intros [= <- <-]. destruct (IH b0 a0 eq_refl) as [Hsplit Hleast].
      split; [cbn [append]; now rewrite <- Hsplit|].
      intros b a Hother. destruct b as [|c' b].
      * cbn [append] in Hother.
        assert (Hyes : Fs.startsWith (String c r) needle = true)
          by (apply startsWith_iff; now exists a).
        congruence.
      * cbn [append] in Hother. injection Hother as _ Hr.
        specialize (Hleast b a Hr). cbn [String.length]. lia.
Qed.

Lemma findFirst_none (needle hay : string) :
  Edits.findFirst needle hay = None ->
  forall b a, hay <> b ++ needle ++ a.
Proof.
  induction hay as [|c r IH]; cbn [Edits.findFirst].
  - destruct (Fs.startsWith EmptyString needle) eqn:Hstart; [discriminate|].
    intros _ b a Hsplit. destruct b; [|discriminate].
    cbn [append] in Hsplit.
    assert (Hyes : Fs.startsWith EmptyString needle = true)
      by (apply startsWith_iff; now exists a).
    congruence.
  - destruct (Fs.startsWith (String c r) needle) eqn:Hstart; [discriminate|].
    destruct (Edits.findFirst needle r) as [[b0 a0]|] eqn:Hfind;
      [discriminate|].
    intros _ b a Hsplit. destruct b as [|c' b].
    + cbn [append] in Hsplit.
      assert (Hyes : Fs.startsWith (String c r) needle = true)
        by (apply startsWith_iff; now exists a).
      congruence.
    + cbn [append] in Hsplit. injection Hsplit as _ Hr.
      exact (IH eq_refl b a Hr).
Qed.

Lemma substitution_plain (template matched before after : string) :
  everyChar (fun c => negb (Ascii.eqb c "$")) template = true ->
  Edits.substitution template matched before after = template.
Proof.
  induction template as [|c rest IH]; cbn [everyChar Edits.substitution];
    [reflexivity|].
  intros H. apply andb_prop in H. destruct H as [Hc Hrest].
  apply negb_true_iff in Hc. rewrite Hc. now rewrite (IH Hrest).
Qed.

Lemma split_same_length (a b c d : string) :
  a ++ b = c ++ d -> String.length a = String.length c -> a = c /\ b = d.
Proof.
  revert c. induction a as [|x a IH]; intros c Heq Hlen;
    destruct c as [|y c]; cbn [String.length append] in *; try discriminate.
  - now split.
  - injection Heq as -> Heq. destruct (IH c Heq) as [-> ->]; [lia|].
    now split.
Qed.

(** X24. An edit replaces the first occurrence of its text and nothing
    else.  The text is found exactly when it occurs in the content; if it
    does not occur the content is returned as it is; if it occurs and the
    new text holds no dollar sign, the result is the content with the
    first occurrence, the one with the shortest text before it, replaced
    by the new text. *)
Theorem edit_replaces_first_occurrence (hay needle template : string) :
  (Edits.includesText hay needle = true <->
   exists before after, hay = before ++ needle ++ after)
  /\ (Edits.includesText hay needle = false ->
      Edits.replaceText hay needle template = hay)
  /\ (everyChar (fun c => negb (Ascii.eqb c "$")) template = true ->
      forall before after,
        hay = before ++ needle ++ after ->
        (forall b a, hay = b ++ needle ++ a ->
                     (String.length before <= String.length b)%nat) ->
        Edits.replaceText hay needle template = before ++ template ++ after).
Proof.
  unfold Edits.includesText, Edits.replaceText.
  destruct (Edits.findFirst needle hay) as [[b0 a0]|] eqn:Hfind.
  - destruct (findFirst_some _ _ _ _ Hfind) as [Hsplit Hleast].
    split; [split; [intros _; now exists b0, a0 | reflexivity]|].
    split; [discriminate|].
    intros Hplain before after Hhere Hfirst.
    rewrite (substitution_plain _ _ _ _ Hplain).
    assert (Hlen : String.length b0 = String.length before).
    { specialize (Hleast before after Hhere).
      specialize (Hfirst b0 a0 Hsplit). lia. }
    rewrite Hsplit in Hhere.
    destruct (split_same_length _ _ _ _ Hhere Hlen) as [-> Hafter].
    apply append_cancel in Hafter. now subst.
  - pose proof (findFirst_none _ _ Hfind) as Hnone.
    split; [split; [discriminate | intros [b [a Hsplit]];
                                   now destruct (Hnone b a)]|].
    split; [reflexivity|].
    intros _ before after Hhere. now destruct (Hnone before after).
Qed.

Example edit_first_occurrence_only :
  Edits.replaceText "let x = 1; let y = 1;" "= 1" "= 2"
  = "let x = 2; let y = 1;"
  /\ Edits.replaceText "price" "price" "$$5 ($&)" = "$5 (price)".
Proof. split; reflexivity. Qed.

Lemma edit_replaces_first_occurrence_witness :
  Edits.replaceText "abcabc" "abc" "x" = "x" ++ "abc".
Proof.
  apply (proj2 (proj2 (edit_replaces_first_occurrence "abcabc" "abc" "x"))
           eq_refl EmptyString "abc" eq_refl).
  intros b a _. cbn. lia.
Defined.

(** The loop stops at the first edit whose text is not in the content as
    the edits before it left it. *)
Lemma applyEdits_stops_at_missing_text
  (done : list Edits.Edit) (edit : Edits.Edit) (rest : list Edits.Edit)
  (content mid : string) (changes notes : list string) :
  Edits.applyEdits content changes done = Return (mid, notes) ->
  Edits.includesText mid (Edits.oldText edit) = false ->
  Edits.applyEdits content changes (done ++ edit :: rest)
  = Throw (JsError ("Text not found in file: "
                    ++ Edits.substring0 50 (Edits.oldText edit) ++ "...")).
Proof.
  revert content changes.
  induction done as [|first done IH]; intros content changes.
  - cbn [Edits.applyEdits app]. intros [= <- <-] ->. reflexivity.
  - cbn [Edits.applyEdits app].
    destruct (Edits.includesText content (Edits.oldText first));
      cbn [negb]; [|discriminate].
    cbv zeta. apply IH.
Qed.

(** X25. [applyFileEdits] writes all the edits or nothing, and what it
    does is fixed by the file, the edits and the answers of the file
    system.  When the file cannot be read the call throws that failure
    and nothing is asked of the file system.  When one of the edits does
    not find its text in the content as the edits before it left it, the
    call throws "Text not found in file" with the start of that text and
    nothing has been written, not even the edits that did apply.  When
    every edit applies: a dry run returns the change notes and asks
    nothing of the file system; otherwise the parent directory is made and
    then the file is written, once, with the content that all the edits
    produced, and the call reports the number of edits and the change
    notes.  When making the directory fails the call throws that failure
    and the file is not written; when the write fails the call throws that
    failure. *)
Theorem edits_are_written_all_or_nothing
  (E : Edits.Env) (filePath : string) (edits : list Edits.Edit)
  (dryRun : bool) (log : list Edits.FsOp) :
  (forall detail,
     Edits.readFile E filePath = Failed detail ->
     Edits.applyFileEdits E filePath edits dryRun log
     = (Throw (DriverError detail), log))
  /\ (forall content e,
        Edits.readFile E filePath = Ok content ->
        Edits.applyEdits content [] edits = Throw e ->
        Edits.applyFileEdits E filePath edits dryRun log = (Throw e, log))
  /\ (forall content done edit rest mid notes,
        Edits.readFile E filePath = Ok content ->
        edits = (done ++ edit :: rest)%list ->
        Edits.applyEdits content [] done = Return (mid, notes) ->
        Edits.includesText mid (Edits.oldText edit) = false ->
        Edits.applyFileEdits E filePath edits dryRun log
        = (Throw (JsError ("Text not found in file: "
                           ++ Edits.substring0 50 (Edits.oldText edit)
                           ++ "...")), log))
  /\ (forall content final changes,
        Edits.readFile E filePath = Ok content ->
        Edits.applyEdits content [] edits = Return (final, changes) ->
        let dir := Edits.dirname E filePath in
        Edits.applyFileEdits E filePath edits dryRun log
        = if dryRun then
            (Return ("Dry run - changes that would be applied:"
                     ++ newline ++ newline
                     ++ join (newline ++ newline) changes), log)
          else
            match Edits.mkdir E log dir with
            | Failed detail =>
                (Throw (DriverError detail), (log ++ [Edits.Mkdir dir])%list)
            | Ok _ =>
                match Edits.writeFile E (log ++ [Edits.Mkdir dir])%list
                        filePath final with
                | Failed detail =>
                    (Throw (DriverError detail),
                     (log ++ [Edits.Mkdir dir;
                              Edits.WriteFile filePath final])%list)
                | Ok _ =>
                    (Return ("Successfully applied "
                             ++ ofNumber (Z.of_nat (List.length edits))
                             ++ " edit(s) to " ++ filePath
                             ++ newline ++ newline ++ "Changes:" ++ newline
                             ++ join (newline ++ newline) changes),
                     (log ++ [Edits.Mkdir dir;
                              Edits.WriteFile filePath final])%list)
                end
            end).
Proof.
  assert (Hthrow : forall content e,
            Edits.readFile E filePath = Ok content ->
            Edits.applyEdits content [] edits = Throw e ->
            Edits.applyFileEdits E filePath edits dryRun log = (Throw e, log)).
  { intros content e Hread Happly.
    unfold Edits.applyFileEdits. now rewrite Hread, Happly. }
  split.
  { intros detail Hread. unfold Edits.applyFileEdits. now rewrite Hread. }
  split; [exact Hthrow|].
  split.
  { intros content done edit rest mid notes Hread -> Hdone Hmissing.
    apply (Hthrow content _ Hread).
    now apply (applyEdits_stops_at_missing_text done edit rest content mid
                 [] notes). }
  intros content final changes Hread Happly dir.
  unfold Edits.applyFileEdits, Edits.writeFileContent.
  rewrite Hread, Happly. fold dir.
  destruct dryRun; cbn [negb]; [reflexivity|].
  cbv zeta.
  destruct (Edits.mkdir E log dir) as [[]|detail]; [|reflexivity].
  destruct (Edits.writeFile E _ filePath final) as [[]|detail];
    cbn [await]; rewrite <- app_assoc; reflexivity.
Qed.

Lemma edits_are_written_all_or_nothing_witness :
  Edits.readFile oneFileEnv "/srv/data/a.txt" = Ok "let x = 1; let y = 1;"
  /\ Edits.applyEdits "let x = 1; let y = 1;" []
       [ {| Edits.oldText := "x = 1"; Edits.newText := "x = 2" |};
         {| Edits.oldText := "y = 1"; Edits.newText := "y = 3" |} ]
     = Return ("let x = 2; let y = 3;",
               ["- x = 1..." ++ newline ++ "+ x = 2...";
                "- y = 1..." ++ newline ++ "+ y = 3..."])
  /\ Edits.applyFileEdits oneFileEnv "/srv/data/a.txt"
       [ {| Edits.oldText := "x = 1"; Edits.newText := "x = 2" |};
         {| Edits.oldText := "y = 1"; Edits.newText := "y = 3" |} ]
       false []
     = (Return ("Successfully applied 2 edit(s) to /srv/data/a.txt"
                ++ newline ++ newline ++ "Changes:" ++ newline
                ++ "- x = 1..." ++ newline ++ "+ x = 2..."
                ++ newline ++ newline
                ++ "- y = 1..." ++ newline ++ "+ y = 3..."),
        [Edits.Mkdir "/srv/data";
         Edits.WriteFile "/srv/data/a.txt" "let x = 2; let y = 3;"]).
Proof.
  split; [reflexivity|]. split; [reflexivity|].
  etransitivity;
    [ apply (proj2 (proj2 (proj2 (edits_are_written_all_or_nothing oneFileEnv
                                    "/srv/data/a.txt"
                                    [ {| Edits.oldText := "x = 1";
                                         Edits.newText := "x = 2" |};
                                      {| Edits.oldText := "y = 1";
                                         Edits.newText := "y = 3" |} ]
                                    false [])))
               "let x = 1; let y = 1;" "let x = 2; let y = 3;"
               ["- x = 1..." ++ newline ++ "+ x = 2...";
                "- y = 1..." ++ newline ++ "+ y = 3..."]
               eq_refl eq_refl)
    | reflexivity ].
Defined.

Example edits_stop_at_missing_text :
  Edits.applyFileEdits oneFileEnv "/srv/data/a.txt"
    [ {| Edits.oldText := "x = 1"; Edits.newText := "x = 2" |};
      {| Edits.oldText := "z = 1"; Edits.newText := "z = 2" |} ]
    false []
  = (Throw (JsError "Text not found in file: z = 1..."), []).
Proof. reflexivity. Qed.

(** * The filesystem server: file sizes *)

Lemma threshold_test (b : Z) (d : positive) (size : Q) :
  (size == b # d)%Q ->
  Qle_bool 1024 size = (1024 * Zpos d <=? b).
Proof.
  intros Hsize. rewrite Hsize. unfold Qle_bool. cbn [Qnum Qden].
  now rewrite Z.mul_1_r.
Qed.

Lemma divided_size (b : Z) (d : positive) (size : Q) :
  (size == b # d)%Q -> (size / 1024 == b # (d * 1024))%Q.
Proof.
  intros Hsize. rewrite Hsize. unfold Qeq, Qdiv, Qmult, Qinv.
  cbn [Qnum Qden]. rewrite Pos2Z.inj_mul. ring.
Qed.

Lemma scale_spec (rounds : nat) :
  forall (size : Q) (b : Z) (d : positive) (k : nat) (size' : Q) (k' : nat),
    (size == b # d)%Q ->
    Size.scale rounds size k = (size', k') ->
    exists d' : positive,
      (size' == b # d')%Q
      /\ Zpos d' = Zpos d * 1024 ^ Z.of_nat (k' - k)
      /\ (k <= k')%nat
      /\ ((k <= 4)%nat -> (k' <= 4)%nat)
      /\ ((k < k')%nat -> Zpos d' <= b)
      /\ ((k' < 4)%nat -> (4 - k <= rounds)%nat -> b < 1024 * Zpos d').
Proof.
  induction rounds as [|rounds IH]; intros size b d k size' k' Hsize;
    cbn [Size.scale].
  - intros [= <- <-]. exists d. rewrite Nat.sub_diag.
    repeat split; trivial; try lia.
  - rewrite (threshold_test b d size Hsize).
    change (List.length Size.units - 1)%nat with 4%nat.
    destruct (Z.leb_spec (1024 * Zpos d) b) as [Hbig|Hsmall];
      destruct (Nat.ltb_spec k 4) as [Hroom|Hlast]; cbn [andb].
    + intros Hrun.
      destruct (IH _ b (d * 1024)%positive (S k) size' k'
                  (divided_size b d size Hsize) Hrun)
        as [d' [Hsize' [Hd' [Hle [Hcap [Hreached Hbelow]]]]]].
      exists d'. split; [exact Hsize'|].
      split.
      { rewrite Hd', Pos2Z.inj_mul.
        replace (Z.of_nat (k' - k)) with (Z.of_nat (k' - S k) + 1) by lia.
        rewrite Z.pow_add_r by lia. ring. }
      split; [lia|]. split; [intros _; apply Hcap; lia|].
      split.
      * intros _. destruct (Nat.eq_dec k' (S k)) as [->|Hmore].
        -- rewrite Hd', Nat.sub_diag, Pos2Z.inj_mul. cbn [Z.of_nat Z.pow].
           lia.
        -- apply Hreached. lia.
      * intros Hk' Hrounds. apply Hbelow; lia.
    + intros [= <- <-]. exists d. rewrite Nat.sub_diag.
      repeat split; trivial; try lia.
    + intros [= <- <-]. exists d. rewrite Nat.sub_diag.
      repeat split; trivial; try lia.
    + intros [= <- <-]. exists d. rewrite Nat.sub_diag.
      repeat split; trivial; try lia.
Qed.

Lemma hundredths_of_fraction (b : Z) (d : positive) (size : Q) :
  (size == b # d)%Q ->
  Size.hundredths size = (200 * b + Zpos d) / (2 * Zpos d).
Proof.
  intros Hsize. unfold Size.hundredths.
  rewrite (Qfloor_comp _ _ (Qplus_comp _ _ (Qmult_comp _ _ Hsize _ _
                                              (Qeq_refl 100)) _ _
                                       (Qeq_refl (1 # 2)))).
  unfold Qfloor, Qplus, Qmult. cbn [Qnum Qden].
  rewrite !Pos2Z.inj_mul. f_equal; ring.
Qed.

(** X26. [formatSize] picks the largest unit, up to TB, that the size
    reaches: with [d = 1024^k] the divisor of the unit shown, the size is
    at least [d] unless the unit is B, and below [1024 d] unless the unit
    is TB.  The number shown is the size divided by [d], rounded to the
    nearest hundredth (a tie goes up), so it is within half a hundredth of
    the true value; sizes just below the next unit are therefore shown as
    1024.00 of the smaller unit.  Below 1024 bytes the result is the
    number of bytes followed by ".00 B". *)
Theorem formatSize_rounds_to_hundredths (bytes : Z) :
  0 <= bytes < 2 ^ 53 ->
  exists (k : nat) (n : Z),
    (k <= 4)%nat
    /\ (k = 0%nat \/ 1024 ^ Z.of_nat k <= bytes)
    /\ (k = 4%nat \/ bytes < 1024 * 1024 ^ Z.of_nat k)
    /\ n = (200 * bytes + 1024 ^ Z.of_nat k) / (2 * 1024 ^ Z.of_nat k)
    /\ 2 * Z.abs (100 * bytes - n * 1024 ^ Z.of_nat k) <= 1024 ^ Z.of_nat k
    /\ Size.formatSize bytes
       = Size.showHundredths n ++ " " ++ nth k Size.units EmptyString
    /\ (bytes < 1024 -> k = 0%nat /\ n = 100 * bytes).
Proof.
  intros [Hpos _]. unfold Size.formatSize.
  change (List.length Size.units - 1)%nat with 4%nat.
  destruct (Size.scale 4 (inject_Z bytes) 0) as [size k] eqn:Hscale.
  assert (Hstart : (inject_Z bytes == bytes # 1)%Q) by reflexivity.
  destruct (scale_spec 4 _ bytes 1%positive 0%nat size k Hstart Hscale)
    as [d [Hsize [Hd [_ [Hcap [Hreached Hbelow]]]]]].
  rewrite Nat.sub_0_r, Z.mul_1_l in Hd.
  exists k, (Size.hundredths size).
  assert (Hk : (k <= 4)%nat) by (apply Hcap; lia).
  assert (Hdpos : 0 < 1024 ^ Z.of_nat k) by (apply Z.pow_pos_nonneg; lia).
  assert (Hn : Size.hundredths size
               = (200 * bytes + 1024 ^ Z.of_nat k) / (2 * 1024 ^ Z.of_nat k)).
  { rewrite (hundredths_of_fraction bytes d size Hsize). now rewrite Hd. }
  split; [exact Hk|].
  split; [destruct k; [now left | right; rewrite <- Hd; apply Hreached; lia]|].
  split.
  { destruct (Nat.eq_dec k 4) as [->|Hless]; [now left | right].
    rewrite <- Hd. apply Hbelow; lia. }
  split; [exact Hn|].
  split.
  { rewrite Hn.
    set (d0 := 1024 ^ Z.of_nat k) in *.
    pose proof (Z.div_mod (200 * bytes + d0) (2 * d0)) as Hdiv.
    pose proof (Z.mod_pos_bound (200 * bytes + d0) (2 * d0)) as Hmod.
    set (q := (200 * bytes + d0) / (2 * d0)) in *.
    nia. }
  split.
  { unfold Size.toFixed2.
    destruct k as [|[|[|[|[|k]]]]]; try lia; reflexivity. }
  intros Hsmall.
  assert (Hzero : k = 0%nat).
  { destruct k as [|k]; [reflexivity|].
    assert (Hge : 1024 ^ Z.of_nat (S k) <= bytes)
      by (rewrite <- Hd; apply Hreached; lia).
    assert (H1024 : 1024 ^ 1 <= 1024 ^ Z.of_nat (S k))
      by (apply Z.pow_le_mono_r; lia).
    lia. }
  split; [exact Hzero|].
  rewrite Hn, Hzero. cbn [Z.of_nat Z.pow].
  replace (200 * bytes + 1) with (1 + (100 * bytes) * 2) by lia.
  change (2 * 1) with 2.
  rewrite Z.div_add by lia. reflexivity.
Qed.

Lemma formatSize_rounds_to_hundredths_witness :
  0 <= 1048575 < 2 ^ 53
  /\ Size.formatSize 1048575 = "1024.00 KB"
  /\ exists (k : nat) (n : Z),
       (k <= 4)%nat
       /\ (k = 0%nat \/ 1024 ^ Z.of_nat k <= 1048575)
       /\ (k = 4%nat \/ 1048575 < 1024 * 1024 ^ Z.of_nat k)
       /\ n = (200 * 1048575 + 1024 ^ Z.of_nat k) / (2 * 1024 ^ Z.of_nat k)
       /\ 2 * Z.abs (100 * 1048575 - n * 1024 ^ Z.of_nat k)
          <= 1024 ^ Z.of_nat k
       /\ Size.formatSize 1048575
          = Size.showHundredths n ++ " " ++ nth k Size.units EmptyString
       /\ (1048575 < 1024 -> k = 0%nat /\ n = 100 * 1048575).
Proof.
  assert (Hpos : 0 <= 1048575 < 2 ^ 53) by (cbn; lia).
  split; [exact Hpos|]. split; [reflexivity|].
  exact (formatSize_rounds_to_hundredths 1048575 Hpos).
Defined.
